(** * Color-separator: the pixel pipeline of [services/imageProcessor.ts]

    A shallow embedding of the image-processing service of the
    Color-separator application and the properties of it that the
    specification states.

    Conventions of the embedding.

    - A JavaScript [number] is a value of [num]: [NaN], the two infinities,
      or a finite value carried as an exact rational.  The special values
      follow IEEE-754/ECMAScript ([0/0 = NaN], [x/0 = ±Infinity],
      comparisons with [NaN] are false); the rounding of finite results to
      binary64 and the sign of zero are not modelled.
    - A [Uint8ClampedArray] is a [list Z] of bytes; reading outside the
      array gives [undefined], which every arithmetic use turns into [NaN];
      writing converts with ToUint8Clamp (round half to even, clamp to
      0..255) and is ignored outside the array.
    - [Math.pow] and [Math.sqrt] are exact where the result is rational by
      construction (integer exponents, the root of zero); the remaining
      cases go through the section variables [powQ] and [sqrtQ].
    - A canvas is its [ImageData]; [drawImage]/[getImageData]/[putImageData]
      copy the bytes unchanged and a 2d context is always available. *)

From Stdlib Require Import ZArith QArith Qround Qabs Qpower.
From Stdlib Require Import Bool List String Ascii Sorted Lia Lqa.
From stdpp Require Import base list.

Set Default Proof Using "Type*".

Open Scope Z_scope.

(** ** JavaScript numbers *)

Module Num.

Inductive num : Type :=
| NaN
| PInf
| NInf
| Fin (q : Q).

Definition ofZ (z : Z) : num := Fin (inject_Z z).

Definition toZ (x : num) : option Z :=
  match x with
  | Fin (Qmake n 1) => Some n
  | _ => None
  end.

Declare Scope js_scope.
Delimit Scope js_scope with js.
Bind Scope js_scope with num.
Number Notation num ofZ toZ : js_scope.

Definition Qltb (a b : Q) : bool := negb (Qle_bool b a).

(** Equality of numbers up to the representation of the rational. *)
Definition num_eq (x y : num) : Prop :=
  match x, y with
  | NaN, NaN => True
  | PInf, PInf => True
  | NInf, NInf => True
  | Fin a, Fin b => (a == b)%Q
  | _, _ => False
  end.

Definition neg (x : num) : num :=
  match x with
  | NaN => NaN
  | PInf => NInf
  | NInf => PInf
  | Fin q => Fin (- q)%Q
  end.

Definition add (x y : num) : num :=
  match x, y with
  | NaN, _ | _, NaN => NaN
  | PInf, NInf | NInf, PInf => NaN
  | PInf, _ | _, PInf => PInf
  | NInf, _ | _, NInf => NInf
  | Fin a, Fin b => Fin (a + b)%Q
  end.

Definition sub (x y : num) : num := add x (neg y).

(** The infinity whose sign is that of a non-zero rational. *)
Definition inf_of_sign (q : Q) : num :=
  if Qltb q 0 then NInf else PInf.

Definition mul (x y : num) : num :=
  match x, y with
  | NaN, _ | _, NaN => NaN
  | PInf, PInf | NInf, NInf => PInf
  | PInf, NInf | NInf, PInf => NInf
  | PInf, Fin q | Fin q, PInf =>
      if Qeq_bool q 0 then NaN else inf_of_sign q
  | NInf, Fin q | Fin q, NInf =>
      if Qeq_bool q 0 then NaN else inf_of_sign (- q)%Q
  | Fin a, Fin b => Fin (a * b)%Q
  end.

Definition div (x y : num) : num :=
  match x, y with
  | NaN, _ | _, NaN => NaN
  | (PInf | NInf), (PInf | NInf) => NaN
  | PInf, Fin q => if Qltb q 0 then NInf else PInf
  | NInf, Fin q => if Qltb q 0 then PInf else NInf
  | Fin _, (PInf | NInf) => Fin 0
  | Fin a, Fin b =>
      if Qeq_bool b 0
      then (if Qeq_bool a 0 then NaN else inf_of_sign a)
      else Fin (a / b)%Q
  end.

(** [x < y], [x <= y], [x > y], [x === y] and [x !== y] on numbers. *)
Definition lt (x y : num) : bool :=
  match x, y with
  | NaN, _ | _, NaN => false
  | _, NInf => false
  | NInf, _ => true
  | PInf, _ => false
  | Fin _, PInf => true
  | Fin a, Fin b => Qltb a b
  end.

Definition le (x y : num) : bool :=
  match x, y with
  | NaN, _ | _, NaN => false
  | NInf, _ => true
  | _, PInf => true
  | _, NInf => false
  | PInf, _ => false
  | Fin a, Fin b => Qle_bool a b
  end.

Definition gt (x y : num) : bool := lt y x.
Definition ge (x y : num) : bool := le y x.

Definition seq (x y : num) : bool :=
  match x, y with
  | PInf, PInf | NInf, NInf => true
  | Fin a, Fin b => Qeq_bool a b
  | _, _ => false
  end.

Definition sneq (x y : num) : bool := negb (seq x y).

(** ToBoolean on a number: [NaN] and zero are falsy. *)
Definition truthy (x : num) : bool :=
  match x with
  | NaN => false
  | Fin q => negb (Qeq_bool q 0)
  | _ => true
  end.

(** [x || y] on numbers. *)
Definition or_else (x y : num) : num := if truthy x then x else y.

Definition Math_max (x y : num) : num :=
  match x, y with
  | NaN, _ | _, NaN => NaN
  | _, _ => if lt x y then y else x
  end.

Definition Math_min (x y : num) : num :=
  match x, y with
  | NaN, _ | _, NaN => NaN
  | _, _ => if lt y x then y else x
  end.

Definition Math_max3 (x y z : num) : num := Math_max (Math_max x y) z.

(** [Math.round]: the nearest integer, ties towards positive infinity. *)
Definition Math_round (x : num) : num :=
  match x with
  | Fin q => ofZ (Qfloor (q + (1 # 2))%Q)
  | _ => x
  end.

(** ToUint8Clamp, the conversion applied when a number is stored in a
    [Uint8ClampedArray]: [NaN] becomes 0, the value is clamped to 0..255 and
    rounded to the nearest integer, ties to even. *)
Definition ToUint8Clamp (x : num) : Z :=
  match x with
  | NaN => 0
  | NInf => 0
  | PInf => 255
  | Fin q =>
      if Qle_bool q 0 then 0
      else if Qle_bool 255 q then 255
      else
        let f := Qfloor q in
        let h := (inject_Z f + (1 # 2))%Q in
        if Qltb h q then f + 1
        else if Qltb q h then f
        else if Z.even f then f else f + 1
  end.

Infix "+" := add : js_scope.
Infix "-" := sub : js_scope.
Infix "*" := mul : js_scope.
Infix "/" := div : js_scope.
Notation "x '||' y" := (or_else x y) : js_scope.

End Num.

Import Num.

(** ** Strings: [slice], [parseInt(_, 16)] and [toString(16)] *)

Module Str.

(** [s.slice(a, b)] and [s.slice(a)] for indices within [0, length]. *)
Definition slice (a b : nat) (s : string) : string := substring a (b - a) s.
Definition slice_from (a : nat) (s : string) : string :=
  substring a (String.length s - a) s.

Definition hexval (c : ascii) : option Z :=
  let n := Z.of_nat (nat_of_ascii c) in
  if (48 <=? n) && (n <=? 57) then Some (n - 48)
  else if (97 <=? n) && (n <=? 102) then Some (n - 87)
  else if (65 <=? n) && (n <=? 70) then Some (n - 55)
  else None.

(** White space and line terminators that [parseInt] skips (ASCII part). *)
Definition is_space (c : ascii) : bool :=
  let n := nat_of_ascii c in
  ((9 <=? n) && (n <=? 13))%nat || (n =? 32)%nat.

Fixpoint skip_space (s : string) : string :=
  match s with
  | String c s' => if is_space c then skip_space s' else s
  | EmptyString => s
  end.

(** The value of the longest prefix of hexadecimal digits, [acc] being the
    value of the digits already read ([None]: no digit yet). *)
Fixpoint hex_prefix (s : string) (acc : option Z) : option Z :=
  match s with
  | String c s' =>
      match hexval c with
      | Some d => hex_prefix s' (Some (match acc with
                                        | Some v => 16 * v + d
                                        | None => d
                                        end))
      | None => acc
      end
  | EmptyString => acc
  end.

Definition strip_0x (s : string) : string :=
  match s with
  | String a (String b s') =>
      if ((a =? "0") && ((b =? "x") || (b =? "X")))%char then s' else s
  | _ => s
  end.

(** [parseInt(s, 16)]. *)
Definition parseInt16 (s : string) : num :=
  let s1 := skip_space s in
  let sign :=
    match s1 with
    | String c _ => if (c =? "-")%char then -1 else 1
    | EmptyString => 1
    end in
  let s2 :=
    match s1 with
    | String c s' => if ((c =? "-") || (c =? "+"))%char then s' else s1
    | EmptyString => s1
    end in
  match hex_prefix (strip_0x s2) None with
  | Some v => ofZ (sign * v)
  | None => NaN
  end.

Definition hexdigit (d : Z) : ascii :=
  if d <? 10 then ascii_of_nat (Z.to_nat (48 + d))
  else ascii_of_nat (Z.to_nat (87 + d)).

Fixpoint hex_digits (fuel : nat) (n : Z) (acc : string) : string :=
  match fuel with
  | O => acc
  | S f =>
      let acc' := String (hexdigit (n mod 16)) acc in
      if n / 16 =? 0 then acc' else hex_digits f (n / 16) acc'
  end.

(** [n.toString(16)] for an integer [n]. *)
Definition toString16Z (n : Z) : string :=
  if n <? 0
  then String "-"%char
         (hex_digits (S (Z.to_nat (Z.log2 (- n)))) (- n) EmptyString)
  else hex_digits (S (Z.to_nat (Z.log2 n))) n EmptyString.

(** [x.toString(16)] on a number; the pipeline only prints integers. *)
Definition toString16 (x : num) : string :=
  match x with
  | NaN => "NaN"%string
  | PInf => "Infinity"%string
  | NInf => "-Infinity"%string
  | Fin q => toString16Z (Qfloor q)
  end.

End Str.

Import Str.

(** ** Bit operations on numbers *)

(** ToInt32: truncate and wrap to a signed 32-bit integer. *)
Definition wrap32 (z : Z) : Z := (z + 2 ^ 31) mod 2 ^ 32 - 2 ^ 31.

Definition ToInt32 (x : num) : Z :=
  match x with
  | Fin q => wrap32 (Z.quot (Qnum q) (Z.pos (Qden q)))
  | _ => 0
  end.

(** [x << k]. *)
Definition shl (x : num) (k : Z) : num :=
  ofZ (wrap32 (Z.shiftl (ToInt32 x) (k mod 32))).

(** ** Typed arrays of clamped bytes *)

Definition get (d : list Z) (i : nat) : num :=
  match d !! i with
  | Some b => ofZ b
  | None => NaN
  end.

Definition set (d : list Z) (i : nat) (x : num) : list Z :=
  <[ i := ToUint8Clamp x ]> d.

(** The elements of a clamped array are bytes. *)
Definition is_bytes (d : list Z) : Prop := Forall (fun b => 0 <= b <= 255) d.

(** [new Uint8ClampedArray(n)]. *)
Definition new_array (n : nat) : list Z := replicate n 0.

(** [for (let i = start; i < len; i += 4) body], run on at most [fuel]
    iterations; [length d] iterations always suffice from [start = 0]. *)
Fixpoint for4 {St : Type} (fuel i len : nat) (body : nat -> St -> St) (s : St)
  : St :=
  match fuel with
  | O => s
  | S f => if (i <? len)%nat then for4 f (i + 4) len body (body i s) else s
  end.

(** A loop that only writes: at index [i] it stores [w i], when there is
    one, in slot [i / 4] of a density array. *)
Definition writes (w : nat -> option num) (i : nat) (c : list Z) : list Z :=
  match w i with
  | Some v => set c (i / 4) v
  | None => c
  end.

(** ** Settings and images *)

Inductive BgRemoveMode : Type := white | black | custom | auto.

Record ImageAdjustments : Type := {
  brightness : num;
  contrast : num;
  gamma : num;
  removeBg : bool;
  bgRemoveMode : BgRemoveMode;
  customBgColor : string;
  bgThreshold : num
}.

Record SpotColor : Type := {
  id : string;
  name : string;
  color : string;
  threshold : num
}.

(** An image or canvas: its dimensions and the bytes [getImageData] gives. *)
Record Image : Type := {
  width : Z;
  height : Z;
  data : list Z
}.

(** The ranges that [types.ts] documents for the settings. *)
Definition between (lo hi : Q) (x : num) : Prop :=
  match x with
  | Fin q => (lo <= q <= hi)%Q
  | _ => False
  end.

Record in_range (adj : ImageAdjustments) : Prop := {
  brightness_range : between (-100) 100 (brightness adj);
  contrast_range : between (-100) 100 (contrast adj);
  gamma_range : between 0.1 3 (gamma adj);
  bgThreshold_range : between 0 100 (bgThreshold adj)
}.

(** A colour written [#rrggbb]. *)
Definition is_hexdigit (c : ascii) : bool :=
  match hexval c with
  | Some _ => true
  | None => false
  end.

Definition is_hex_color (s : string) : bool :=
  match s with
  | String c0
      (String c1 (String c2 (String c3 (String c4 (String c5 (String c6
        EmptyString)))))) =>
      (c0 =? "#")%char && forallb is_hexdigit [c1; c2; c3; c4; c5; c6]
  | _ => false
  end.

(** ** The image-processing service *)

Section Service.

(** [powQ b e]: the floating-point power [b^e] for a finite base [b > 0] and
    a finite exponent [e] that is not an integer.
    [sqrtQ q]: the floating-point square root of a finite [q > 0]. *)
Variable powQ : Q -> Q -> Q.
Variable sqrtQ : Q -> Q.

Definition is_int (q : Q) : bool := Qeq_bool q (inject_Z (Qfloor q)).
Definition is_odd_int (q : Q) : bool := is_int q && Z.odd (Qfloor q).

Definition Qabs_cmp1 (b : Q) : comparison := (Qabs b ?= 1)%Q.

(** [Math.pow(base, expo)], following Number::exponentiate. *)
Definition Math_pow (base expo : num) : num :=
  match expo with
  | NaN => NaN
  | PInf =>
      match base with
      | NaN => NaN
      | PInf | NInf => PInf
      | Fin b => match Qabs_cmp1 b with
                 | Gt => PInf | Eq => NaN | Lt => Fin 0
                 end
      end
  | NInf =>
      match base with
      | NaN => NaN
      | PInf | NInf => Fin 0
      | Fin b => match Qabs_cmp1 b with
                 | Gt => Fin 0 | Eq => NaN | Lt => PInf
                 end
      end
  | Fin e =>
      if Qeq_bool e 0 then Fin 1
      else
        match base with
        | NaN => NaN
        | PInf => if Qltb 0 e then PInf else Fin 0
        | NInf =>
            if Qltb 0 e then (if is_odd_int e then NInf else PInf) else Fin 0
        | Fin b =>
            if Qeq_bool b 0 then (if Qltb 0 e then Fin 0 else PInf)
            else if is_int e then Fin (Qpower b (Qfloor e))
            else if Qltb b 0 then NaN
            else Fin (powQ b e)
        end
  end.

(** [Math.sqrt]. *)
Definition Math_sqrt (x : num) : num :=
  match x with
  | NaN | NInf => NaN
  | PInf => PInf
  | Fin q =>
      if Qltb q 0 then NaN
      else if Qeq_bool q 0 then Fin 0
      else Fin (sqrtQ q)
  end.

Open Scope js_scope.

(** *** [getColorDistance] *)

Definition getColorDistance (hex1 hex2 : string) : num :=
  let r1 := parseInt16 (slice 1 3 hex1) in
  let g1 := parseInt16 (slice 3 5 hex1) in
  let b1 := parseInt16 (slice 5 7 hex1) in
  let r2 := parseInt16 (slice 1 3 hex2) in
  let g2 := parseInt16 (slice 3 5 hex2) in
  let b2 := parseInt16 (slice 5 7 hex2) in
  Math_sqrt (Math_pow (r1 - r2) 2 + Math_pow (g1 - g2) 2
             + Math_pow (b1 - b2) 2).

(** *** [applyAttributes] *)

(** The mask bytes, kept only when the mask has the size of the canvas. *)
Definition maskDataOf (img : Image) (userMask : option Image)
  : option (list Z) :=
  match userMask with
  | Some m =>
      if (width m =? width img)%Z && (height m =? height img)%Z
      then Some (data m)
      else None
  | None => None
  end.

Definition contrastFactor (adj : ImageAdjustments) : num :=
  (259 * (contrast adj + 255)) / (255 * (259 - contrast adj)).

(** The target background colour, read before the pixel loop. *)
Definition bgTarget (adj : ImageAdjustments) (d : list Z) : num * num * num :=
  if removeBg adj then
    match bgRemoveMode adj with
    | black => (0, 0, 0)
    | custom =>
        (parseInt16 (slice 1 3 (customBgColor adj)),
         parseInt16 (slice 3 5 (customBgColor adj)),
         parseInt16 (slice 5 7 (customBgColor adj)))
    | auto => (get d 0, get d 1, get d 2)
    | white => (255, 255, 255)
    end
  else (255, 255, 255).

Definition toleranceSq (adj : ImageAdjustments) : num :=
  let tolerance := (bgThreshold adj / 100) * 442 in
  tolerance * tolerance.

Definition clamp255 (c : num) : num := Math_max 0 (Math_min 255 c).

(** A number within 0..255, or [NaN]. *)
Definition clamped (x : num) : Prop :=
  match x with
  | NaN => True
  | Fin q => (0 <= q <= 255)%Q
  | _ => False
  end.

(** Steps 1 to 3 and the final clamp, for one channel value. *)
Definition brightness_step (adj : ImageAdjustments) (c : num) : num :=
  c + brightness adj.

Definition contrast_step (adj : ImageAdjustments) (c : num) : num :=
  contrastFactor adj * (c - 128) + 128.

Definition gamma_step (adj : ImageAdjustments) (c : num) : num :=
  if sneq (gamma adj) 1
  then 255 * Math_pow (clamp255 c / 255) (1 / gamma adj)
  else c.

Definition tone (adj : ImageAdjustments) (c : num) : num :=
  clamp255 (gamma_step adj (contrast_step adj (brightness_step adj c))).


(** The two mask flags of the pixel at byte offset [i]: red above 10 erases,
    green above 10 keeps. *)
Definition forceRemove (maskData : option (list Z)) (i : nat) : bool :=
  match maskData with
  | Some m => gt (get m i) 10
  | None => false
  end.

Definition forceKeep (maskData : option (list Z)) (i : nat) : bool :=
  match maskData with
  | Some m => gt (get m (i + 1)) 10
  | None => false
  end.

(** Step 4: the alpha of the pixel at byte offset [i], from its adjusted
    colour [r g b] and its alpha [a]. *)
Definition alpha_rule (adj : ImageAdjustments) (maskData : option (list Z))
    (target : num * num * num) (tolSq : num) (i : nat) (r g b a : num) : num :=
  let '(targetR, targetG, targetB) := target in
  if forceRemove maskData i then 0
  else if forceKeep maskData i then a
  else if removeBg adj then
    match bgRemoveMode adj with
    | white =>
        let luminance := Fin 0.299 * r + Fin 0.587 * g + Fin 0.114 * b in
        let cutoff := 255 - (bgThreshold adj * Fin 2.5) in
        if gt luminance cutoff then 0 else a
    | _ =>
        let distSq :=
          (r - targetR) * (r - targetR)
          + (g - targetG) * (g - targetG)
          + (b - targetB) * (b - targetB) in
        if le distSq tolSq then 0 else a
    end
  else a.

(** One iteration of the pixel loop, on the array being rewritten in place. *)
Definition applyAttributes_body (adj : ImageAdjustments)
    (maskData : option (list Z)) (target : num * num * num) (tolSq : num)
    (i : nat) (d : list Z) : list Z :=
  let r := tone adj (get d i) in
  let g := tone adj (get d (i + 1)) in
  let b := tone adj (get d (i + 2)) in
  let a := alpha_rule adj maskData target tolSq i r g b (get d (i + 3)) in
  set (set (set (set d i r) (i + 1) g) (i + 2) b) (i + 3) a.

(** The number that the iteration at byte offset [i] stores at [i + c]. *)
Definition stored (adj : ImageAdjustments) (maskData : option (list Z))
    (target : num * num * num) (tolSq : num) (d : list Z) (i c : nat) : num :=
  let r := tone adj (get d i) in
  let g := tone adj (get d (i + 1)) in
  let b := tone adj (get d (i + 2)) in
  match c with
  | 0%nat => r
  | 1%nat => g
  | 2%nat => b
  | _ => alpha_rule adj maskData target tolSq i r g b (get d (i + 3))
  end.

Definition applyAttributes (img : Image) (adj : ImageAdjustments)
    (userMask : option Image) : list Z :=
  let d := data img in
  let maskData := maskDataOf img userMask in
  let target := bgTarget adj d in
  let tolSq := toleranceSq adj in
  for4 (length d) 0 (length d)
       (applyAttributes_body adj maskData target tolSq) d.

(** *** [processWhiteBase] *)

(** The scan for a pixel with alpha below 250, leaving at the first one. *)
Fixpoint scanTransparency (fuel i : nat) (px : list Z) : bool :=
  match fuel with
  | O => false
  | S f =>
      if (i <? length px)%nat
      then (if lt (get px (i + 3)) 250 then true
            else scanTransparency f (i + 4) px)
      else false
  end.

(** One iteration of the density loop.  The luma is carried as an exact
    rational where the code rounds it to binary64; the stored byte can
    differ from the code's only where 255 minus the exact luma lies halfway
    between two integers. *)
Definition whiteBase_body (px : list Z) (hasTransparency : bool)
    (i : nat) (baseArr : list Z) : list Z :=
  let r := get px i in
  let g := get px (i + 1) in
  let b := get px (i + 2) in
  let a := get px (i + 3) in
  let val :=
    if hasTransparency then a
    else 255 - (Fin 0.299 * r + Fin 0.587 * g + Fin 0.114 * b) in
  set baseArr (i / 4) val.

(** The density array of the white underbase of a processed canvas. *)
Definition whiteBase (px : list Z) : list Z :=
  let len := length px in
  let baseArr := new_array (len / 4) in
  let hasTransparency := scanTransparency len 0 px in
  for4 len 0 len (whiteBase_body px hasTransparency) baseArr.

Definition processWhiteBase (img : Image) (adjustments : ImageAdjustments)
    (userMask : option Image) : list Z :=
  whiteBase (applyAttributes img adjustments userMask).

(** *** [processCMYK] *)

Record CMYK : Type := {
  cArr : list Z;
  mArr : list Z;
  yArr : list Z;
  kArr : list Z
}.

(** The four densities of the pixel at byte offset [i]; none for a pixel
    whose alpha is zero, which the loop skips. *)
Definition cmyk_values (px : list Z) (i : nat)
  : option (num * num * num * num) :=
  let alpha := get px (i + 3) / 255 in
  if seq alpha 0 then None
  else
    let r := get px i / 255 in
    let g := get px (i + 1) / 255 in
    let b := get px (i + 2) / 255 in
    let k := 1 - Math_max3 r g b in
    let c := (1 - r - k) / (1 - k) || 0 in
    let m := (1 - g - k) / (1 - k) || 0 in
    let y := (1 - b - k) / (1 - k) || 0 in
    Some (c * 255 * alpha, m * 255 * alpha, y * 255 * alpha, k * 255 * alpha).

(** The components of a quadruple of densities. *)
Definition sel_c (v : num * num * num * num) : num := fst (fst (fst v)).
Definition sel_m (v : num * num * num * num) : num := snd (fst (fst v)).
Definition sel_y (v : num * num * num * num) : num := snd (fst v).
Definition sel_k (v : num * num * num * num) : num := snd v.

Definition cmyk_body (px : list Z) (i : nat) (s : CMYK) : CMYK :=
  match cmyk_values px i with
  | None => s
  | Some (c, m, y, k) =>
      let pIndex := (i / 4)%nat in
      {| cArr := set (cArr s) pIndex c;
         mArr := set (mArr s) pIndex m;
         yArr := set (yArr s) pIndex y;
         kArr := set (kArr s) pIndex k |}
  end.

(** The four density arrays (Cyan, Magenta, Yellow, Key) of a processed
    canvas. *)
Definition cmyk (px : list Z) : CMYK :=
  let len := length px in
  let z := new_array (len / 4) in
  for4 len 0 len (cmyk_body px)
       {| cArr := z; mArr := z; yArr := z; kArr := z |}.

Definition processCMYK (img : Image) (adjustments : ImageAdjustments)
    (userMask : option Image) : CMYK :=
  cmyk (applyAttributes img adjustments userMask).

(** *** [processSpotColors] *)

Record Target : Type := {
  t_r : num;
  t_g : num;
  t_b : num;
  t_spot : SpotColor
}.

Definition mkTarget (sc : SpotColor) : Target :=
  {| t_r := parseInt16 (slice 1 3 (color sc));
     t_g := parseInt16 (slice 3 5 (color sc));
     t_b := parseInt16 (slice 5 7 (color sc));
     t_spot := sc |}.

(** [l.forEach((x, idx) => ...)] as a state transformer. *)
Fixpoint forEach_from {A St : Type} (idx : nat) (l : list A)
    (f : A -> nat -> St -> St) (s : St) : St :=
  match l with
  | [] => s
  | x :: l' => forEach_from (S idx) l' f (f x idx s)
  end.

Definition forEach {A St : Type} (l : list A) (f : A -> nat -> St -> St)
    (s : St) : St :=
  forEach_from 0 l f s.

(** The similarity of the colour [r g b] to a target, after the cubic
    sharpening. *)
Definition similarity (target : Target) (r g b : num) : num :=
  let dist :=
    Math_sqrt (Math_pow (t_r target - r) 2
               + Math_pow (t_g target - g) 2
               + Math_pow (t_b target - b) 2) in
  let maxDist := 442 in
  let sensitivity := 1 + (threshold (t_spot target) / 20) in
  let similarity := 1 - (dist / (maxDist / sensitivity)) in
  let similarity := if lt similarity 0 then 0 else similarity in
  Math_pow similarity 3.

(** The density of a target at the pixel at byte offset [i]; none for a
    pixel whose alpha is zero, which the loop skips. *)
Definition spot_value (target : Target) (px : list Z) (i : nat) : option num :=
  let alpha := get px (i + 3) / 255 in
  if seq alpha 0 then None
  else
    let r := get px i in
    let g := get px (i + 1) in
    let b := get px (i + 2) in
    Some (similarity target r g b * 255 * alpha).

Definition spot_body (px : list Z) (targets : list Target) (i : nat)
    (channels : list (list Z)) : list (list Z) :=
  let alpha := get px (i + 3) / 255 in
  if seq alpha 0 then channels
  else
    let r := get px i in
    let g := get px (i + 1) in
    let b := get px (i + 2) in
    forEach targets
      (fun target idx channels =>
         match channels !! idx with
         | Some ch =>
             <[ idx := set ch (i / 4) (similarity target r g b * 255 * alpha) ]>
               channels
         | None => channels
         end)
      channels.

(** One density array per configured spot colour. *)
Definition spot (px : list Z) (spotColors : list SpotColor)
  : list (list Z) :=
  let len := length px in
  let targets := map mkTarget spotColors in
  let channels := map (fun _ => new_array (len / 4)) targets in
  for4 len 0 len (spot_body px targets) channels.

Definition processSpotColors (img : Image) (spotColors : list SpotColor)
    (adjustments : ImageAdjustments) (userMask : option Image)
  : list (list Z) :=
  spot (applyAttributes img adjustments userMask) spotColors.

(** *** [extractDominantColors] *)

(** One channel rounded to the nearest multiple of 24 and kept in 0..255. *)
Definition quantize (c : num) : num :=
  let step := 24 in
  let q := Math_round (c / step) * step in
  Math_min 255 (Math_max 0 q).

Definition hexOf (fR fG fB : num) : string :=
  String "#"%char
    (slice_from 1 (toString16 (shl 1 24 + shl fR 16 + shl fG 8 + fB))).

(** [colorCounts[hex] = (colorCounts[hex] || 0) + 1] on a record whose keys
    are kept in insertion order. *)
Fixpoint bump (hex : string) (colorCounts : list (string * Z))
  : list (string * Z) :=
  match colorCounts with
  | [] => [(hex, 0 + 1)%Z]
  | (k, n) :: rest =>
      if String.eqb k hex then (k, n + 1)%Z :: rest
      else (k, n) :: bump hex rest
  end.

(** The key of the pixel at byte offset [i]; none for a pixel whose alpha
    is below 128, which the loop skips. *)
Definition pixel_key (d : list Z) (i : nat) : option string :=
  let r := get d i in
  let g := get d (i + 1) in
  let b := get d (i + 2) in
  let a := get d (i + 3) in
  if lt a 128 then None
  else Some (hexOf (quantize r) (quantize g) (quantize b)).

(** [colorCounts[k] || 0]. *)
Fixpoint count_of (colorCounts : list (string * Z)) (k : string) : Z :=
  match colorCounts with
  | [] => 0%Z
  | (k', n) :: rest => if String.eqb k' k then n else count_of rest k
  end.

Definition histogram_body (d : list Z) (i : nat)
    (colorCounts : list (string * Z)) : list (string * Z) :=
  match pixel_key d i with
  | None => colorCounts
  | Some hex => bump hex colorCounts
  end.

Definition histogram (d : list Z) : list (string * Z) :=
  for4 (length d) 0 (length d) (histogram_body d) [].

(** The frequency of a quantised colour in the sampled image: the number
    of its pixels that the loop counts under that key. *)
Definition counts_as (d : list Z) (key : string) (p : nat) : bool :=
  match pixel_key d (4 * p) with
  | Some k => String.eqb k key
  | None => false
  end.

Definition frequency (d : list Z) (key : string) : Z :=
  Z.of_nat
    (length (List.filter (counts_as d key) (List.seq 0 (length d / 4)))).

(** The values a quantised channel can take. *)
Definition levels : list Z :=
  [0; 24; 48; 72; 96; 120; 144; 168; 192; 216; 240; 255]%Z.

(** Checks, run once over the finite ranges, that quantisation lands on a
    level and that a colour is read back from its key. *)
Definition quantize_check (b : Z) : bool :=
  match toZ (quantize (ofZ b)) with
  | Some l => existsb (Z.eqb l) levels
  | None => false
  end.

Definition channels_check (hex : string) (r g b : Z) : bool :=
  match toZ (parseInt16 (slice 1 3 hex)), toZ (parseInt16 (slice 3 5 hex)),
        toZ (parseInt16 (slice 5 7 hex)) with
  | Some r', Some g', Some b' => ((r' =? r) && (g' =? g) && (b' =? b))%Z
  | _, _, _ => false
  end.

(** The channels that a colour written [#rrggbb] stands for. *)
Definition channels_of (hex : string) (r g b : Z) : Prop :=
  parseInt16 (slice 1 3 hex) = ofZ r
  /\ parseInt16 (slice 3 5 hex) = ofZ g
  /\ parseInt16 (slice 5 7 hex) = ofZ b.

(** [Array.prototype.sort] with a comparator: a stable sort. *)
Fixpoint sort_insert {A : Type} (cmp : A -> A -> Z) (x : A) (l : list A)
  : list A :=
  match l with
  | [] => [x]
  | y :: l' =>
      if (cmp x y <=? 0)%Z then x :: l else y :: sort_insert cmp x l'
  end.

Definition Array_sort {A : Type} (cmp : A -> A -> Z) (l : list A)
  : list A :=
  foldr (sort_insert cmp) [] l.

(** [a] may stand before [b] in an array sorted with [cmp]. *)
Definition before {A : Type} (cmp : A -> A -> Z) (a b : A) : Prop :=
  (cmp a b <= 0)%Z.

(** The comparator [(a, b) => b[1] - a[1]]. *)
Definition by_count (a b : string * Z) : Z := (snd b - snd a)%Z.

Definition sortedColors (colorCounts : list (string * Z)) : list string :=
  map fst (Array_sort by_count colorCounts).

Definition minDistance : num := 60.

Definition isDistinct (distinctColors : list string) (color : string) : bool :=
  forallb (fun existing => negb (lt (getColorDistance existing color)
                                    minDistance))
          distinctColors.

(** Two colours that the filter lets stand together. *)
Definition apart (c1 c2 : string) : Prop :=
  lt (getColorDistance c1 c2) minDistance = false.

(** The greedy selection over the colours sorted by frequency. *)
Fixpoint selectDistinct (count : num) (sorted : list string)
    (distinctColors : list string) : list string :=
  match sorted with
  | [] => distinctColors
  | color :: rest =>
      if ge (ofZ (Z.of_nat (length distinctColors))) count
      then distinctColors
      else selectDistinct count rest
             (if isDistinct distinctColors color
              then distinctColors ++ [color]
              else distinctColors)
  end.

(** [d] is the data of the 100 x 100 canvas the image was drawn on. *)
Definition extractDominantColors (d : list Z) (count : num) : list string :=
  selectDistinct count (sortedColors (histogram d)) [].

End Service.

(** ** The raster encoder *)

(** [for (let i = start; i < len; i++) body], run on at most [fuel]
    iterations; [len] iterations always suffice from [start = 0]. *)
Fixpoint for1 {St : Type} (fuel i len : nat) (body : nat -> St -> St) (s : St)
  : St :=
  match fuel with
  | O => s
  | S f => if (i <? len)%nat then for1 f (i + 1) len body (body i s) else s
  end.

(** [ctx.createImageData(width, height)]: transparent black. *)
Definition createImageData (width height : Z) : list Z :=
  new_array (Z.to_nat (width * height * 4)).

Definition createChannelImage_body (densityData : list Z) (i : nat)
    (d : list Z) : list Z :=
  let rC := 0%js in
  let gC := 0%js in
  let bC := 0%js in
  let density := get densityData i in
  let idx := (i * 4)%nat in
  set (set (set (set d idx rC) (idx + 1) gC) (idx + 2) bC) (idx + 3) density.

(** [createChannelImage]: the pixels that are handed to [toDataURL]; the
    PNG encoding itself is outside the model. *)
Definition createChannelImage (width height : Z) (densityData : list Z)
    (colorHex : string) : list Z :=
  for1 (length densityData) 0 (length densityData)
       (createChannelImage_body densityData) (createImageData width height).

Record ChannelResult : Type := {
  cr_name : string;
  cr_dataUrl : list Z;
  cr_colorHex : string
}.

Module SeparationMode.
Inductive t : Type := CMYK | SPOT.
End SeparationMode.

(** ** The results of the separators and the application handlers *)

Section Application.

Variable powQ : Q -> Q -> Q.
Variable sqrtQ : Q -> Q.

(** What [processWhiteBase], [processCMYK] and [processSpotColors] return:
    the named rasters built from their density arrays. *)
Definition whiteBaseResult (img : Image) (adjustments : ImageAdjustments)
    (userMask : option Image) : ChannelResult :=
  {| cr_name := "White Underbase";
     cr_colorHex := "#e2e8f0";
     cr_dataUrl :=
       createChannelImage (width img) (height img)
         (processWhiteBase powQ img adjustments userMask) "#e2e8f0" |}.

Definition cmykResults (img : Image) (adjustments : ImageAdjustments)
    (userMask : option Image) : list ChannelResult :=
  let s := processCMYK powQ img adjustments userMask in
  let w := width img in
  let h := height img in
  [ {| cr_name := "Cyan"; cr_colorHex := "#00FFFF";
       cr_dataUrl := createChannelImage w h (cArr s) "#00FFFF" |};
    {| cr_name := "Magenta"; cr_colorHex := "#FF00FF";
       cr_dataUrl := createChannelImage w h (mArr s) "#FF00FF" |};
    {| cr_name := "Yellow"; cr_colorHex := "#FFFF00";
       cr_dataUrl := createChannelImage w h (yArr s) "#FFFF00" |};
    {| cr_name := "Key (Black)"; cr_colorHex := "#000000";
       cr_dataUrl := createChannelImage w h (kArr s) "#000000" |} ].

Definition spotResults (img : Image) (spotColors : list SpotColor)
    (adjustments : ImageAdjustments) (userMask : option Image)
  : list ChannelResult :=
  let channels :=
    processSpotColors powQ sqrtQ img spotColors adjustments userMask in
  imap (fun idx t =>
          {| cr_name := name (t_spot t);
             cr_colorHex := color (t_spot t);
             cr_dataUrl :=
               createChannelImage (width img) (height img)
                 (default [] (channels !! idx)) (color (t_spot t)) |})
       (map mkTarget spotColors).

(** [handleProcess]: the colour channels of the chosen mode, with the
    white underbase put first when it is asked for. *)
Definition handleProcess (img : Image) (mode : SeparationMode.t)
    (spotColors : list SpotColor) (includeWhiteBase : bool)
    (adjustments : ImageAdjustments) (mask : option Image)
  : list ChannelResult :=
  let res :=
    match mode with
    | SeparationMode.CMYK => cmykResults img adjustments mask
    | SeparationMode.SPOT => spotResults img spotColors adjustments mask
    end in
  if includeWhiteBase
  then whiteBaseResult img adjustments mask :: res
  else res.

End Application.

(** [handleZoomIn], [handleZoomOut] and the zoom part of
    [handleResetView]. *)
Definition handleZoomIn (prev : num) : num := Math_min (prev + Fin 0.5) 4.
Definition handleZoomOut (prev : num) : num :=
  Math_max (prev - Fin 0.5) (Fin 0.5).
Definition handleResetView : num := 1%js.

Inductive ZoomAction : Type := ZoomIn | ZoomOut | ResetView.

Definition zoom_step (zoom : num) (a : ZoomAction) : num :=
  match a with
  | ZoomIn => handleZoomIn zoom
  | ZoomOut => handleZoomOut zoom
  | ResetView => handleResetView
  end.

(** [n.toString()] for a non-negative integer [n]. *)
Fixpoint dec_digits (fuel : nat) (n : Z) (acc : string) : string :=
  match fuel with
  | O => acc
  | S f =>
      let acc' := String (ascii_of_nat (Z.to_nat (48 + n mod 10))) acc in
      if n / 10 =? 0 then acc' else dec_digits f (n / 10) acc'
  end.

Definition toString10 (n : Z) : string :=
  dec_digits (S (Z.to_nat (Z.log2 n))) n EmptyString.

(** [handleAddColor] and [handleRemoveColor]; [now] is what
    [Date.now().toString()] gives. *)
Definition handleAddColor (now : string) (spotColors : list SpotColor)
    (hex : string) : list SpotColor :=
  let newColor :=
    {| id := now;
       name := "Цвет " ++ toString10 (Z.of_nat (length spotColors) + 1);
       color := hex;
       threshold := 50 |} in
  spotColors ++ [newColor].

Definition handleRemoveColor (spotColors : list SpotColor) (id0 : string)
  : list SpotColor :=
  List.filter (fun c => negb (String.eqb (id c) id0)) spotColors.

(** ** Stored bytes *)

(** [v] is an integer nearest to [x]. *)
Definition nearest (v : Z) (x : Q) : Prop :=
  (Qabs (inject_Z v - x) <= 1 # 2)%Q.

(** ** Shapes of the buffers *)

(** A density array: one byte for each whole pixel of the buffer. *)
Definition density_of (px : list Z) (c : list Z) : Prop :=
  length c = (length px / 4)%nat /\ is_bytes c.

(** One pixel of a channel raster: black, with the density as alpha. *)
Definition ink (density : Z) : list Z := [0; 0; 0; density].

(** The source image holds whole pixels, four bytes for each. *)
Definition whole_pixels (img : Image) : Prop :=
  Z.of_nat (length (data img)) = width img * height img * 4.

(** A check, run once over the bytes, that quantisation moves a channel by
    at most 12. *)
Definition near_check (b : Z) : bool :=
  match toZ (quantize (ofZ b)) with
  | Some l => Z.abs (l - b) <=? 12
  | None => false
  end.

(** ** Sample inputs *)

Module Samples.

(** A power function for settings whose gamma is 1, and an integer square
    root standing for [Math.sqrt]. *)
Definition pow0 : Q -> Q -> Q := fun _ _ => 0%Q.
Definition sqrt0 : Q -> Q := fun q => inject_Z (Z.sqrt (Qfloor q)).

Definition neutral : ImageAdjustments :=
  {| brightness := 0; contrast := 0; gamma := 1; removeBg := false;
     bgRemoveMode := white; customBgColor := "#000000"; bgThreshold := 20 |}.

(** One opaque grey pixel and a one-pixel mask marked both erase and keep. *)
Definition grey1 : Image :=
  {| width := 1; height := 1; data := [100; 100; 100; 255] |}.
Definition mask_both : Image :=
  {| width := 1; height := 1; data := [200; 200; 0; 255] |}.


Definition white1 : Image :=
  {| width := 1; height := 1; data := [255; 255; 255; 255] |}.

(** Automatic background removal at threshold 0 with brightness +50. *)
Definition auto50 : ImageAdjustments :=
  {| brightness := 50; contrast := 0; gamma := 1; removeBg := true;
     bgRemoveMode := auto; customBgColor := "#000000"; bgThreshold := 0 |}.

(** Removal of a black background at threshold 100. *)
Definition black100 : ImageAdjustments :=
  {| brightness := 0; contrast := 0; gamma := 1; removeBg := true;
     bgRemoveMode := black; customBgColor := "#000000"; bgThreshold := 100 |}.

(** Three whole pixels: black, white, black. *)
Definition two_tone : list Z :=
  [0; 0; 0; 255; 255; 255; 255; 255; 0; 0; 0; 255].

(** A mask two pixels wide, marked erase. *)
Definition mask_wide : Image :=
  {| width := 2; height := 1; data := [200; 0; 0; 255; 200; 0; 0; 255] |}.

(** Pixels for the separators: opaque black, opaque red, half-transparent
    green. *)
Definition three_px : list Z :=
  [0; 0; 0; 255; 255; 0; 0; 255; 0; 255; 0; 128].

Definition green_spot : SpotColor :=
  {| id := "1"; name := "green"; color := "#00ff00"; threshold := 50 |}.

(** A one-pixel mask marked keep, and one on which nothing was painted. *)
Definition mask_keep : Image :=
  {| width := 1; height := 1; data := [0; 200; 0; 255] |}.
Definition mask_blank : Image :=
  {| width := 1; height := 1; data := [0; 0; 0; 0] |}.

(** Removal of a white background at thresholds 0 and 20. *)
Definition white0 : ImageAdjustments :=
  {| brightness := 0; contrast := 0; gamma := 1; removeBg := true;
     bgRemoveMode := white; customBgColor := "#000000"; bgThreshold := 0 |}.
Definition white20 : ImageAdjustments :=
  {| brightness := 0; contrast := 0; gamma := 1; removeBg := true;
     bgRemoveMode := white; customBgColor := "#000000"; bgThreshold := 20 |}.

(** One transparent pixel. *)
Definition clear1 : list Z := [10; 20; 30; 0].

(** One opaque pixel whose luma lies halfway between two integers:
    255 minus it is 112.5. *)
Definition half1 : list Z := [0; 228; 76; 255].

(** The green spot colour at threshold 100, and a spot colour whose hex
    code does not parse. *)
Definition green_tight : SpotColor :=
  {| id := "2"; name := "green"; color := "#00ff00"; threshold := 100 |}.
Definition bad_spot : SpotColor :=
  {| id := "3"; name := "none"; color := "#zzzzzz"; threshold := 50 |}.

End Samples.

(** * Properties *)

(** ** Numbers and the byte conversion *)

Section NumFacts.

Lemma Qle_bool_inject (a b : Z) :
  Qle_bool (inject_Z a) (inject_Z b) = (a <=? b)%Z.
Proof.
  destruct (Z.leb_spec a b) as [H|H].
  - apply Qle_bool_iff. now rewrite <- Zle_Qle.
  - apply not_true_is_false. rewrite Qle_bool_iff, <- Zle_Qle. lia.
Qed.

Lemma Qltb_lt (a b : Q) : Qltb a b = true <-> (a < b)%Q.
Proof.
  unfold Qltb. rewrite negb_true_iff. split.
  - intros H. apply Qnot_le_lt. intros Hle.
    apply Qle_bool_iff in Hle. congruence.
  - intros H. apply not_true_is_false. rewrite Qle_bool_iff.
    now apply Qlt_not_le.
Qed.

Lemma Qltb_ge (a b : Q) : Qltb a b = false <-> (b <= a)%Q.
Proof.
  unfold Qltb. rewrite negb_false_iff. apply Qle_bool_iff.
Qed.

Lemma Qle_bool_false (a b : Q) : Qle_bool a b = false <-> (b < a)%Q.
Proof.
  split.
  - intros H. apply Qnot_le_lt. intros Hle.
    apply Qle_bool_iff in Hle. congruence.
  - intros H. apply not_true_is_false. rewrite Qle_bool_iff.
    now apply Qlt_not_le.
Qed.

(** Storing a byte read from a clamped array gives the byte back. *)
Lemma ToUint8Clamp_byte (b : Z) : 0 <= b <= 255 -> ToUint8Clamp (ofZ b) = b.
Proof.
  intros Hb. unfold ToUint8Clamp, ofZ.
  change 0%Q with (inject_Z 0). change 255%Q with (inject_Z 255).
  rewrite !Qle_bool_inject.
  destruct (Z.leb_spec b 0); [lia|].
  destruct (Z.leb_spec 255 b); [lia|].
  rewrite Qfloor_Z.
  assert (H1 : Qltb (inject_Z b + (1 # 2)) (inject_Z b) = false).
  { apply Qltb_ge. lra. }
  assert (H2 : Qltb (inject_Z b) (inject_Z b + (1 # 2)) = true).
  { apply Qltb_lt. lra. }
  now rewrite H1, H2.
Qed.

(** Whatever is stored in a clamped array is a byte. *)
Lemma ToUint8Clamp_range (x : num) : 0 <= ToUint8Clamp x <= 255.
Proof.
  destruct x as [| | |q]; simpl; try lia.
  destruct (Qle_bool q 0) eqn:H0; [lia|].
  destruct (Qle_bool 255 q) eqn:H255; [lia|].
  apply Qle_bool_false in H0, H255.
  assert (Hlo : 0 <= Qfloor q).
  { rewrite <- (Qfloor_Z 0). apply Qfloor_resp_le. now apply Qlt_le_weak. }
  assert (Hhi : Qfloor q < 255).
  { rewrite Zlt_Qlt. eapply Qle_lt_trans; [apply Qfloor_le|exact H255]. }
  destruct (Qltb _ q); [lia|].
  destruct (Qltb q _); [lia|].
  destruct (Z.even _); lia.
Qed.

Lemma Qeq_bool_false (a b : Q) : Qeq_bool a b = false <-> ~ (a == b)%Q.
Proof.
  split.
  - apply Qeq_bool_neq.
  - intros H. apply not_true_is_false. now rewrite Qeq_bool_iff.
Qed.

End NumFacts.

(** Case analysis on the rational comparisons of a goal. *)
Ltac qcases :=
  repeat match goal with
  | |- context [Qltb ?a ?b] =>
      let E := fresh "E" in
      destruct (Qltb a b) eqn:E;
      [apply Qltb_lt in E | apply Qltb_ge in E]
  | |- context [Qle_bool ?a ?b] =>
      let E := fresh "E" in
      destruct (Qle_bool a b) eqn:E;
      [apply Qle_bool_iff in E | apply Qle_bool_false in E]
  | |- context [Qeq_bool ?a ?b] =>
      let E := fresh "E" in
      destruct (Qeq_bool a b) eqn:E;
      [apply Qeq_bool_iff in E | apply Qeq_bool_false in E]
  end.


(** ** Loops over the pixels of an array *)

Section Loops.

Local Open Scope nat_scope.

Lemma length_set (d : list Z) (i : nat) (x : num) :
  length (set d i x) = length d.
Proof. apply length_insert. Qed.

Lemma lookup_set (d : list Z) (i j : nat) (x : num) :
  set d i x !! j =
  if decide (i = j /\ i < length d) then Some (ToUint8Clamp x) else d !! j.
Proof. apply list_lookup_insert. Qed.

Lemma get_ext (d d' : list Z) (i : nat) : d !! i = d' !! i -> get d i = get d' i.
Proof. unfold get. now intros ->. Qed.

(** A loop whose body rewrites the four bytes at its index in place, reading
    nothing else of the array. *)
Section InPlace.

Variable body : nat -> list Z -> list Z.
Hypothesis body_length : forall i d, length (body i d) = length d.
Hypothesis body_frame :
  forall i d j, j < i \/ i + 4 <= j -> body i d !! j = d !! j.
Hypothesis body_local :
  forall i d d' j,
    (forall c, c < 4 -> d !! (i + c) = d' !! (i + c)) ->
    i <= j < i + 4 -> body i d !! j = body i d' !! j.

Lemma for4_length (fuel i len : nat) (d : list Z) :
  length (for4 fuel i len body d) = length d.
Proof using body_length.
  revert i d. induction fuel as [|f IH]; intros i d; simpl; [done|].
  destruct (i <? len); [|done]. now rewrite IH, body_length.
Qed.

Lemma for4_below (fuel i len : nat) (d : list Z) (j : nat) :
  j < i -> for4 fuel i len body d !! j = d !! j.
Proof using body_frame.
  revert i d. induction fuel as [|f IH]; intros i d Hj; simpl; [done|].
  destruct (i <? len); [|done].
  rewrite IH by lia. apply body_frame. lia.
Qed.

(** The bytes of the [k]-th pixel met by the loop are those its own
    iteration writes, computed from the array as it was on entry. *)
Lemma for4_window (k fuel i len : nat) (d : list Z) (j : nat) :
  k < fuel -> i + 4 * k < len -> i + 4 * k <= j < i + 4 * k + 4 ->
  for4 fuel i len body d !! j = body (i + 4 * k) d !! j.
Proof using body_frame body_local.
  revert fuel i d. induction k as [|k IH]; intros fuel i d Hf Hlen Hj.
  - replace (i + 4 * 0) with i in * by lia.
    destruct fuel as [|f]; [lia|]. cbn [for4].
    destruct (Nat.ltb_spec i len); [|lia].
    apply for4_below. lia.
  - replace (i + 4 * S k) with (i + 4 + 4 * k) in * by lia.
    destruct fuel as [|f]; [lia|]. cbn [for4].
    destruct (Nat.ltb_spec i len); [|lia].
    rewrite IH by lia.
    apply body_local; [|lia].
    intros c Hc. apply body_frame. lia.
Qed.

End InPlace.

(** A projection of the state that commutes with the body commutes with
    the loop. *)
Lemma for4_proj {St T : Type} (proj : St -> T) (body : nat -> St -> St)
    (body' : nat -> T -> T) :
  (forall i s, proj (body i s) = body' i (proj s)) ->
  forall fuel i len s,
    proj (for4 fuel i len body s) = for4 fuel i len body' (proj s).
Proof.
  intros H. induction fuel as [|f IH]; intros i len s; simpl; [done|].
  destruct (i <? len); [|done]. now rewrite IH, H.
Qed.

Lemma for4_ext {St : Type} (body body' : nat -> St -> St) :
  (forall i s, body i s = body' i s) ->
  forall fuel i len s, for4 fuel i len body s = for4 fuel i len body' s.
Proof.
  intros H. induction fuel as [|f IH]; intros i len s; simpl; [done|].
  destruct (i <? len); [|done]. now rewrite IH, H.
Qed.

Lemma writes_lookup (w : nat -> option num) (q : nat) (c : list Z) (p : nat) :
  writes w (4 * q) c !! p =
  if decide (p = q)
  then match w (4 * q) with
       | Some v => (fun _ => ToUint8Clamp v) <$> c !! p
       | None => c !! p
       end
  else c !! p.
Proof.
  unfold writes. replace (4 * q / 4) with q
    by (symmetry; rewrite Nat.mul_comm; apply Nat.div_mul; lia).
  destruct (w (4 * q)) as [v|]; [|now destruct (decide _)].
  rewrite lookup_set. destruct (decide (p = q)) as [->|Hne].
  - destruct (decide _) as [[_ H]|H].
    + apply lookup_lt_is_Some_2 in H as [b ->]. done.
    + rewrite lookup_ge_None_2; [done|]. lia.
  - destruct (decide _) as [[? _]|_]; [lia|done].
Qed.

Lemma for4_writes (w : nat -> option num) (fuel q len : nat) (c : list Z)
    (p : nat) :
  for4 fuel (4 * q) len (writes w) c !! p =
  if decide (q <= p < q + fuel /\ 4 * p < len)
  then match w (4 * p) with
       | Some v => (fun _ => ToUint8Clamp v) <$> c !! p
       | None => c !! p
       end
  else c !! p.
Proof.
  revert q c. induction fuel as [|f IH]; intros q c.
  - simpl. destruct (decide _); [lia|done].
  - cbn [for4]. destruct (Nat.ltb_spec (4 * q) len) as [Hq|Hq].
    + replace (4 * q + 4) with (4 * S q) by lia. rewrite IH.
      rewrite writes_lookup.
      destruct (decide (p = q)) as [->|Hne].
      * destruct (decide (S q <= q < _ /\ _)); [lia|].
        destruct (decide _); [done|lia].
      * destruct (decide (S q <= p < _ /\ _)), (decide (q <= p < _ /\ _));
          try lia; try done.
        all: destruct (w (4 * p)); rewrite writes_lookup;
          destruct (decide (p = q)); done || lia.
    + destruct (decide _); [lia|done].
Qed.

(** The slot of a pixel after the whole loop, started on a fresh array. *)
Lemma for4_writes_new (w : nat -> option num) (len p : nat) :
  p < len / 4 ->
  for4 len 0 len (writes w) (new_array (len / 4)) !! p =
  Some (match w (4 * p) with
        | Some v => ToUint8Clamp v
        | None => 0%Z
        end).
Proof.
  intros Hp.
  assert (H4 : 4 * p < len).
  { pose proof (Nat.div_mod_eq len 4). lia. }
  change 0 with (4 * 0) at 1. rewrite for4_writes.
  unfold new_array. rewrite lookup_replicate_2 by done.
  destruct (decide _); [|lia]. now destruct (w (4 * p)).
Qed.

Lemma pixel_slot (len p : nat) : 4 * p + 3 < len -> p < len / 4.
Proof.
  intros H. pose proof (Nat.div_mod_eq len 4).
  pose proof (Nat.mod_upper_bound len 4). lia.
Qed.

End Loops.

(** ** Colours written in hexadecimal *)

Lemma hexval_facts (c : ascii) (d : Z) :
  hexval c = Some d ->
  0 <= d < 16 /\ is_space c = false /\ (c =? "-")%char = false
  /\ (c =? "+")%char = false /\ (c =? "x")%char = false
  /\ (c =? "X")%char = false.
Proof.
  destruct c as [[] [] [] [] [] [] [] []]; vm_compute;
    (discriminate || (intros [= <-]; repeat split; discriminate || reflexivity)).
Qed.

Lemma parseInt16_pair (c1 c2 : ascii) :
  is_hexdigit c1 = true -> is_hexdigit c2 = true ->
  exists r, parseInt16 (String c1 (String c2 EmptyString)) = ofZ r
            /\ 0 <= r <= 255.
Proof.
  unfold is_hexdigit. intros H1 H2.
  destruct (hexval c1) as [d1|] eqn:E1; [|discriminate].
  destruct (hexval c2) as [d2|] eqn:E2; [|discriminate].
  destruct (hexval_facts _ _ E1) as (R1 & S1 & M1 & P1 & _).
  destruct (hexval_facts _ _ E2) as (R2 & _ & _ & _ & X2 & X2').
  exists (16 * d1 + d2). split; [|lia].
  unfold parseInt16. cbn [skip_space]. rewrite S1, M1, P1. cbn [orb].
  unfold strip_0x. rewrite X2, X2'. rewrite andb_false_r.
  cbn [hex_prefix]. rewrite E1, E2. 
  f_equal. lia.
Qed.

Lemma is_hex_color_parse (s : string) :
  is_hex_color s = true ->
  exists r g b,
    parseInt16 (slice 1 3 s) = ofZ r /\ parseInt16 (slice 3 5 s) = ofZ g
    /\ parseInt16 (slice 5 7 s) = ofZ b
    /\ 0 <= r <= 255 /\ 0 <= g <= 255 /\ 0 <= b <= 255.
Proof.
  unfold is_hex_color.
  destruct s as [|c0 [|c1 [|c2 [|c3 [|c4 [|c5 [|c6 [|c7 s]]]]]]]];
    try discriminate.
  cbn [forallb]. rewrite !andb_true_iff.
  intros (_ & H1 & H2 & H3 & H4 & H5 & H6 & _).
  destruct (parseInt16_pair c1 c2 H1 H2) as (r & Hr & Rr).
  destruct (parseInt16_pair c3 c4 H3 H4) as (g & Hg & Rg).
  destruct (parseInt16_pair c5 c6 H5 H6) as (b & Hb & Rb).
  exists r, g, b. cbn [slice substring Nat.sub]. auto 10.
Qed.

Lemma inject_Z_byte (b : Z) :
  0 <= b <= 255 -> (0 <= inject_Z b <= 255)%Q.
Proof.
  intros [H1 H2]. split.
  - change 0%Q with (inject_Z 0). now rewrite <- Zle_Qle.
  - change 255%Q with (inject_Z 255). now rewrite <- Zle_Qle.
Qed.

Lemma sq_diff_bound (a b : Q) :
  (0 <= a <= 255)%Q -> (0 <= b <= 255)%Q ->
  ((a + - b) * (a + - b) <= 65025)%Q.
Proof. intros Ha Hb. nra. Qed.

(** ** Clamping to 0..255 *)

Lemma clamp255_clamped (x : num) : clamped (clamp255 x).
Proof.
  destruct x as [| | |q]; try (vm_compute; intuition discriminate).
  unfold clamp255, Math_min, Math_max, lt. simpl.
  change (inject_Z 255) with 255%Q. change (inject_Z 0) with 0%Q.
  destruct (Qltb q 255) eqn:E1; [apply Qltb_lt in E1|apply Qltb_ge in E1].
  - destruct (Qltb 0 q) eqn:E2; [apply Qltb_lt in E2|apply Qltb_ge in E2];
      simpl.
    + lra.
    + vm_compute. intuition discriminate.
  - vm_compute. intuition discriminate.
Qed.

Lemma clamp255_Fin (q : Q) :
  exists q', clamp255 (Fin q) = Fin q' /\ (0 <= q' <= 255)%Q.
Proof.
  unfold clamp255, Math_min, Math_max, lt. simpl.
  change (inject_Z 255) with 255%Q. change (inject_Z 0) with 0%Q.
  destruct (Qltb q 255) eqn:E1; [apply Qltb_lt in E1|apply Qltb_ge in E1].
  - destruct (Qltb 0 q) eqn:E2; [apply Qltb_lt in E2|apply Qltb_ge in E2].
    + exists q. split; [reflexivity|lra].
    + exists 0%Q. split; [reflexivity|lra].
  - exists 255%Q. split; [reflexivity|lra].
Qed.


(** ** The adjustment, background-removal and mask stage *)

Section Attributes.

Variable powQ : Q -> Q -> Q.

Local Open Scope nat_scope.

Abbreviation tone := (tone powQ).
Abbreviation stored := (stored powQ).
Abbreviation applyAttributes_body := (applyAttributes_body powQ).
Abbreviation applyAttributes := (applyAttributes powQ).

Lemma lookup_set_same (d : list Z) (i : nat) (x : num) :
  set d i x !! i = (fun _ => ToUint8Clamp x) <$> d !! i.
Proof.
  rewrite lookup_set. destruct (decide _) as [[_ H]|H].
  - apply lookup_lt_is_Some_2 in H as [b ->]. done.
  - rewrite lookup_ge_None_2; [done|]. lia.
Qed.

Lemma lookup_set_other (d : list Z) (i j : nat) (x : num) :
  i <> j -> set d i x !! j = d !! j.
Proof. intros H. rewrite lookup_set. destruct (decide _); [lia|done]. Qed.

Section Body.

Variables (adj : ImageAdjustments) (maskData : option (list Z)).
Variables (target : num * num * num) (tolSq : num).

Lemma body_length (i : nat) (d : list Z) :
  length (applyAttributes_body adj maskData target tolSq i d) = length d.
Proof. unfold applyAttributes_body. now rewrite !length_set. Qed.

Lemma body_frame (i : nat) (d : list Z) (j : nat) :
  j < i \/ i + 4 <= j ->
  applyAttributes_body adj maskData target tolSq i d !! j = d !! j.
Proof.
  intros H. unfold applyAttributes_body.
  rewrite !lookup_set_other by lia. done.
Qed.

Lemma body_lookup (i : nat) (d : list Z) (c : nat) :
  c < 4 ->
  applyAttributes_body adj maskData target tolSq i d !! (i + c) =
  (fun _ => ToUint8Clamp (stored adj maskData target tolSq d i c))
    <$> d !! (i + c).
Proof.
  intros Hc. unfold applyAttributes_body, stored.
  destruct c as [|[|[|[|c]]]]; [rewrite Nat.add_0_r| | | |lia];
    repeat first [rewrite lookup_set_other by lia | rewrite lookup_set_same];
    done.
Qed.

Lemma stored_local (i : nat) (d d' : list Z) (c : nat) :
  (forall c, c < 4 -> d !! (i + c) = d' !! (i + c)) ->
  stored adj maskData target tolSq d i c =
  stored adj maskData target tolSq d' i c.
Proof.
  intros H. unfold stored.
  assert (E0 : get d i = get d' i).
  { apply get_ext. specialize (H 0). rewrite Nat.add_0_r in H. apply H. lia. }
  assert (E1 : get d (i + 1) = get d' (i + 1)) by (apply get_ext, H; lia).
  assert (E2 : get d (i + 2) = get d' (i + 2)) by (apply get_ext, H; lia).
  assert (E3 : get d (i + 3) = get d' (i + 3)) by (apply get_ext, H; lia).
  now rewrite E0, E1, E2, E3.
Qed.

Lemma body_local (i : nat) (d d' : list Z) (j : nat) :
  (forall c, c < 4 -> d !! (i + c) = d' !! (i + c)) ->
  i <= j < i + 4 ->
  applyAttributes_body adj maskData target tolSq i d !! j =
  applyAttributes_body adj maskData target tolSq i d' !! j.
Proof.
  intros H Hj. replace j with (i + (j - i)) by lia.
  rewrite !body_lookup by lia.
  rewrite (stored_local i d d') by done.
  rewrite H by lia. done.
Qed.

End Body.

(** Every byte of the result is the one its pixel's own iteration stores,
    computed from the source pixel: rewriting the array in place does not
    disturb the pixels still to come. *)
Lemma applyAttributes_lookup (img : Image) (adj : ImageAdjustments)
    (userMask : option Image) (p c : nat) :
  c < 4 ->
  applyAttributes img adj userMask !! (4 * p + c) =
  (fun _ => ToUint8Clamp
              (stored adj (maskDataOf img userMask)
                      (bgTarget adj (data img)) (toleranceSq adj)
                      (data img) (4 * p) c))
    <$> data img !! (4 * p + c).
Proof.
  intros Hc. unfold applyAttributes.
  destruct (Nat.lt_ge_cases (4 * p) (length (data img))) as [Hp|Hp].
  - rewrite (for4_window _ (body_frame _ _ _ _) (body_local _ _ _ _)
               p (length (data img)) 0)
      by (simpl; lia).
    simpl. apply body_lookup. done.
  - rewrite (lookup_ge_None_2 (data img)) by lia.
    apply lookup_ge_None_2.
    rewrite (for4_length _ (body_length _ _ _ _)). lia.
Qed.

Lemma applyAttributes_length (img : Image) (adj : ImageAdjustments)
    (userMask : option Image) :
  length (applyAttributes img adj userMask) = length (data img).
Proof. apply (for4_length _ (body_length _ _ _ _)). Qed.

(** *** Mask precedence and the alpha channel *)

Lemma lt_ofZ (a b : Z) : lt (ofZ a) (ofZ b) = (a <? b)%Z.
Proof.
  unfold lt, ofZ, Qltb. rewrite Qle_bool_inject.
  destruct (Z.leb_spec b a), (Z.ltb_spec a b); simpl; lia || done.
Qed.

Lemma get_Some (d : list Z) (i : nat) (b : Z) : d !! i = Some b -> get d i = ofZ b.
Proof. unfold get. now intros ->. Qed.

Lemma maskDataOf_match (img mask : Image) :
  width mask = width img -> height mask = height img ->
  maskDataOf img (Some mask) = Some (data mask).
Proof.
  intros Hw Hh. unfold maskDataOf. rewrite Hw, Hh, !Z.eqb_refl. done.
Qed.

Lemma maskDataOf_mismatch (img mask : Image) :
  width mask <> width img \/ height mask <> height img ->
  maskDataOf img (Some mask) = None.
Proof.
  intros H. unfold maskDataOf.
  destruct (Z.eqb_spec (width mask) (width img)),
    (Z.eqb_spec (height mask) (height img)); simpl; try done.
  destruct H; done.
Qed.

(** A red mask value above 10 erases the pixel, whatever the green value
    and the settings are. *)
Lemma forceRemove_alpha (adj : ImageAdjustments) (maskData : option (list Z))
    (target : num * num * num) (tolSq : num) (i : nat) (r g b a : num) :
  forceRemove maskData i = true ->
  alpha_rule adj maskData target tolSq i r g b a = 0%js.
Proof.
  intros H. unfold alpha_rule. destruct target as [[tr tg] tb].
  now rewrite H.
Qed.

(** The alpha rule keeps the alpha or sets it to zero. *)
Lemma alpha_rule_cases (adj : ImageAdjustments) (maskData : option (list Z))
    (target : num * num * num) (tolSq : num) (i : nat) (r g b a : num) :
  alpha_rule adj maskData target tolSq i r g b a = 0%js \/
  alpha_rule adj maskData target tolSq i r g b a = a.
Proof.
  unfold alpha_rule. destruct target as [[tr tg] tb].
  destruct (forceRemove maskData i); [now left|].
  destruct (forceKeep maskData i); [now right|].
  destruct (removeBg adj); [|now right].
  destruct (bgRemoveMode adj);
    match goal with |- context [if ?c then _ else _] => destruct c end;
    auto.
Qed.

Lemma applyAttributes_alpha (img : Image) (adj : ImageAdjustments)
    (userMask : option Image) (p : nat) (a : Z) :
  data img !! (4 * p + 3) = Some a ->
  applyAttributes img adj userMask !! (4 * p + 3) =
  Some (ToUint8Clamp
          (alpha_rule adj (maskDataOf img userMask) (bgTarget adj (data img))
             (toleranceSq adj) (4 * p)
             (tone adj (get (data img) (4 * p)))
             (tone adj (get (data img) (4 * p + 1)))
             (tone adj (get (data img) (4 * p + 2)))
             (ofZ a))).
Proof.
  intros Ha. rewrite applyAttributes_lookup by lia. rewrite Ha.
  unfold stored. rewrite (get_Some _ _ _ Ha). reflexivity.
Qed.

(** C3. A pixel whose mask has both red above 10 and green above 10 comes
    out with alpha 0, for all settings: erasing takes precedence over
    keeping.  The mask is one the stage uses, that is, of the size of the
    source. *)
Theorem erase_precedes_keep (img : Image) (adj : ImageAdjustments)
    (mask : Image) (p : nat) (mr mg a : Z) :
  width mask = width img -> height mask = height img ->
  data mask !! (4 * p) = Some mr ->
  data mask !! (4 * p + 1) = Some mg ->
  (10 < mr)%Z -> (10 < mg)%Z ->
  data img !! (4 * p + 3) = Some a ->
  applyAttributes img adj (Some mask) !! (4 * p + 3) = Some 0%Z.
Proof.
  intros Hw Hh Hr Hg Hmr Hmg Ha.
  rewrite (applyAttributes_alpha _ _ _ _ _ Ha).
  rewrite forceRemove_alpha; [done|].
  rewrite maskDataOf_match by done. unfold forceRemove, gt.
  rewrite (get_Some _ _ _ Hr). change 10%js with (ofZ 10).
  rewrite lt_ofZ. now apply Z.ltb_lt.
Qed.

(** C4. For every image, settings and optional mask, the alpha of every
    pixel of the result is at most the alpha the pixel had in the source. *)
Theorem alpha_never_increases (img : Image) (adj : ImageAdjustments)
    (userMask : option Image) (p : nat) (a : Z) :
  is_bytes (data img) ->
  data img !! (4 * p + 3) = Some a ->
  exists a' : Z,
    applyAttributes img adj userMask !! (4 * p + 3) = Some a' /\ (a' <= a)%Z.
Proof.
  intros Hb Ha.
  assert (Hr : (0 <= a <= 255)%Z).
  { unfold is_bytes in Hb. rewrite Forall_lookup in Hb. exact (Hb _ _ Ha). }
  eexists. split; [apply (applyAttributes_alpha _ _ _ _ _ Ha)|].
  destruct (alpha_rule_cases adj (maskDataOf img userMask)
              (bgTarget adj (data img)) (toleranceSq adj) (4 * p)
              (tone adj (get (data img) (4 * p)))
              (tone adj (get (data img) (4 * p + 1)))
              (tone adj (get (data img) (4 * p + 2))) (ofZ a)) as [-> | ->].
  - change 0%js with (ofZ 0). rewrite ToUint8Clamp_byte; lia.
  - rewrite ToUint8Clamp_byte; lia.
Qed.

(** *** The tone stages *)



(** *** The background target *)


(** *** Threshold 100 *)

Lemma Math_pow_Fin (b e : Q) :
  (0 <= b)%Q -> (0 < e)%Q -> exists q, Math_pow powQ (Fin b) (Fin e) = Fin q.
Proof.
  intros Hb He. unfold Math_pow.
  destruct (Qeq_bool e 0); [eauto|].
  destruct (Qeq_bool b 0).
  - assert (E : Qltb 0 e = true) by now apply Qltb_lt.
    rewrite E. eauto.
  - destruct (is_int e); [eauto|].
    assert (E : Qltb b 0 = false) by now apply Qltb_ge.
    rewrite E. eauto.
Qed.

Lemma tone_byte (adj : ImageAdjustments) (x : Z) :
  in_range adj ->
  exists q, tone adj (ofZ x) = Fin q /\ (0 <= q <= 255)%Q.
Proof.
  intros [Hb Hc Hg _]. unfold tone.
  assert (Hn : exists y,
             gamma_step powQ adj
               (contrast_step adj (brightness_step adj (ofZ x))) = Fin y).
  { unfold brightness_step, contrast_step, contrastFactor, gamma_step.
    destruct (brightness adj) as [| | |β]; try done.
    destruct (contrast adj) as [| | |κ]; try done.
    destruct (gamma adj) as [| | |γ]; try done.
    simpl in Hb, Hc, Hg.
    cbn [ofZ add sub mul div neg].
    destruct (Qeq_bool (255 * (259 + - κ)) 0) eqn:E;
      [apply Qeq_bool_iff in E; lra|].
    cbn [mul add ofZ].
    match goal with |- context [sneq ?a ?b] => destruct (sneq a b) end;
      [|eauto].
    destruct (Qeq_bool γ 0) eqn:E0; [apply Qeq_bool_iff in E0; lra|].
    match goal with |- context [clamp255 (Fin ?c)] =>
      destruct (clamp255_Fin c) as (c' & -> & Hc')
    end.
    cbn [div].
    match goal with |- context [Qeq_bool ?a 0] =>
      change (Qeq_bool a 0) with false
    end.
    cbn iota.
    match goal with |- context [Math_pow powQ (Fin ?b) (Fin ?e)] =>
      destruct (Math_pow_Fin b e) as [y ->]
    end.
    - apply Qle_shift_div_l; [reflexivity|lra].
    - apply Qlt_shift_div_l; lra.
    - eauto. }
  destruct Hn as [y ->]. apply clamp255_Fin.
Qed.

Lemma bgTarget_bytes (adj : ImageAdjustments) (d : list Z) :
  removeBg adj = true ->
  bgRemoveMode adj <> white ->
  (bgRemoveMode adj = custom -> is_hex_color (customBgColor adj) = true) ->
  is_bytes d -> (2 < length d)%nat ->
  exists tr tg tb,
    bgTarget adj d = (Fin tr, Fin tg, Fin tb)
    /\ (0 <= tr <= 255)%Q /\ (0 <= tg <= 255)%Q /\ (0 <= tb <= 255)%Q.
Proof.
  intros Hr Hm Hc Hd Hl. unfold bgTarget. rewrite Hr.
  destruct (bgRemoveMode adj); [done| | |].
  - exists 0%Q, 0%Q, 0%Q. repeat split; reflexivity || lra.
  - destruct (is_hex_color_parse _ (Hc eq_refl))
      as (r & g & b & -> & -> & -> & Rr & Rg & Rb).
    exists (inject_Z r), (inject_Z g), (inject_Z b).
    split; [reflexivity|split; [|split]]; now apply inject_Z_byte.
  - unfold is_bytes in Hd. rewrite Forall_lookup in Hd.
    destruct (lookup_lt_is_Some_2 d 0) as [b0 H0]; [lia|].
    destruct (lookup_lt_is_Some_2 d 1) as [b1 H1]; [lia|].
    destruct (lookup_lt_is_Some_2 d 2) as [b2 H2]; [lia|].
    rewrite (get_Some _ _ _ H0), (get_Some _ _ _ H1), (get_Some _ _ _ H2).
    exists (inject_Z b0), (inject_Z b1), (inject_Z b2).
    split; [reflexivity|split; [|split]]; apply inject_Z_byte; eauto.
Qed.

Lemma toleranceSq_100 (adj : ImageAdjustments) :
  num_eq (bgThreshold adj) 100 ->
  exists t, toleranceSq adj = Fin t /\ (t == 195364)%Q.
Proof.
  unfold toleranceSq. destruct (bgThreshold adj) as [| | |t]; try done.
  cbn [num_eq ofZ]. intros Ht. cbn [div mul ofZ].
  match goal with |- context [Qeq_bool ?a 0] =>
    change (Qeq_bool a 0) with false
  end.
  cbn iota. eexists. split; [reflexivity|]. rewrite Ht. reflexivity.
Qed.

(** C10. With background removal on, the mode black, custom or auto and
    the threshold at 100, every pixel that the mask does not keep comes out
    with alpha 0: the squared tolerance 442^2 = 195364 exceeds the largest
    squared distance 3 * 255^2 = 195075 between two colours within 0..255.
    The settings are within their documented ranges and a custom colour is
    written [#rrggbb]. *)
Theorem threshold_100_erases (img : Image) (adj : ImageAdjustments)
    (userMask : option Image) (p : nat) :
  in_range adj ->
  removeBg adj = true ->
  bgRemoveMode adj <> white ->
  num_eq (bgThreshold adj) 100 ->
  (bgRemoveMode adj = custom -> is_hex_color (customBgColor adj) = true) ->
  is_bytes (data img) ->
  (4 * p + 3 < length (data img))%nat ->
  forceKeep (maskDataOf img userMask) (4 * p) = false ->
  applyAttributes img adj userMask !! (4 * p + 3) = Some 0%Z.
Proof.
  intros Hin Hr Hm Ht Hc Hd Hl Hk.
  destruct (lookup_lt_is_Some_2 (data img) (4 * p + 3)) as [a Ha]; [lia|].
  destruct (lookup_lt_is_Some_2 (data img) (4 * p)) as [x0 H0]; [lia|].
  destruct (lookup_lt_is_Some_2 (data img) (4 * p + 1)) as [x1 H1]; [lia|].
  destruct (lookup_lt_is_Some_2 (data img) (4 * p + 2)) as [x2 H2]; [lia|].
  rewrite (applyAttributes_alpha _ _ _ _ _ Ha).
  rewrite (get_Some _ _ _ H0), (get_Some _ _ _ H1), (get_Some _ _ _ H2).
  destruct (tone_byte adj x0 Hin) as (r & -> & Rr).
  destruct (tone_byte adj x1 Hin) as (g & -> & Rg).
  destruct (tone_byte adj x2 Hin) as (b & -> & Rb).
  destruct (bgTarget_bytes adj (data img) Hr Hm Hc Hd)
    as (tr & tg & tb & -> & Tr & Tg & Tb); [lia|].
  destruct (toleranceSq_100 adj Ht) as (t & -> & Et).
  unfold alpha_rule. rewrite Hk, Hr.
  assert (Hle : le ((Fin r - Fin tr) * (Fin r - Fin tr)
                    + (Fin g - Fin tg) * (Fin g - Fin tg)
                    + (Fin b - Fin tb) * (Fin b - Fin tb))%js (Fin t) = true).
  { cbn [sub add mul neg le]. apply Qle_bool_iff. rewrite Et.
    pose proof (sq_diff_bound r tr Rr Tr).
    pose proof (sq_diff_bound g tg Rg Tg).
    pose proof (sq_diff_bound b tb Rb Tb). lra. }
  destruct (forceRemove _ _); [reflexivity|].
  destruct (bgRemoveMode adj); [done| | |]; now rewrite Hle.
Qed.

End Attributes.

(** ** The channel separators *)

Section Separators.

Local Open Scope nat_scope.

(** *** White underbase *)

Lemma scanTransparency_true (fuel i : nat) (px : list Z) :
  scanTransparency fuel i px = true <->
  exists k, k < fuel /\ i + 4 * k < length px
            /\ lt (get px (i + 4 * k + 3)) 250 = true.
Proof.
  revert i. induction fuel as [|f IH]; intros i; cbn [scanTransparency].
  - split; [discriminate|]. intros (k & Hk & _). lia.
  - destruct (Nat.ltb_spec i (length px)) as [Hi|Hi].
    + destruct (lt (get px (i + 3)) 250) eqn:E.
      * split; [intros _|done]. exists 0.
        replace (i + 4 * 0) with i by lia. repeat split; lia || done.
      * rewrite IH. split.
        -- intros (k & Hk & Hl & Ht). exists (S k).
           replace (i + 4 * S k) with (i + 4 + 4 * k) by lia.
           repeat split; lia || done.
        -- intros (k & Hk & Hl & Ht). destruct k as [|k].
           ++ replace (i + 4 * 0) with i in Ht by lia. congruence.
           ++ exists k.
              replace (i + 4 * S k) with (i + 4 + 4 * k) in * by lia.
              repeat split; lia || done.
    + split; [discriminate|]. intros (k & Hk & Hl & _). lia.
Qed.

(** The scan finds a pixel exactly when some pixel has alpha below 250. *)
Lemma hasTransparency_iff (px : list Z) :
  scanTransparency (length px) 0 px = true <->
  exists (q : nat) (a : Z), px !! (4 * q + 3) = Some a /\ (a < 250)%Z.
Proof.
  rewrite scanTransparency_true. split.
  - intros (k & Hk & Hl & Ht). change (0 + 4 * k) with (4 * k) in Ht.
    exists k. unfold get in Ht.
    destruct (px !! (4 * k + 3)) as [a|] eqn:E; [|discriminate].
    exists a. split; [done|]. change 250%js with (ofZ 250) in Ht.
    rewrite lt_ofZ in Ht. now apply Z.ltb_lt.
  - intros (q & a & Ha & Hlt). exists q.
    pose proof (lookup_lt_Some _ _ _ Ha).
    change (0 + 4 * q) with (4 * q).
    repeat split; try lia.
    rewrite (get_Some _ _ _ Ha). change 250%js with (ofZ 250).
    rewrite lt_ofZ. now apply Z.ltb_lt.
Qed.

Lemma whiteBase_lookup (px : list Z) (p : nat) :
  p < length px / 4 ->
  whiteBase px !! p =
  Some (ToUint8Clamp
          (if scanTransparency (length px) 0 px
           then get px (4 * p + 3)
           else 255 - (Fin 0.299 * get px (4 * p)
                       + Fin 0.587 * get px (4 * p + 1)
                       + Fin 0.114 * get px (4 * p + 2)))%js).
Proof.
  intros Hp. unfold whiteBase.
  rewrite (for4_ext _ (writes (fun i =>
             Some (if scanTransparency (length px) 0 px
                   then get px (i + 3)
                   else 255 - (Fin 0.299 * get px i
                               + Fin 0.587 * get px (i + 1)
                               + Fin 0.114 * get px (i + 2)))%js)))
    by reflexivity.
  now rewrite for4_writes_new.
Qed.

Lemma ToUint8Clamp_nearest (q : Q) :
  (0 <= q <= 255)%Q -> nearest (ToUint8Clamp (Fin q)) q.
Proof.
  intros [H0 H255]. unfold nearest. apply Qabs_Qle_condition.
  unfold ToUint8Clamp.
  destruct (Qle_bool q 0) eqn:E0.
  { apply Qle_bool_iff in E0. change (inject_Z 0) with 0%Q. lra. }
  destruct (Qle_bool 255 q) eqn:E1.
  { apply Qle_bool_iff in E1. change (inject_Z 255) with 255%Q. lra. }
  cbv zeta.
  pose proof (Qfloor_le q) as Hf. pose proof (Qlt_floor q) as Hc.
  rewrite inject_Z_plus in Hc. change (inject_Z 1) with 1%Q in Hc.
  qcases; [| |destruct (Z.even _)];
    rewrite ?inject_Z_plus; change (inject_Z 1) with 1%Q; lra.
Qed.

Lemma nearest_proper (v : Z) (q q' : Q) :
  (q == q')%Q -> nearest v q -> nearest v q'.
Proof. unfold nearest. now intros ->. Qed.

(** C7. The white underbase decides once for the whole buffer: when some
    pixel has alpha below 250 the density of every pixel is its alpha;
    otherwise the density of every pixel is 255 minus its luma
    0.299 R + 0.587 G + 0.114 B, stored as a byte: an integer nearest to
    that number.  Where the number lies halfway between two integers the
    statement leaves open which of the two is stored; the rounding of the
    luma to binary64 decides it. *)
Theorem whiteBase_global_decision (px : list Z) (p : nat) (r g b a : Z) :
  is_bytes px ->
  px !! (4 * p) = Some r -> px !! (4 * p + 1) = Some g ->
  px !! (4 * p + 2) = Some b -> px !! (4 * p + 3) = Some a ->
  ((exists (q : nat) (a' : Z), px !! (4 * q + 3) = Some a' /\ (a' < 250)%Z) ->
   whiteBase px !! p = Some a)
  /\ ((forall (q : nat) (a' : Z), px !! (4 * q + 3) = Some a' -> (250 <= a')%Z) ->
      exists v : Z,
        whiteBase px !! p = Some v
        /\ nearest v (255 - (0.299 * inject_Z r + 0.587 * inject_Z g
                             + 0.114 * inject_Z b))%Q).
Proof.
  intros Hb Hr Hg Hbl Ha.
  assert (Hp : p < length px / 4).
  { apply pixel_slot. now apply lookup_lt_Some in Ha. }
  rewrite whiteBase_lookup by done.
  rewrite (get_Some _ _ _ Hr), (get_Some _ _ _ Hg), (get_Some _ _ _ Hbl),
    (get_Some _ _ _ Ha).
  unfold is_bytes in Hb. rewrite Forall_lookup in Hb.
  split.
  - intros Hex. apply hasTransparency_iff in Hex. rewrite Hex.
    rewrite ToUint8Clamp_byte; [done|]. exact (Hb _ _ Ha).
  - intros Hall.
    destruct (scanTransparency (length px) 0 px) eqn:E.
    { apply hasTransparency_iff in E as (q & a' & Hq & Hlt).
      specialize (Hall _ _ Hq). lia. }
    eexists. split; [reflexivity|].
    cbn [ofZ add sub mul neg].
    pose proof (inject_Z_byte r (Hb _ _ Hr)) as Rr.
    pose proof (inject_Z_byte g (Hb _ _ Hg)) as Rg.
    pose proof (inject_Z_byte b (Hb _ _ Hbl)) as Rb.
    eapply nearest_proper; [|apply ToUint8Clamp_nearest; lra].
    unfold Qminus. reflexivity.
Qed.

(** *** CMYK *)

Lemma cmyk_lookup (px : list Z) (p : nat) :
  p < length px / 4 ->
  let v := cmyk_values px (4 * p) in
  let density sel :=
    Some (match v with Some x => ToUint8Clamp (sel x) | None => 0%Z end) in
  cArr (cmyk px) !! p = density sel_c
  /\ mArr (cmyk px) !! p = density sel_m
  /\ yArr (cmyk px) !! p = density sel_y
  /\ kArr (cmyk px) !! p = density sel_k.
Proof.
  intros Hp. unfold cmyk. cbv zeta.
  assert (H : forall (proj : CMYK -> list Z) sel,
             (forall i s, proj (cmyk_body px i s) =
                          writes (fun i => sel <$> cmyk_values px i) i (proj s)) ->
             proj {| cArr := new_array (length px / 4);
                     mArr := new_array (length px / 4);
                     yArr := new_array (length px / 4);
                     kArr := new_array (length px / 4) |}
             = new_array (length px / 4) ->
             proj (for4 (length px) 0 (length px) (cmyk_body px)
                     {| cArr := new_array (length px / 4);
                        mArr := new_array (length px / 4);
                        yArr := new_array (length px / 4);
                        kArr := new_array (length px / 4) |}) !! p =
             Some (match cmyk_values px (4 * p) with
                   | Some x => ToUint8Clamp (sel x)
                   | None => 0%Z
                   end)).
  { intros proj sel Hproj Hinit.
    rewrite (for4_proj proj _ _ Hproj), Hinit.
    rewrite for4_writes_new by done.
    now destruct (cmyk_values px (4 * p)). }
  repeat split; apply H; try reflexivity;
    intros i s; unfold cmyk_body, writes;
    destruct (cmyk_values px i) as [[[[c m] y] k]|]; reflexivity.
Qed.

(** C5. An opaque black pixel gets the densities Cyan 0, Magenta 0,
    Yellow 0 and Key 255: at k = 1 the quotient by 1 - k is 0/0, which is
    [NaN], and [|| 0] replaces it by 0. *)
Theorem cmyk_opaque_black (px : list Z) (p : nat) :
  px !! (4 * p) = Some 0%Z -> px !! (4 * p + 1) = Some 0%Z ->
  px !! (4 * p + 2) = Some 0%Z -> px !! (4 * p + 3) = Some 255%Z ->
  cArr (cmyk px) !! p = Some 0%Z
  /\ mArr (cmyk px) !! p = Some 0%Z
  /\ yArr (cmyk px) !! p = Some 0%Z
  /\ kArr (cmyk px) !! p = Some 255%Z
  /\ ((1 - 0 - 1) / (1 - 1))%js = NaN
  /\ (NaN || 0)%js = 0%js.
Proof.
  intros Hr Hg Hb Ha.
  assert (Hp : p < length px / 4).
  { apply pixel_slot. now apply lookup_lt_Some in Ha. }
  destruct (cmyk_lookup px p Hp) as (Hc & Hm & Hy & Hk).
  rewrite Hc, Hm, Hy, Hk. unfold cmyk_values.
  rewrite (get_Some _ _ _ Hr), (get_Some _ _ _ Hg), (get_Some _ _ _ Hb),
    (get_Some _ _ _ Ha).
  repeat split; vm_compute; reflexivity.
Qed.

End Separators.

(** ** Spot colours *)

Section Spot.

Variable powQ : Q -> Q -> Q.
Variable sqrtQ : Q -> Q.

Local Open Scope nat_scope.

Lemma forEach_from_update {A : Type} (g : A -> list Z -> list Z) (l : list A)
    (k : nat) (chs : list (list Z)) (j : nat) :
  forEach_from k l
    (fun t idx chs =>
       match chs !! idx with
       | Some ch => <[ idx := g t ch ]> chs
       | None => chs
       end) chs !! j =
  match l !! (j - k) with
  | Some t => if decide (k <= j) then g t <$> chs !! j else chs !! j
  | None => chs !! j
  end.
Proof.
  revert k chs. induction l as [|t l IH]; intros k chs; cbn [forEach_from].
  - done.
  - rewrite IH.
    assert (H1 : forall j', j' <> k ->
              match chs !! k with
              | Some ch => <[ k := g t ch ]> chs
              | None => chs
              end !! j' = chs !! j').
    { intros j' Hne. destruct (chs !! k); [|done].
      now rewrite list_lookup_insert_ne. }
    assert (H2 : match chs !! k with
                 | Some ch => <[ k := g t ch ]> chs
                 | None => chs
                 end !! k = g t <$> chs !! k).
    { destruct (chs !! k) as [ch|] eqn:E; [|now rewrite E].
      rewrite list_lookup_insert_eq; [done|]. now apply lookup_lt_Some in E. }
    destruct (Nat.lt_trichotomy j k) as [Hlt|[->|Hgt]].
    + replace (j - S k) with 0 by lia. replace (j - k) with 0 by lia.
      cbn [lookup list_lookup]. destruct (decide (k <= j)); [lia|].
      destruct (l !! 0); [destruct (decide _); [lia|]|]; apply H1; lia.
    + replace (k - S k) with 0 by lia. replace (k - k) with 0 by lia.
      cbn [lookup list_lookup]. destruct (decide (k <= k)); [|lia].
      destruct (l !! 0); [destruct (decide _); [lia|]|]; apply H2.
    + replace (j - k) with (S (j - S k)) by lia.
      cbn [lookup list_lookup].
      destruct (l !! (j - S k)); [|apply H1; lia].
      destruct (decide (S k <= j)), (decide (k <= j)); try lia.
      rewrite H1 by lia. done.
Qed.

Lemma spot_body_lookup (px : list Z) (targets : list Target) (i idx : nat)
    (target : Target) (channels : list (list Z)) :
  targets !! idx = Some target ->
  spot_body powQ sqrtQ px targets i channels !! idx =
  writes (spot_value powQ sqrtQ target px) i <$> channels !! idx.
Proof.
  intros Ht. unfold spot_body, spot_value, writes.
  destruct (seq _ _).
  - now destruct (channels !! idx).
  - unfold forEach.
    rewrite (forEach_from_update
               (fun t ch =>
                  set ch (i / 4)
                    (similarity powQ sqrtQ t (get px i) (get px (i + 1))
                       (get px (i + 2)) * 255 * (get px (i + 3) / 255))%js)).
    rewrite Nat.sub_0_r, Ht. destruct (decide _); [done|lia].
Qed.

Lemma for4_fmap {St : Type} (f : nat -> St -> St) (fuel i len : nat)
    (o : option St) :
  for4 fuel i len (fun i o => f i <$> o) o = for4 fuel i len f <$> o.
Proof.
  revert i o. induction fuel as [|n IH]; intros i o; cbn [for4].
  - now destruct o.
  - destruct (i <? len); [|now destruct o]. rewrite IH. now destruct o.
Qed.

Lemma spot_lookup (px : list Z) (spotColors : list SpotColor) (idx : nat)
    (sc : SpotColor) (p : nat) :
  spotColors !! idx = Some sc ->
  p < length px / 4 ->
  exists ch,
    spot powQ sqrtQ px spotColors !! idx = Some ch
    /\ ch !! p =
       Some (match spot_value powQ sqrtQ (mkTarget sc) px (4 * p) with
             | Some v => ToUint8Clamp v
             | None => 0%Z
             end).
Proof.
  intros Hsc Hp. unfold spot. cbv zeta.
  assert (Ht : map mkTarget spotColors !! idx = Some (mkTarget sc)).
  { change (map mkTarget spotColors) with (mkTarget <$> spotColors).
    now rewrite list_lookup_fmap, Hsc. }
  rewrite (for4_proj (fun chs => chs !! idx) _
             (fun i o => writes (spot_value powQ sqrtQ (mkTarget sc) px) i <$> o))
    by (intros i s; now apply spot_body_lookup).
  rewrite for4_fmap.
  change (map ?f (map mkTarget spotColors))
    with (f <$> (mkTarget <$> spotColors)).
  rewrite !list_lookup_fmap, Hsc. cbn [fmap option_fmap option_map].
  eexists. split; [reflexivity|]. now apply for4_writes_new.
Qed.

Lemma ToUint8Clamp_proper (q q' : Q) :
  (q == q')%Q -> ToUint8Clamp (Fin q) = ToUint8Clamp (Fin q').
Proof.
  intros H. unfold ToUint8Clamp, Qltb.
  assert (Hf : Qfloor q = Qfloor q') by now rewrite H.
  assert (H0 : Qle_bool q 0 = Qle_bool q' 0) by now rewrite H.
  assert (H1 : Qle_bool 255 q = Qle_bool 255 q') by now rewrite H.
  rewrite Hf, H0, H1.
  assert (H2 : Qle_bool q (inject_Z (Qfloor q') + (1 # 2)) =
               Qle_bool q' (inject_Z (Qfloor q') + (1 # 2))) by now rewrite H.
  assert (H3 : Qle_bool (inject_Z (Qfloor q') + (1 # 2)) q =
               Qle_bool (inject_Z (Qfloor q') + (1 # 2)) q') by now rewrite H.
  now rewrite H2, H3.
Qed.

Lemma add_Fin (a b : Q) : (Fin a + Fin b)%js = Fin (a + b).
Proof. reflexivity. Qed.

Lemma sub_Fin (a b : Q) : (Fin a - Fin b)%js = Fin (a + - b).
Proof. reflexivity. Qed.

Lemma mul_Fin (a b : Q) : (Fin a * Fin b)%js = Fin (a * b).
Proof. reflexivity. Qed.

Lemma div_Fin (a b : Q) : ~ (b == 0)%Q -> (Fin a / Fin b)%js = Fin (a / b).
Proof.
  intros H. apply Qeq_bool_false in H. unfold div. now rewrite H.
Qed.

Lemma div_Fin_zero (a b : Q) :
  (b == 0)%Q -> (0 < a)%Q -> (Fin a / Fin b)%js = PInf.
Proof.
  intros Hb Ha. unfold div, inf_of_sign.
  apply Qeq_bool_iff in Hb. rewrite Hb.
  assert (H0 : Qeq_bool a 0 = false).
  { apply Qeq_bool_false. intros H. rewrite H in Ha. discriminate. }
  assert (H1 : Qltb a 0 = false).
  { apply Qltb_ge. now apply Qlt_le_weak. }
  now rewrite H0, H1.
Qed.

Lemma Math_pow_zero_2 (q : Q) :
  (q == 0)%Q -> Math_pow powQ (Fin q) (Fin (inject_Z 2)) = Fin 0.
Proof.
  intros H. unfold Math_pow.
  change (Qeq_bool (inject_Z 2) 0) with false. cbn iota.
  apply Qeq_bool_iff in H. rewrite H. reflexivity.
Qed.

Lemma Math_sqrt_zero (q : Q) : (q == 0)%Q -> Math_sqrt sqrtQ (Fin q) = Fin 0.
Proof.
  intros H. unfold Math_sqrt.
  assert (H1 : Qltb q 0 = false) by (apply Qltb_ge; rewrite H; discriminate).
  apply Qeq_bool_iff in H. now rewrite H1, H.
Qed.

(** The cube of a similarity equal to one. *)
Lemma sharpen_one (sim : Q) :
  (sim == 1)%Q ->
  exists s,
    Math_pow powQ
      (if lt (Fin sim) (Fin (inject_Z 0)) then Fin (inject_Z 0) else Fin sim)
      (Fin (inject_Z 3)) = Fin s
    /\ (s == 1)%Q.
Proof.
  intros Es.
  assert (Hlt : lt (Fin sim) (Fin (inject_Z 0)) = false).
  { cbn [lt]. apply Qltb_ge. rewrite Es. discriminate. }
  rewrite Hlt. unfold Math_pow.
  change (Qeq_bool (inject_Z 3) 0) with false. cbn iota.
  assert (Hs0 : Qeq_bool sim 0 = false).
  { apply Qeq_bool_false. rewrite Es. discriminate. }
  rewrite Hs0. change (is_int (inject_Z 3)) with true. cbn iota.
  eexists. split; [reflexivity|].
  change (Qfloor (inject_Z 3)) with 3%Z. rewrite Es. reflexivity.
Qed.

(** The similarity of a colour to a target of exactly that colour is 1,
    for every finite threshold. *)
Lemma similarity_exact (target : Target) (r g b t : Q) :
  t_r target = Fin r -> t_g target = Fin g -> t_b target = Fin b ->
  threshold (t_spot target) = Fin t ->
  exists s, similarity powQ sqrtQ target (Fin r) (Fin g) (Fin b) = Fin s
            /\ (s == 1)%Q.
Proof.
  intros Hr Hg Hb Ht. unfold similarity. rewrite Hr, Hg, Hb, Ht.
  unfold ofZ. rewrite !sub_Fin.
  rewrite !Math_pow_zero_2 by ring. rewrite !add_Fin.
  rewrite Math_sqrt_zero by reflexivity.
  rewrite (div_Fin t) by discriminate. rewrite add_Fin.
  destruct (Qeq_dec (inject_Z 1 + t / inject_Z 20) 0) as [E|E].
  - rewrite (div_Fin_zero (inject_Z 442)) by (assumption || reflexivity).
    apply sharpen_one. reflexivity.
  - rewrite (div_Fin (inject_Z 442)) by assumption.
    rewrite div_Fin.
    + rewrite sub_Fin. apply sharpen_one. unfold Qdiv. ring.
    + intros Hz.
      pose proof (Qmult_div_r (inject_Z 442) _ E) as Hq.
      rewrite Hz in Hq. revert Hq. rewrite Qmult_0_r. discriminate.
Qed.

(** C6. For every configured spot target with a finite threshold and
    every pixel with alpha above zero whose colour is exactly the target's,
    the similarity is 1, whatever the threshold is, and the density stored
    for the pixel is 255 times its normalised alpha, that is, its alpha. *)
Theorem spot_exact_match (px : list Z) (spotColors : list SpotColor)
    (idx : nat) (sc : SpotColor) (p : nat) (r g b a : Z) (t : Q) :
  spotColors !! idx = Some sc ->
  threshold sc = Fin t ->
  px !! (4 * p) = Some r -> px !! (4 * p + 1) = Some g ->
  px !! (4 * p + 2) = Some b -> px !! (4 * p + 3) = Some a ->
  (0 < a <= 255)%Z ->
  t_r (mkTarget sc) = ofZ r -> t_g (mkTarget sc) = ofZ g ->
  t_b (mkTarget sc) = ofZ b ->
  (exists s,
     similarity powQ sqrtQ (mkTarget sc) (ofZ r) (ofZ g) (ofZ b) = Fin s
     /\ (s == 1)%Q)
  /\ (exists ch,
        spot powQ sqrtQ px spotColors !! idx = Some ch /\ ch !! p = Some a)
  /\ num_eq (255 * (ofZ a / 255))%js (ofZ a).
Proof.
  intros Hsc Ht Hr Hg Hb Ha Hpos Tr Tg Tb.
  destruct (similarity_exact (mkTarget sc) _ _ _ t Tr Tg Tb Ht)
    as (s & Hs & Es).
  assert (Hnz : ~ (inject_Z a == 0)%Q).
  { change 0%Q with (inject_Z 0). rewrite inject_Z_injective. lia. }
  split; [eauto|]. split.
  - assert (Hp : p < length px / 4).
    { apply pixel_slot. now apply lookup_lt_Some in Ha. }
    destruct (spot_lookup px spotColors idx sc p Hsc Hp) as (ch & Hch & Hv).
    exists ch. split; [done|]. rewrite Hv. f_equal.
    unfold spot_value.
    rewrite (get_Some _ _ _ Hr), (get_Some _ _ _ Hg), (get_Some _ _ _ Hb),
      (get_Some _ _ _ Ha).
    unfold ofZ in *. rewrite div_Fin by discriminate.
    assert (Hseq : seq (Fin (inject_Z a / 255)) 0 = false).
    { cbn [seq]. apply Qeq_bool_false. intros Hz. apply Hnz.
      pose proof (Qmult_div_r (inject_Z a) 255) as Hq.
      rewrite Hz, Qmult_0_r in Hq. symmetry. apply Hq. discriminate. }
    rewrite Hseq, Hs, !mul_Fin.
    rewrite (ToUint8Clamp_proper _ (inject_Z a)).
    + apply ToUint8Clamp_byte. lia.
    + rewrite Es. field.
  - unfold ofZ. rewrite div_Fin by discriminate. rewrite mul_Fin.
    cbn [num_eq]. field.
Qed.

End Spot.

(** ** Dominant colours *)

Lemma StronglySorted_cons {A : Type} (R : A -> A -> Prop) (x : A)
    (l : list A) :
  StronglySorted R (x :: l) <-> Forall (R x) l /\ StronglySorted R l.
Proof.
  split.
  - intros H. apply StronglySorted_inv in H. tauto.
  - intros [H1 H2]. now constructor.
Qed.

Section Sorting.

Context {A : Type} (cmp : A -> A -> Z).

Hypothesis before_total : forall a b, before cmp a b \/ before cmp b a.
Hypothesis before_trans : forall a b c, before cmp a b -> before cmp b c -> before cmp a c.

Lemma sort_insert_elem_of (x y : A) (l : list A) :
  y ∈ sort_insert cmp x l <-> y = x \/ y ∈ l.
Proof using Type.
  induction l as [|z l IH]; cbn [sort_insert].
  - rewrite list_elem_of_singleton, elem_of_nil. tauto.
  - destruct (cmp x z <=? 0)%Z; rewrite !elem_of_cons; [tauto|].
    rewrite IH. tauto.
Qed.

Lemma sort_elem_of (y : A) (l : list A) : y ∈ Array_sort cmp l <-> y ∈ l.
Proof using Type.
  unfold Array_sort. induction l as [|x l IH]; cbn [foldr]; [done|].
  rewrite sort_insert_elem_of, elem_of_cons, IH. tauto.
Qed.

Lemma sort_insert_sorted (x : A) (l : list A) :
  StronglySorted (before cmp) l -> StronglySorted (before cmp) (sort_insert cmp x l).
Proof using before_total before_trans.
  induction l as [|z l IH]; intros Hl; cbn [sort_insert].
  - repeat constructor.
  - apply StronglySorted_cons in Hl as [Hz Hl].
    destruct (Z.leb_spec (cmp x z) 0) as [Hle|Hgt].
    + apply StronglySorted_cons. split.
      * constructor; [exact Hle|].
        eapply Forall_impl; [exact Hz|]. intros w Hw.
        now apply (before_trans x z w).
      * now apply StronglySorted_cons.
    + apply StronglySorted_cons. split; [|now apply IH].
      apply Forall_forall. intros w Hw.
      apply sort_insert_elem_of in Hw as [->|Hw].
      * destruct (before_total z x) as [H|H]; [exact H|].
        unfold before in H. lia.
      * rewrite Forall_forall in Hz. now apply Hz.
Qed.

Lemma sort_sorted (l : list A) : StronglySorted (before cmp) (Array_sort cmp l).
Proof using before_total before_trans.
  unfold Array_sort. induction l as [|x l IH]; cbn [foldr].
  - constructor.
  - now apply sort_insert_sorted.
Qed.

End Sorting.

Lemma StronglySorted_lookup {A : Type} (R : A -> A -> Prop) (l : list A)
    (i j : nat) (x y : A) :
  StronglySorted R l -> (i < j)%nat -> l !! i = Some x -> l !! j = Some y ->
  R x y.
Proof.
  intros Hl. revert i j. induction Hl as [|z l Hl IH Hz]; intros i j Hij Hi Hj.
  - rewrite lookup_nil in Hi. discriminate.
  - destruct j as [|j]; [lia|]. cbn in Hj. destruct i as [|i].
    + cbn in Hi. injection Hi as ->. rewrite Forall_forall in Hz.
      apply Hz. eapply list_elem_of_lookup_2. exact Hj.
    + cbn in Hi. apply (IH i j); [lia|done|done].
Qed.

Lemma StronglySorted_sublist {A : Type} (R : A -> A -> Prop) (l k : list A) :
  l `sublist_of` k -> StronglySorted R k -> StronglySorted R l.
Proof.
  induction 1 as [|x l k Hs IH|x l k Hs IH]; intros Hk.
  - constructor.
  - apply StronglySorted_cons in Hk as [Hx Hk].
    apply StronglySorted_cons. split; [|now apply IH].
    rewrite Forall_forall in Hx |- *. intros y Hy.
    apply Hx. eapply elem_of_sublist; [exact Hy|exact Hs].
  - apply StronglySorted_cons in Hk as [_ Hk]. now apply IH.
Qed.

Lemma StronglySorted_snoc {A : Type} (R : A -> A -> Prop) (l : list A) (x : A) :
  StronglySorted R l -> Forall (fun y => R y x) l ->
  StronglySorted R (l ++ [x]).
Proof.
  intros Hl Hx. induction Hl as [|z l Hl IH Hz]; cbn [app].
  - repeat constructor.
  - apply Forall_cons in Hx as [Hzx Hx]. constructor; [now apply IH|].
    apply Forall_app. split; [done|]. now repeat constructor.
Qed.

Section Select.

Variable powQ : Q -> Q -> Q.
Variable sqrtQ : Q -> Q.

Local Open Scope nat_scope.

Lemma isDistinct_apart (distinctColors : list string) (color : string) :
  isDistinct powQ sqrtQ distinctColors color = true ->
  Forall (fun existing => apart powQ sqrtQ existing color) distinctColors.
Proof.
  unfold isDistinct. rewrite forallb_forall, Forall_forall.
  intros H c Hc. unfold apart. apply negb_true_iff, H.
  now apply list_elem_of_In.
Qed.

Lemma selectDistinct_sublist (count : num) (sorted acc : list string) :
  exists rest, rest `sublist_of` sorted
    /\ selectDistinct powQ sqrtQ count sorted acc = acc ++ rest.
Proof.
  revert acc. induction sorted as [|c sorted IH]; intros acc;
    cbn [selectDistinct].
  - exists []. split; [constructor|]. now rewrite app_nil_r.
  - destruct (ge _ count).
    + exists []. split; [apply sublist_nil_l|]. now rewrite app_nil_r.
    + destruct (isDistinct powQ sqrtQ acc c).
      * destruct (IH (acc ++ [c])) as (rest & Hs & ->).
        exists (c :: rest). split; [now constructor|].
        now rewrite <- app_assoc.
      * destruct (IH acc) as (rest & Hs & ->).
        exists rest. split; [now constructor|done].
Qed.

Lemma selectDistinct_length (c : Z) (sorted acc : list string) :
  (0 <= c)%Z -> (Z.of_nat (length acc) <= c)%Z ->
  (Z.of_nat (length (selectDistinct powQ sqrtQ (ofZ c) sorted acc)) <= c)%Z.
Proof.
  intros Hc. revert acc. induction sorted as [|x sorted IH]; intros acc Hacc;
    cbn [selectDistinct]; [done|].
  unfold ge, le, ofZ. rewrite Qle_bool_inject.
  destruct (Z.leb_spec c (Z.of_nat (length acc))); [done|].
  apply IH. destruct (isDistinct powQ sqrtQ acc x); [|lia].
  rewrite length_app. simpl. lia.
Qed.

Lemma selectDistinct_apart (count : num) (sorted acc : list string) :
  StronglySorted (apart powQ sqrtQ) acc ->
  StronglySorted (apart powQ sqrtQ) (selectDistinct powQ sqrtQ count sorted acc).
Proof.
  revert acc. induction sorted as [|c sorted IH]; intros acc Hacc;
    cbn [selectDistinct]; [done|].
  destruct (ge _ count); [done|].
  apply IH. destruct (isDistinct powQ sqrtQ acc c) eqn:E; [|done].
  apply StronglySorted_snoc; [done|]. now apply isDistinct_apart.
Qed.

End Select.

Section Histogram.

Local Open Scope nat_scope.

Lemma for4_seq {St : Type} (body : nat -> St -> St) (n fuel q : nat) (s : St) :
  n - q <= fuel ->
  for4 fuel (4 * q) (4 * n) body s =
  fold_left (fun s p => body (4 * p) s) (List.seq q (n - q)) s.
Proof.
  revert q s. induction fuel as [|f IH]; intros q s Hf; cbn [for4].
  - replace (n - q) with 0 by lia. done.
  - destruct (Nat.ltb_spec (4 * q) (4 * n)) as [Hq|Hq].
    + replace (4 * q + 4) with (4 * S q) by lia. rewrite IH by lia.
      replace (n - q) with (S (n - S q)) by lia. done.
    + replace (n - q) with 0 by lia. done.
Qed.

Lemma count_of_bump (k : string) (cc : list (string * Z)) (k' : string) :
  count_of (bump k cc) k' =
  (count_of cc k' + if String.eqb k k' then 1 else 0)%Z.
Proof.
  induction cc as [|[k0 n] cc IH]; cbn [bump count_of].
  - destruct (String.eqb k k'); lia.
  - destruct (String.eqb_spec k0 k) as [->|Hne]; cbn [count_of].
    + destruct (String.eqb k k'); lia.
    + rewrite IH. destruct (String.eqb_spec k0 k') as [->|Hne'].
      * destruct (String.eqb_spec k k'); [congruence|lia].
      * done.
Qed.

Lemma bump_keys (k : string) (cc : list (string * Z)) (k' : string) :
  k' ∈ (bump k cc).*1 <-> k' = k \/ k' ∈ cc.*1.
Proof.
  induction cc as [|[k0 n] cc IH]; cbn [bump].
  - cbn. rewrite list_elem_of_singleton, elem_of_nil. tauto.
  - destruct (String.eqb_spec k0 k) as [->|Hne]; cbn.
    + rewrite !elem_of_cons. tauto.
    + rewrite !elem_of_cons, IH. tauto.
Qed.

Lemma bump_NoDup (k : string) (cc : list (string * Z)) :
  NoDup cc.*1 -> NoDup (bump k cc).*1.
Proof.
  induction cc as [|[k0 n] cc IH]; cbn [bump]; intros Hnd.
  - cbn. apply NoDup_singleton.
  - destruct (String.eqb_spec k0 k) as [->|Hne]; cbn in *; [done|].
    apply NoDup_cons in Hnd as [Hk0 Hnd]. apply NoDup_cons. split.
    + rewrite bump_keys. intros [?|?]; congruence.
    + now apply IH.
Qed.

Lemma count_of_elem (cc : list (string * Z)) (k : string) (n : Z) :
  NoDup cc.*1 -> (k, n) ∈ cc -> count_of cc k = n.
Proof.
  induction cc as [|[k0 n0] cc IH]; intros Hnd Hin.
  - now apply elem_of_nil in Hin.
  - cbn in Hnd. apply NoDup_cons in Hnd as [Hk0 Hnd].
    apply elem_of_cons in Hin as [[= <- <-]|Hin]; cbn [count_of].
    + now rewrite String.eqb_refl.
    + destruct (String.eqb_spec k0 k) as [->|Hne]; [|now apply IH].
      exfalso. apply Hk0. apply list_elem_of_fmap. now exists (k, n).
Qed.

Section Counting.

Variable d : list Z.

Lemma histogram_fold (ps : list nat) (cc : list (string * Z)) :
  NoDup cc.*1 ->
  let cc' := fold_left (fun s p => histogram_body d (4 * p) s) ps cc in
  NoDup cc'.*1
  /\ (forall k, count_of cc' k =
               (count_of cc k
                + Z.of_nat (length (List.filter (counts_as d k) ps)))%Z)
  /\ (forall k, k ∈ cc'.*1 ->
               k ∈ cc.*1 \/ exists p, p ∈ ps /\ pixel_key d (4 * p) = Some k).
Proof.
  revert cc. induction ps as [|p ps IH]; intros cc Hnd; cbn [fold_left].
  - repeat split; [done|intros; cbn; lia|tauto].
  - unfold histogram_body at 2 4 6.
    destruct (pixel_key d (4 * p)) as [hex|] eqn:E.
    + destruct (IH (bump hex cc) (bump_NoDup hex cc Hnd)) as (H1 & H2 & H3).
      repeat split; [exact H1| |].
      * intros k. rewrite H2, count_of_bump. cbn [List.filter].
        unfold counts_as at 2. rewrite E.
        destruct (String.eqb hex k); cbn [length]; lia.
      * intros k Hk. apply H3 in Hk as [Hk|(q & Hq & Hk)].
        -- apply bump_keys in Hk as [->|Hk]; [|tauto].
           right. exists p. split; [left|done].
        -- right. exists q. split; [now right|done].
    + destruct (IH cc Hnd) as (H1 & H2 & H3).
      repeat split; [exact H1| |].
      * intros k. rewrite H2. cbn [List.filter].
        unfold counts_as at 2. now rewrite E.
      * intros k Hk. apply H3 in Hk as [Hk|(q & Hq & Hk)]; [tauto|].
        right. exists q. split; [now right|done].
Qed.

(** Every entry of the histogram holds the frequency of its key, and every
    key is the key of a counted pixel. *)
Lemma histogram_spec (n : nat) :
  length d = 4 * n ->
  NoDup (histogram d).*1
  /\ (forall k c, (k, c) ∈ histogram d -> c = frequency d k)
  /\ (forall k, k ∈ (histogram d).*1 ->
               exists p, p < n /\ pixel_key d (4 * p) = Some k).
Proof.
  intros Hlen. unfold histogram. rewrite Hlen.
  pose proof (for4_seq (histogram_body d) n (4 * n) 0 []) as Hfold.
  change (4 * 0) with 0 in Hfold. rewrite Hfold by lia. clear Hfold.
  rewrite Nat.sub_0_r.
  destruct (histogram_fold (List.seq 0 n) [] (NoDup_nil_2)) as (H1 & H2 & H3).
  split; [exact H1|]. split.
  - intros k c Hin. rewrite <- (count_of_elem _ _ _ H1 Hin), H2.
    unfold frequency. rewrite Hlen.
    replace (4 * n / 4) with n
      by (symmetry; rewrite Nat.mul_comm; apply Nat.div_mul; lia).
    cbn [count_of]. lia.
  - intros k Hk. apply H3 in Hk as [Hk|(p & Hp & Hk)].
    + now apply elem_of_nil in Hk.
    + exists p. split; [|done]. apply list_elem_of_In, in_seq in Hp. lia.
Qed.

End Counting.

End Histogram.

Section Keys.

Lemma toZ_ofZ (x : num) (n : Z) : toZ x = Some n -> x = ofZ n.
Proof.
  destruct x as [| | |[m [| |]]]; try discriminate.
  cbn. now intros [= ->].
Qed.

Lemma quantize_levels :
  forallb quantize_check (map Z.of_nat (List.seq 0 256)) = true.
Proof. vm_compute. reflexivity. Qed.

Lemma roundtrip_levels :
  forallb
    (fun r =>
       forallb
         (fun g =>
            forallb
              (fun b => channels_check (hexOf (ofZ r) (ofZ g) (ofZ b)) r g b)
              levels)
         levels)
    levels = true.
Proof. vm_compute. reflexivity. Qed.

Lemma quantize_byte (b : Z) :
  0 <= b <= 255 -> exists l, In l levels /\ quantize (ofZ b) = ofZ l.
Proof.
  intros Hb. pose proof quantize_levels as H.
  rewrite forallb_forall in H.
  specialize (H b). unfold quantize_check in H.
  destruct (toZ (quantize (ofZ b))) as [l|] eqn:E.
  - exists l. split; [|now apply toZ_ofZ].
    assert (Hl : existsb (Z.eqb l) levels = true).
    { apply H. apply in_map_iff. exists (Z.to_nat b).
      split; [lia|]. apply in_seq. lia. }
    apply existsb_exists in Hl as (l' & Hin & Heq).
    apply Z.eqb_eq in Heq. now subst.
  - assert (Hf : false = true); [|discriminate].
    apply H. apply in_map_iff. exists (Z.to_nat b).
    split; [lia|]. apply in_seq. lia.
Qed.

Lemma channels_check_sound (hex : string) (r g b : Z) :
  channels_check hex r g b = true -> channels_of hex r g b.
Proof.
  unfold channels_check, channels_of.
  destruct (toZ (parseInt16 (slice 1 3 hex))) as [r'|] eqn:Er; [|discriminate].
  destruct (toZ (parseInt16 (slice 3 5 hex))) as [g'|] eqn:Eg; [|discriminate].
  destruct (toZ (parseInt16 (slice 5 7 hex))) as [b'|] eqn:Eb; [|discriminate].
  intros H. apply andb_true_iff in H as [H Hb'].
  apply andb_true_iff in H as [Hr' Hg'].
  apply Z.eqb_eq in Hr', Hg', Hb'. subst.
  auto using toZ_ofZ.
Qed.

Lemma hexOf_channels (r g b : Z) :
  In r levels -> In g levels -> In b levels ->
  channels_of (hexOf (ofZ r) (ofZ g) (ofZ b)) r g b.
Proof.
  intros Hr Hg Hb. apply channels_check_sound.
  pose proof roundtrip_levels as H.
  rewrite forallb_forall in H. specialize (H r Hr). cbv beta in H.
  rewrite forallb_forall in H. specialize (H g Hg). cbv beta in H.
  rewrite forallb_forall in H. specialize (H b Hb). cbv beta in H.
  exact H.
Qed.

Lemma In_levels_byte (l : Z) : In l levels -> 0 <= l <= 255.
Proof. unfold levels. cbn. intuition lia. Qed.

(** The key of a counted pixel stands for channels within 0..255. *)
Lemma pixel_key_channels (d : list Z) (n p : nat) (k : string) :
  is_bytes d -> length d = (4 * n)%nat -> (p < n)%nat ->
  pixel_key d (4 * p) = Some k ->
  exists r g b, channels_of k r g b
                /\ 0 <= r <= 255 /\ 0 <= g <= 255 /\ 0 <= b <= 255.
Proof.
  intros Hd Hlen Hp. unfold pixel_key.
  unfold is_bytes in Hd. rewrite Forall_lookup in Hd.
  destruct (lookup_lt_is_Some_2 d (4 * p)) as [r Hr]; [lia|].
  destruct (lookup_lt_is_Some_2 d (4 * p + 1)) as [g Hg]; [lia|].
  destruct (lookup_lt_is_Some_2 d (4 * p + 2)) as [b Hb]; [lia|].
  rewrite (get_Some _ _ _ Hr), (get_Some _ _ _ Hg), (get_Some _ _ _ Hb).
  destruct (lt _ _); [discriminate|]. intros [= <-].
  destruct (quantize_byte r (Hd _ _ Hr)) as (r' & Lr & ->).
  destruct (quantize_byte g (Hd _ _ Hg)) as (g' & Lg & ->).
  destruct (quantize_byte b (Hd _ _ Hb)) as (b' & Lb & ->).
  exists r', g', b'. split; [now apply hexOf_channels|].
  auto using In_levels_byte.
Qed.

End Keys.

Section Distance.

Variable powQ : Q -> Q -> Q.
Variable sqrtQ : Q -> Q.

(** What is used of [Math.sqrt]: the root of a number below 3600 is below
    60. *)
Hypothesis sqrtQ_below_60 :
  forall x : Q, (0 < x)%Q -> (x < 3600)%Q -> (sqrtQ x < 60)%Q.

Lemma Math_pow_2 (q : Q) :
  exists q', Math_pow powQ (Fin q) 2 = Fin q' /\ (q' == q * q)%Q.
Proof.
  unfold Math_pow. change (Qeq_bool 2 0) with false. cbn iota.
  destruct (Qeq_bool q 0) eqn:E.
  - apply Qeq_bool_iff in E. exists 0%Q. split; [reflexivity|].
    rewrite E. reflexivity.
  - exists (q * q)%Q. split; reflexivity.
Qed.

Lemma apart_distance (k1 k2 : string) (r1 g1 b1 r2 g2 b2 : Z) :
  channels_of k1 r1 g1 b1 -> channels_of k2 r2 g2 b2 ->
  apart powQ sqrtQ k1 k2 ->
  3600 <= (r1 - r2) * (r1 - r2) + (g1 - g2) * (g1 - g2)
          + (b1 - b2) * (b1 - b2).
Proof using sqrtQ_below_60.
  intros (R1 & G1 & B1) (R2 & G2 & B2). unfold apart, getColorDistance.
  rewrite R1, G1, B1, R2, G2, B2. unfold ofZ. rewrite !sub_Fin.
  destruct (Math_pow_2 (inject_Z r1 + - inject_Z r2)) as (qr & -> & Er).
  destruct (Math_pow_2 (inject_Z g1 + - inject_Z g2)) as (qg & -> & Eg).
  destruct (Math_pow_2 (inject_Z b1 + - inject_Z b2)) as (qb & -> & Eb).
  rewrite !add_Fin.
  set (dz := (r1 - r2) * (r1 - r2) + (g1 - g2) * (g1 - g2)
             + (b1 - b2) * (b1 - b2)).
  assert (Ed : (qr + qg + qb == inject_Z dz)%Q).
  { rewrite Er, Eg, Eb. unfold dz.
    rewrite !inject_Z_plus, !inject_Z_mult. unfold Z.sub.
    rewrite !inject_Z_plus, !inject_Z_opp. ring. }
  assert (Hdz : 0 <= dz).
  { pose proof (Z.square_nonneg (r1 - r2)).
    pose proof (Z.square_nonneg (g1 - g2)).
    pose proof (Z.square_nonneg (b1 - b2)). unfold dz. lia. }
  unfold Math_sqrt, minDistance.
  assert (H0 : Qltb (qr + qg + qb) 0 = false).
  { apply Qltb_ge. rewrite Ed. change 0%Q with (inject_Z 0).
    now rewrite <- Zle_Qle. }
  rewrite H0.
  destruct (Qeq_bool (qr + qg + qb) 0) eqn:E; [discriminate|].
  apply Qeq_bool_false in E. cbn [lt]. intros Hlt. apply Qltb_ge in Hlt.
  destruct (Z.lt_ge_cases dz 3600) as [Hsmall|]; [exfalso|done].
  apply (Qlt_not_le (sqrtQ (qr + qg + qb)) 60); [|exact Hlt].
  apply sqrtQ_below_60.
  - apply Qltb_ge in H0.
    destruct (Qle_lteq 0 (qr + qg + qb)) as [Hx _].
    destruct (Hx H0) as [Hpos|Hz]; [exact Hpos|].
    exfalso. apply E. now symmetry.
  - rewrite Ed. change 3600%Q with (inject_Z 3600). now rewrite <- Zlt_Qlt.
Qed.

End Distance.

Section Dominant.

Variable powQ : Q -> Q -> Q.
Variable sqrtQ : Q -> Q.

Hypothesis sqrtQ_below_60 :
  forall x : Q, (0 < x)%Q -> (x < 3600)%Q -> (sqrtQ x < 60)%Q.

Lemma by_count_total (a b : string * Z) :
  before by_count a b \/ before by_count b a.
Proof. unfold before, by_count. lia. Qed.

Lemma by_count_trans (a b c : string * Z) :
  before by_count a b -> before by_count b c -> before by_count a c.
Proof. unfold before, by_count. lia. Qed.

Lemma StronglySorted_fst (f : string -> Z) (l : list (string * Z)) :
  StronglySorted (before by_count) l ->
  (forall k c, (k, c) ∈ l -> c = f k) ->
  StronglySorted (fun c1 c2 => f c2 <= f c1) (map fst l).
Proof.
  induction 1 as [|[k c] l Hl IH Hx]; intros Hf; cbn [map]; constructor.
  - apply IH. intros k' c' Hin. apply Hf. now right.
  - apply Forall_forall. intros k' Hk'.
    apply list_elem_of_In, in_map_iff in Hk' as ([k2 c2] & <- & Hin).
    apply list_elem_of_In in Hin.
    rewrite Forall_forall in Hx. specialize (Hx _ Hin).
    unfold before, by_count in Hx. cbn in Hx |- *.
    assert (E1 : c = f k) by (apply Hf; left).
    assert (E2 : c2 = f k2) by (apply Hf; right; exact Hin).
    lia.
Qed.

Lemma sortedColors_sorted (d : list Z) (n : nat) :
  length d = (4 * n)%nat ->
  StronglySorted (fun c1 c2 => frequency d c2 <= frequency d c1)
    (sortedColors (histogram d)).
Proof.
  intros Hlen. unfold sortedColors.
  destruct (histogram_spec d n Hlen) as (_ & Hc & _).
  apply StronglySorted_fst.
  - apply sort_sorted; [apply by_count_total|apply by_count_trans].
  - intros k c Hin. apply Hc. now apply sort_elem_of in Hin.
Qed.

Lemma sortedColors_keys (d : list Z) (k : string) :
  k ∈ sortedColors (histogram d) -> k ∈ (histogram d).*1.
Proof.
  unfold sortedColors. intros Hin.
  apply list_elem_of_In, in_map_iff in Hin as ([k' c] & <- & Hin).
  apply list_elem_of_In, sort_elem_of in Hin.
  apply list_elem_of_fmap. now exists (k', c).
Qed.

(** C8. The extractor returns at most [count] colours; any two of them
    are at Euclidean distance at least 60 in RGB, that is, their squared
    distance is at least 3600; and they come in descending order of the
    frequency of their quantised colour in the sampled image.  [count] is
    a non-negative integer and [d] holds the whole pixels of the sampled
    canvas. *)
Theorem dominant_colors_distinct_sorted (d : list Z) (n : nat) (c : Z) :
  is_bytes d -> length d = (4 * n)%nat -> 0 <= c ->
  let result := extractDominantColors powQ sqrtQ d (ofZ c) in
  Z.of_nat (length result) <= c
  /\ forall (i j : nat) (c1 c2 : string),
       (i < j)%nat -> result !! i = Some c1 -> result !! j = Some c2 ->
       (exists r1 g1 b1 r2 g2 b2,
          channels_of c1 r1 g1 b1 /\ channels_of c2 r2 g2 b2
          /\ 3600 <= (r1 - r2) * (r1 - r2) + (g1 - g2) * (g1 - g2)
                     + (b1 - b2) * (b1 - b2))
       /\ frequency d c2 <= frequency d c1.
Proof using sqrtQ_below_60.
  intros Hd Hlen Hc result. unfold extractDominantColors in result.
  split.
  - apply selectDistinct_length; [done|]. cbn. lia.
  - intros i j c1 c2 Hij H1 H2.
    destruct (selectDistinct_sublist powQ sqrtQ (ofZ c)
                (sortedColors (histogram d)) []) as (rest & Hsub & Hres).
    cbn [app] in Hres. fold result in Hres.
    assert (Hkey : forall k, k ∈ result ->
              exists r g b, channels_of k r g b).
    { intros k Hk. rewrite Hres in Hk.
      apply (elem_of_sublist _ _ _ Hk), sortedColors_keys in Hsub.
      destruct (histogram_spec d n Hlen) as (_ & _ & Hp).
      destruct (Hp _ Hsub) as (p & Hpn & Hpk).
      destruct (pixel_key_channels d n p k Hd Hlen Hpn Hpk)
        as (r & g & b & Hch & _).
      eauto. }
    split.
    + destruct (Hkey c1) as (r1 & g1 & b1 & Hc1);
        [eapply list_elem_of_lookup_2; exact H1|].
      destruct (Hkey c2) as (r2 & g2 & b2 & Hc2);
        [eapply list_elem_of_lookup_2; exact H2|].
      exists r1, g1, b1, r2, g2, b2. split; [done|]. split; [done|].
      apply (apart_distance powQ sqrtQ sqrtQ_below_60 c1 c2); [done|done|].
      apply (StronglySorted_lookup (apart powQ sqrtQ) result i j);
        [|done|done|done].
      apply selectDistinct_apart. constructor.
    + apply (StronglySorted_lookup
               (fun c1 c2 => frequency d c2 <= frequency d c1) result i j);
        [|done|done|done].
      rewrite Hres. eapply StronglySorted_sublist; [exact Hsub|].
      now apply (sortedColors_sorted d n).
Qed.

End Dominant.

(** ** A mask of the wrong size *)

Section Masks.

Variable powQ : Q -> Q -> Q.
Variable sqrtQ : Q -> Q.

(** C9. For every source image and all settings, a mask whose width or
    height differs from the source's gives the same result as no mask: the
    same processed canvas, hence the same white underbase, the same CMYK
    densities and the same spot densities. *)
Theorem mismatched_mask_is_no_mask (img mask : Image)
    (adj : ImageAdjustments) (spotColors : list SpotColor) :
  width mask <> width img \/ height mask <> height img ->
  applyAttributes powQ img adj (Some mask) = applyAttributes powQ img adj None
  /\ processWhiteBase powQ img adj (Some mask)
     = processWhiteBase powQ img adj None
  /\ processCMYK powQ img adj (Some mask) = processCMYK powQ img adj None
  /\ processSpotColors powQ sqrtQ img spotColors adj (Some mask)
     = processSpotColors powQ sqrtQ img spotColors adj None.
Proof.
  intros H.
  assert (E : applyAttributes powQ img adj (Some mask)
              = applyAttributes powQ img adj None).
  { unfold applyAttributes. now rewrite (maskDataOf_mismatch img mask H). }
  unfold processWhiteBase, processCMYK, processSpotColors.
  now rewrite E.
Qed.

End Masks.

(** ** Further properties of the adjustment stage *)

(** Arithmetic of finite numbers. *)
Ltac fin_arith :=
  repeat first [rewrite add_Fin | rewrite sub_Fin | rewrite mul_Fin].

Section AttributesMore.

Variable powQ : Q -> Q -> Q.

Local Open Scope nat_scope.

Lemma clamp255_within (q : Q) :
  (0 <= q <= 255)%Q -> exists q', clamp255 (Fin q) = Fin q' /\ (q' == q)%Q.
Proof.
  intros [H0 H1]. unfold clamp255, Math_min, Math_max, lt. simpl.
  change (inject_Z 255) with 255%Q. change (inject_Z 0) with 0%Q.
  destruct (Qltb q 255) eqn:E1; [apply Qltb_lt in E1|apply Qltb_ge in E1].
  - destruct (Qltb 0 q) eqn:E2; [apply Qltb_lt in E2|apply Qltb_ge in E2].
    + exists q. split; reflexivity.
    + exists 0%Q. split; [reflexivity|]. lra.
  - exists 255%Q. split; [reflexivity|]. lra.
Qed.

(** With brightness 0, contrast 0 and gamma 1 a byte comes back as it
    is. *)
Lemma tone_neutral (adj : ImageAdjustments) (x : Z) :
  brightness adj = 0%js -> contrast adj = 0%js -> gamma adj = 1%js ->
  (0 <= x <= 255)%Z ->
  ToUint8Clamp (tone powQ adj (ofZ x)) = x.
Proof.
  intros Hb Hc Hg Hx.
  unfold tone, gamma_step, contrast_step, contrastFactor, brightness_step.
  rewrite Hb, Hc, Hg. unfold ofZ.
  change (sneq 1 1)%js with false. cbv iota.
  fin_arith. rewrite div_Fin by discriminate. fin_arith.
  match goal with |- context [clamp255 (Fin ?q)] =>
    assert (Eq : (q == inject_Z x)%Q) by field;
    destruct (clamp255_within q) as (q' & -> & Eq')
  end.
  - rewrite Eq. now apply inject_Z_byte.
  - rewrite (ToUint8Clamp_proper q' (inject_Z x)).
    + now apply ToUint8Clamp_byte.
    + now rewrite Eq'.
Qed.

Lemma alpha_rule_off (adj : ImageAdjustments) (target : num * num * num)
    (tolSq : num) (i : nat) (r g b a : num) :
  removeBg adj = false -> alpha_rule adj None target tolSq i r g b a = a.
Proof.
  intros H. unfold alpha_rule. destruct target as [[tr tg] tb].
  cbn [forceRemove forceKeep]. now rewrite H.
Qed.

Lemma split_index (j : nat) : exists p c, c < 4 /\ j = 4 * p + c.
Proof.
  exists (j / 4), (j mod 4). split.
  - apply Nat.mod_upper_bound. lia.
  - apply Nat.div_mod_eq.
Qed.

(** X1. With brightness 0, contrast 0, gamma 1, background removal off and
    no mask, the stage returns the buffer it was given, byte for byte. *)
Theorem neutral_settings_identity (img : Image) (adj : ImageAdjustments) :
  brightness adj = 0%js -> contrast adj = 0%js -> gamma adj = 1%js ->
  removeBg adj = false ->
  is_bytes (data img) ->
  applyAttributes powQ img adj None = data img.
Proof.
  intros Hb Hc Hg Hr Hd. apply list_eq. intros j.
  destruct (split_index j) as (p & c & Hc4 & ->).
  rewrite applyAttributes_lookup by done.
  destruct (data img !! (4 * p + c)) as [x|] eqn:Hx; [|done].
  cbn [fmap option_fmap option_map]. f_equal.
  assert (Rx : (0 <= x <= 255)%Z).
  { unfold is_bytes in Hd. rewrite Forall_lookup in Hd. exact (Hd _ _ Hx). }
  unfold stored.
  destruct c as [|[|[|[|c]]]]; [rewrite Nat.add_0_r in Hx| | | |lia];
    rewrite (get_Some _ _ _ Hx).
  - now apply tone_neutral.
  - now apply tone_neutral.
  - now apply tone_neutral.
  - cbn [maskDataOf]. rewrite alpha_rule_off by done.
    now apply ToUint8Clamp_byte.
Qed.

(** X2. Whatever the image, the settings and the mask, the result has the
    length of the source and holds bytes. *)
Theorem applyAttributes_bytes (img : Image) (adj : ImageAdjustments)
    (userMask : option Image) :
  length (applyAttributes powQ img adj userMask) = length (data img)
  /\ is_bytes (applyAttributes powQ img adj userMask).
Proof.
  split; [apply applyAttributes_length|].
  unfold is_bytes. apply Forall_lookup. intros j y Hy.
  destruct (split_index j) as (p & c & Hc4 & ->).
  rewrite applyAttributes_lookup in Hy by done.
  destruct (data img !! (4 * p + c)); [|discriminate].
  cbn in Hy. injection Hy as <-. apply ToUint8Clamp_range.
Qed.

(** X3. A pixel that the mask does not erase keeps its alpha when the mask
    marks it keep, whatever the removal settings are, and when background
    removal is off. *)
Theorem kept_pixels_keep_alpha (img : Image) (adj : ImageAdjustments)
    (userMask : option Image) (p : nat) (a : Z) :
  is_bytes (data img) ->
  data img !! (4 * p + 3) = Some a ->
  forceRemove (maskDataOf img userMask) (4 * p) = false ->
  forceKeep (maskDataOf img userMask) (4 * p) = true \/ removeBg adj = false ->
  applyAttributes powQ img adj userMask !! (4 * p + 3) = Some a.
Proof.
  intros Hd Ha Hrem Hkeep.
  rewrite (applyAttributes_alpha _ _ _ _ _ _ Ha). f_equal.
  assert (Ra : (0 <= a <= 255)%Z).
  { unfold is_bytes in Hd. rewrite Forall_lookup in Hd. exact (Hd _ _ Ha). }
  unfold alpha_rule. destruct (bgTarget adj (data img)) as [[tr tg] tb].
  rewrite Hrem. destruct Hkeep as [Hk|Hoff].
  - rewrite Hk. now apply ToUint8Clamp_byte.
  - rewrite Hoff. destruct (forceKeep _ _); now apply ToUint8Clamp_byte.
Qed.

Lemma clamped_le_255 (x : num) :
  clamped x -> x = NaN \/ exists q, x = Fin q /\ (0 <= q <= 255)%Q.
Proof.
  destruct x as [| | |q]; cbn; try tauto. intros H. right. eauto.
Qed.

(** The luminance of clamped channels is never above 255. *)
Lemma luminance_le_255 (r g b : num) (c : Q) :
  clamped r -> clamped g -> clamped b -> (255 <= c)%Q ->
  gt (Fin 0.299 * r + Fin 0.587 * g + Fin 0.114 * b)%js (Fin c) = false.
Proof.
  intros Hr Hg Hb Hc.
  destruct (clamped_le_255 r Hr) as [->|(qr & -> & Rr)];
    [now destruct g, b|].
  destruct (clamped_le_255 g Hg) as [->|(qg & -> & Rg)];
    [now destruct b|].
  destruct (clamped_le_255 b Hb) as [->|(qb & -> & Rb)]; [done|].
  fin_arith. unfold gt. cbn [lt]. apply Qltb_ge. lra.
Qed.

(** X4. In the white mode a threshold of 0 removes nothing: the alpha of
    every pixel that the mask does not erase is kept, for all brightness,
    contrast and gamma values. *)
Theorem white_threshold_0_keeps_alpha (img : Image) (adj : ImageAdjustments)
    (userMask : option Image) (p : nat) (a : Z) :
  bgRemoveMode adj = white ->
  num_eq (bgThreshold adj) 0 ->
  is_bytes (data img) ->
  data img !! (4 * p + 3) = Some a ->
  forceRemove (maskDataOf img userMask) (4 * p) = false ->
  applyAttributes powQ img adj userMask !! (4 * p + 3) = Some a.
Proof.
  intros Hm Ht Hd Ha Hrem.
  rewrite (applyAttributes_alpha _ _ _ _ _ _ Ha). f_equal.
  assert (Ra : (0 <= a <= 255)%Z).
  { unfold is_bytes in Hd. rewrite Forall_lookup in Hd. exact (Hd _ _ Ha). }
  unfold alpha_rule. destruct (bgTarget adj (data img)) as [[tr tg] tb].
  rewrite Hrem, Hm.
  destruct (forceKeep _ _); [now apply ToUint8Clamp_byte|].
  destruct (removeBg adj); [|now apply ToUint8Clamp_byte].
  destruct (bgThreshold adj) as [| | |t]; try done. cbn [num_eq] in Ht.
  unfold ofZ. fin_arith.
  rewrite luminance_le_255; [now apply ToUint8Clamp_byte| | | |].
  1-3: apply clamp255_clamped.
  rewrite Ht. vm_compute. discriminate.
Qed.

Lemma tone_ext (adj adj' : ImageAdjustments) (c : num) :
  brightness adj = brightness adj' -> contrast adj = contrast adj' ->
  gamma adj = gamma adj' ->
  tone powQ adj c = tone powQ adj' c.
Proof.
  intros Hb Hc Hg.
  unfold tone, gamma_step, contrast_step, contrastFactor, brightness_step.
  now rewrite Hb, Hc, Hg.
Qed.

(** X5. The colour bytes of the result depend on the brightness, contrast
    and gamma only: neither the mask nor the removal settings change the
    colour of any pixel, erased or not. *)
Theorem colour_independent_of_removal (img : Image)
    (adj adj' : ImageAdjustments) (userMask userMask' : option Image)
    (p c : nat) :
  brightness adj = brightness adj' -> contrast adj = contrast adj' ->
  gamma adj = gamma adj' ->
  c < 3 ->
  applyAttributes powQ img adj userMask !! (4 * p + c) =
  applyAttributes powQ img adj' userMask' !! (4 * p + c).
Proof.
  intros Hb Hc Hg Hc3. rewrite !applyAttributes_lookup by lia.
  destruct (data img !! (4 * p + c)); [|done].
  cbn [fmap option_fmap option_map]. f_equal. f_equal. unfold stored.
  destruct c as [|[|[|c]]]; [| | |lia]; now apply tone_ext.
Qed.

End AttributesMore.

(** ** Further properties of the CMYK separator *)

Section CmykMore.

Local Open Scope nat_scope.

(** A number at most the integer [a] is stored as a byte at most [a]. *)
Lemma ToUint8Clamp_le (q : Q) (a : Z) :
  (q <= inject_Z a)%Q -> (0 <= a <= 255)%Z -> (ToUint8Clamp (Fin q) <= a)%Z.
Proof.
  intros Hq Ha. unfold ToUint8Clamp.
  destruct (Qle_bool q 0) eqn:E0; [lia|].
  destruct (Qle_bool 255 q) eqn:E1.
  - apply Qle_bool_iff in E1.
    assert (H : (inject_Z 255 <= inject_Z a)%Q) by (eapply Qle_trans; eauto).
    rewrite <- Zle_Qle in H. lia.
  - assert (Hf : (inject_Z (Qfloor q) <= q)%Q) by apply Qfloor_le.
    assert (Hfa : (Qfloor q <= a)%Z).
    { rewrite Zle_Qle. eapply Qle_trans; eauto. }
    destruct (Qltb (inject_Z (Qfloor q) + (1 # 2)) q) eqn:E2.
    + apply Qltb_lt in E2.
      assert (H : (inject_Z (Qfloor q) < inject_Z a)%Q) by lra.
      rewrite <- Zlt_Qlt in H. lia.
    + destruct (Qltb q (inject_Z (Qfloor q) + (1 # 2))) eqn:E3; [lia|].
      apply Qltb_ge in E2, E3.
      assert (H : (inject_Z (Qfloor q) < inject_Z a)%Q) by lra.
      rewrite <- Zlt_Qlt in H. destruct (Z.even _); lia.
Qed.

Lemma cmyk_values_transparent (px : list Z) (i : nat) :
  px !! (i + 3) = Some 0%Z -> cmyk_values px i = None.
Proof.
  intros Ha. unfold cmyk_values. now rewrite (get_Some _ _ _ Ha).
Qed.

(** The quadruple of an opaque or half-transparent pixel, with the largest
    normalised channel [m]. *)
Lemma Math_max3_Fin (x y z : Q) :
  exists m, Math_max3 (Fin x) (Fin y) (Fin z) = Fin m
            /\ (x <= m)%Q /\ (y <= m)%Q /\ (z <= m)%Q
            /\ (m = x \/ m = y \/ m = z).
Proof.
  unfold Math_max3, Math_max, lt.
  destruct (Qltb x y) eqn:E1; [apply Qltb_lt in E1|apply Qltb_ge in E1].
  - destruct (Qltb y z) eqn:E2; [apply Qltb_lt in E2|apply Qltb_ge in E2].
    + exists z. repeat split; auto; lra.
    + exists y. repeat split; auto; lra.
  - destruct (Qltb x z) eqn:E2; [apply Qltb_lt in E2|apply Qltb_ge in E2].
    + exists z. repeat split; auto; lra.
    + exists x. repeat split; auto; lra.
Qed.

(** The share of one channel: [(1 - x - k) / (1 - k) || 0] with
    [k = 1 - m], for a channel [x] between 0 and the largest channel [m]. *)
Lemma share_range (x m : Q) :
  (0 <= x <= m)%Q -> (m <= 1)%Q ->
  exists q,
    ((1 - Fin x - (1 - Fin m)) / (1 - (1 - Fin m)) || 0)%js = Fin q
    /\ (0 <= q <= 1)%Q /\ ((x == m)%Q -> (q == 0)%Q).
Proof.
  intros Hx Hm. fin_arith.
  set (n := (1 + - x + - (1 + - m))%Q).
  set (d := (1 + - (1 + - m))%Q).
  assert (En : (n == m - x)%Q) by (unfold n; ring).
  assert (Ed : (d == m)%Q) by (unfold d; ring).
  destruct (Qeq_dec d 0) as [Hd|Hd].
  - assert (Hn : (n == 0)%Q) by lra.
    unfold div. apply Qeq_bool_iff in Hd, Hn. rewrite Hd, Hn.
    exists 0%Q. split; [reflexivity|]. split; [lra|reflexivity].
  - rewrite div_Fin by assumption. unfold or_else, truthy.
    assert (Hdpos : (0 < d)%Q) by lra.
    assert (Hq : (0 <= n / d <= 1)%Q).
    { split.
      - apply Qle_shift_div_l; [exact Hdpos|]. lra.
      - apply Qle_shift_div_r; [exact Hdpos|]. lra. }
    destruct (Qeq_bool (n / d) 0) eqn:E; cbn [negb].
    + exists 0%Q. split; [reflexivity|]. split; [lra|reflexivity].
    + exists (n / d)%Q. split; [reflexivity|]. split; [exact Hq|].
      intros Hxm. assert (Hn : (n == 0)%Q) by lra.
      rewrite Hn. unfold Qdiv. ring.
Qed.

Lemma byte_unit (v : Z) :
  (0 <= v <= 255)%Z -> (0 <= inject_Z v / 255 <= 1)%Q.
Proof.
  intros Hv. pose proof (inject_Z_byte v Hv) as [H0 H1]. split.
  - apply Qle_shift_div_l; [reflexivity|]. lra.
  - apply Qle_shift_div_r; [reflexivity|]. lra.
Qed.

(** The densities of a pixel that is not skipped, in terms of the shares
    of its channels. *)
Lemma cmyk_values_visible (px : list Z) (i : nat) (r g b a : Z) :
  px !! i = Some r -> px !! (i + 1) = Some g -> px !! (i + 2) = Some b ->
  px !! (i + 3) = Some a ->
  (0 <= r <= 255)%Z -> (0 <= g <= 255)%Z -> (0 <= b <= 255)%Z ->
  (0 < a <= 255)%Z ->
  exists m c' m' y',
    cmyk_values px i =
      Some (Fin (c' * 255 * (inject_Z a / 255)),
            Fin (m' * 255 * (inject_Z a / 255)),
            Fin (y' * 255 * (inject_Z a / 255)),
            Fin ((1 + - m) * 255 * (inject_Z a / 255)))
    /\ (0 <= c' <= 1)%Q /\ (0 <= m' <= 1)%Q /\ (0 <= y' <= 1)%Q
    /\ (0 <= m <= 1)%Q
    /\ (inject_Z r / 255 <= m)%Q /\ (inject_Z g / 255 <= m)%Q
    /\ (inject_Z b / 255 <= m)%Q
    /\ (m = inject_Z r / 255 \/ m = inject_Z g / 255
        \/ m = inject_Z b / 255)%Q
    /\ ((inject_Z r / 255 == m)%Q -> (c' == 0)%Q)
    /\ ((inject_Z g / 255 == m)%Q -> (m' == 0)%Q)
    /\ ((inject_Z b / 255 == m)%Q -> (y' == 0)%Q).
Proof.
  intros Hr Hg Hb Ha Rr Rg Rb Ra. unfold cmyk_values.
  rewrite (get_Some _ _ _ Hr), (get_Some _ _ _ Hg), (get_Some _ _ _ Hb),
    (get_Some _ _ _ Ha).
  unfold ofZ. rewrite !div_Fin by discriminate.
  assert (Hseq : seq (Fin (inject_Z a / 255)) 0 = false).
  { cbn [seq]. apply Qeq_bool_false. intros Hz.
    pose proof (Qmult_div_r (inject_Z a) 255) as Hq.
    rewrite Hz, Qmult_0_r in Hq.
    assert (Hza : (inject_Z 0 == inject_Z a)%Q) by (apply Hq; discriminate).
    rewrite inject_Z_injective in Hza. lia. }
  rewrite Hseq.
  destruct (Math_max3_Fin (inject_Z r / 255) (inject_Z g / 255)
              (inject_Z b / 255)) as (m & -> & Mr & Mg & Mb & Mcase).
  pose proof (byte_unit r Rr) as Ur. pose proof (byte_unit g Rg) as Ug.
  pose proof (byte_unit b Rb) as Ub.
  assert (Hm : (0 <= m <= 1)%Q).
  { destruct Mcase as [-> | [-> | ->]]; assumption. }
  destruct (share_range (inject_Z r / 255) m) as (c' & Ec & Rc & Zc);
    [lra|lra|].
  destruct (share_range (inject_Z g / 255) m) as (m' & Em & Rm & Zm);
    [lra|lra|].
  destruct (share_range (inject_Z b / 255) m) as (y' & Ey & Ry & Zy);
    [lra|lra|].
  exists m, c', m', y'.
  rewrite Ec, Em, Ey. fin_arith. repeat split; auto; lra.
Qed.

(** X6. A pixel with alpha 0 gets density 0 in all four channels: the
    separator puts no ink where nothing is visible. *)
Theorem cmyk_transparent_pixel (px : list Z) (p : nat) :
  px !! (4 * p + 3) = Some 0%Z ->
  cArr (cmyk px) !! p = Some 0%Z /\ mArr (cmyk px) !! p = Some 0%Z
  /\ yArr (cmyk px) !! p = Some 0%Z /\ kArr (cmyk px) !! p = Some 0%Z.
Proof.
  intros Ha.
  assert (Hp : p < length px / 4).
  { apply pixel_slot. now apply lookup_lt_Some in Ha. }
  destruct (cmyk_lookup px p Hp) as (Hc & Hm & Hy & Hk).
  rewrite Hc, Hm, Hy, Hk, (cmyk_values_transparent px (4 * p) Ha).
  done.
Qed.

(** X7. In every pixel the channel of a largest colour component gets
    no ink: Cyan is 0 where red is largest, Magenta where green is,
    Yellow where blue is. *)
Theorem cmyk_largest_component_no_ink (px : list Z) (p : nat)
    (r g b a : Z) :
  is_bytes px ->
  px !! (4 * p) = Some r -> px !! (4 * p + 1) = Some g ->
  px !! (4 * p + 2) = Some b -> px !! (4 * p + 3) = Some a ->
  ((g <= r)%Z -> (b <= r)%Z -> cArr (cmyk px) !! p = Some 0%Z)
  /\ ((r <= g)%Z -> (b <= g)%Z -> mArr (cmyk px) !! p = Some 0%Z)
  /\ ((r <= b)%Z -> (g <= b)%Z -> yArr (cmyk px) !! p = Some 0%Z).
Proof.
  intros Hd Hr Hg Hb Ha.
  unfold is_bytes in Hd. rewrite Forall_lookup in Hd.
  pose proof (Hd _ _ Hr) as Rr. pose proof (Hd _ _ Hg) as Rg.
  pose proof (Hd _ _ Hb) as Rb. pose proof (Hd _ _ Ha) as Ra.
  assert (Hp : p < length px / 4).
  { apply pixel_slot. now apply lookup_lt_Some in Ha. }
  destruct (cmyk_lookup px p Hp) as (Hc & Hm & Hy & Hk).
  rewrite Hc, Hm, Hy.
  destruct (Z.eq_dec a 0%Z) as [-> | Hnz].
  { rewrite (cmyk_values_transparent px (4 * p) Ha). done. }
  destruct (cmyk_values_visible px (4 * p) r g b a Hr Hg Hb Ha Rr Rg Rb)
    as (m & c' & m' & y' & -> & Rc & Rm & Ry & Rmx & Mr & Mg & Mb
        & Hmax & Zc & Zm & Zy); [lia|].
  assert (Hdiv : forall u v : Z, (u <= v)%Z ->
            (inject_Z u / 255 <= inject_Z v / 255)%Q).
  { intros u v Huv. apply Qmult_le_compat_r; [|discriminate].
    now rewrite <- Zle_Qle. }
  cbn [sel_c sel_m sel_y fst snd].
  repeat split; intros H1 H2; f_equal.
  - assert (E : (c' == 0)%Q).
    { apply Zc. pose proof (Hdiv _ _ H1). pose proof (Hdiv _ _ H2).
      destruct Hmax as [-> | [-> | ->]]; lra. }
    rewrite (ToUint8Clamp_proper _ 0); [reflexivity|]. rewrite E. ring.
  - assert (E : (m' == 0)%Q).
    { apply Zm. pose proof (Hdiv _ _ H1). pose proof (Hdiv _ _ H2).
      destruct Hmax as [-> | [-> | ->]]; lra. }
    rewrite (ToUint8Clamp_proper _ 0); [reflexivity|]. rewrite E. ring.
  - assert (E : (y' == 0)%Q).
    { apply Zy. pose proof (Hdiv _ _ H1). pose proof (Hdiv _ _ H2).
      destruct Hmax as [-> | [-> | ->]]; lra. }
    rewrite (ToUint8Clamp_proper _ 0); [reflexivity|]. rewrite E. ring.
Qed.

Lemma scaled_le_alpha (c : Q) (a : Z) :
  (0 <= c <= 1)%Q -> (0 <= a <= 255)%Z ->
  (ToUint8Clamp (Fin (c * 255 * (inject_Z a / 255))) <= a)%Z.
Proof.
  intros Hc Ha. apply ToUint8Clamp_le; [|exact Ha].
  assert (E : (c * 255 * (inject_Z a / 255) == c * inject_Z a)%Q) by field.
  rewrite E. pose proof (inject_Z_byte a Ha). nra.
Qed.

(** X8. No channel gets more ink than the pixel has alpha: each of the
    four densities of a pixel is at most its alpha. *)
Theorem cmyk_ink_at_most_alpha (px : list Z) (p : nat) (r g b a : Z) :
  is_bytes px ->
  px !! (4 * p) = Some r -> px !! (4 * p + 1) = Some g ->
  px !! (4 * p + 2) = Some b -> px !! (4 * p + 3) = Some a ->
  exists c m y k,
    cArr (cmyk px) !! p = Some c /\ mArr (cmyk px) !! p = Some m
    /\ yArr (cmyk px) !! p = Some y /\ kArr (cmyk px) !! p = Some k
    /\ (c <= a)%Z /\ (m <= a)%Z /\ (y <= a)%Z /\ (k <= a)%Z.
Proof.
  intros Hd Hr Hg Hb Ha.
  unfold is_bytes in Hd. rewrite Forall_lookup in Hd.
  pose proof (Hd _ _ Hr) as Rr. pose proof (Hd _ _ Hg) as Rg.
  pose proof (Hd _ _ Hb) as Rb. pose proof (Hd _ _ Ha) as Ra.
  assert (Hp : p < length px / 4).
  { apply pixel_slot. now apply lookup_lt_Some in Ha. }
  destruct (cmyk_lookup px p Hp) as (Hc & Hm & Hy & Hk).
  rewrite Hc, Hm, Hy, Hk.
  destruct (Z.eq_dec a 0%Z) as [-> | Hnz].
  { rewrite (cmyk_values_transparent px (4 * p) Ha).
    exists 0%Z, 0%Z, 0%Z, 0%Z. repeat split; lia. }
  destruct (cmyk_values_visible px (4 * p) r g b a Hr Hg Hb Ha Rr Rg Rb)
    as (mx & c' & m' & y' & -> & Rc & Rm & Ry & Rmx & _); [lia|].
  cbn [sel_c sel_m sel_y sel_k fst snd].
  do 4 eexists. repeat split; try reflexivity;
    apply scaled_le_alpha; (assumption || lra).
Qed.

(** X9. For an opaque pixel the Key density is 255 minus its largest
    colour component. *)
Theorem cmyk_key_of_opaque_pixel (px : list Z) (p : nat) (r g b : Z) :
  is_bytes px ->
  px !! (4 * p) = Some r -> px !! (4 * p + 1) = Some g ->
  px !! (4 * p + 2) = Some b -> px !! (4 * p + 3) = Some 255%Z ->
  kArr (cmyk px) !! p = Some (255 - Z.max r (Z.max g b))%Z.
Proof.
  intros Hd Hr Hg Hb Ha.
  unfold is_bytes in Hd. rewrite Forall_lookup in Hd.
  pose proof (Hd _ _ Hr) as Rr. pose proof (Hd _ _ Hg) as Rg.
  pose proof (Hd _ _ Hb) as Rb.
  assert (Hp : p < length px / 4).
  { apply pixel_slot. now apply lookup_lt_Some in Ha. }
  destruct (cmyk_lookup px p Hp) as (_ & _ & _ & ->).
  destruct (cmyk_values_visible px (4 * p) r g b 255 Hr Hg Hb Ha Rr Rg Rb)
    as (mx & c' & m' & y' & -> & _ & _ & _ & Rmx & Mr & Mg & Mb & Hmax & _);
    [lia|].
  cbn [sel_k snd]. f_equal.
  set (M := Z.max r (Z.max g b)).
  assert (HM : (mx == inject_Z M / 255)%Q).
  { assert (Hdiv : forall u v : Z, (inject_Z u / 255 <= inject_Z v / 255)%Q ->
              (u <= v)%Z).
    { intros u v Huv. rewrite Zle_Qle.
      apply (Qmult_le_r _ _ (/ 255)); [reflexivity|exact Huv]. }
    assert (HMr : (M = r \/ M = g \/ M = b)%Z) by (unfold M; lia).
    assert (E : (M = r /\ mx = inject_Z r / 255
                 \/ M = g /\ mx = inject_Z g / 255
                 \/ M = b /\ mx = inject_Z b / 255)%Q).
    { destruct Hmax as [E | [E | E]]; rewrite E in Mr, Mg, Mb;
        apply Hdiv in Mr, Mg, Mb; unfold M; [left|right; left|right; right];
        (split; [lia|exact E]). }
    destruct E as [[-> ->] | [[-> ->] | [-> ->]]]; reflexivity. }
  rewrite (ToUint8Clamp_proper _ (inject_Z (255 - M))).
  - apply ToUint8Clamp_byte. unfold M. lia.
  - rewrite HM. unfold Z.sub. rewrite inject_Z_plus, inject_Z_opp. field.
Qed.

End CmykMore.

(** ** Further properties of the spot-colour separator *)

Section SpotMore.

Variable powQ : Q -> Q -> Q.
Variable sqrtQ : Q -> Q.

Local Open Scope nat_scope.

Lemma spot_value_transparent (target : Target) (px : list Z) (i : nat) :
  px !! (i + 3) = Some 0%Z -> spot_value powQ sqrtQ target px i = None.
Proof.
  intros Ha. unfold spot_value. now rewrite (get_Some _ _ _ Ha).
Qed.

(** X10. A pixel with alpha 0 gets density 0 in the channel of every
    configured spot colour. *)
Theorem spot_transparent_pixel (px : list Z) (spotColors : list SpotColor)
    (idx : nat) (sc : SpotColor) (p : nat) :
  spotColors !! idx = Some sc ->
  px !! (4 * p + 3) = Some 0%Z ->
  exists ch,
    spot powQ sqrtQ px spotColors !! idx = Some ch /\ ch !! p = Some 0%Z.
Proof.
  intros Hsc Ha.
  assert (Hp : p < length px / 4).
  { apply pixel_slot. now apply lookup_lt_Some in Ha. }
  destruct (spot_lookup powQ sqrtQ px spotColors idx sc p Hsc Hp)
    as (ch & Hch & Hv).
  exists ch. split; [done|].
  now rewrite Hv, (spot_value_transparent _ px (4 * p) Ha).
Qed.

Lemma add_NaN_r (x : num) : (x + NaN)%js = NaN.
Proof. now destruct x. Qed.

Lemma mul_NaN_l (x : num) : (NaN * x)%js = NaN.
Proof. now destruct x. Qed.

Lemma Math_pow_NaN_2 : Math_pow powQ NaN 2 = NaN.
Proof. reflexivity. Qed.

(** The similarity to a target one of whose channels did not parse. *)
Lemma similarity_unparsed (target : Target) (r g b : num) :
  t_r target = NaN \/ t_g target = NaN \/ t_b target = NaN ->
  similarity powQ sqrtQ target r g b = NaN.
Proof.
  intros H. unfold similarity.
  assert (Hd : (Math_pow powQ (t_r target - r) 2
                + Math_pow powQ (t_g target - g) 2
                + Math_pow powQ (t_b target - b) 2)%js = NaN).
  { destruct H as [-> | [-> | ->]].
    - change (NaN - r)%js with NaN. rewrite Math_pow_NaN_2. reflexivity.
    - change (NaN - g)%js with NaN. rewrite Math_pow_NaN_2.
      now rewrite add_NaN_r.
    - change (NaN - b)%js with NaN. rewrite Math_pow_NaN_2.
      now rewrite add_NaN_r. }
  rewrite Hd. reflexivity.
Qed.

(** X11. A spot colour whose hex code does not parse gives an empty
    channel: the density of every pixel is 0. *)
Theorem spot_unparsed_colour_is_empty (px : list Z)
    (spotColors : list SpotColor) (idx : nat) (sc : SpotColor) (p : nat) :
  spotColors !! idx = Some sc ->
  t_r (mkTarget sc) = NaN \/ t_g (mkTarget sc) = NaN
  \/ t_b (mkTarget sc) = NaN ->
  p < length px / 4 ->
  exists ch,
    spot powQ sqrtQ px spotColors !! idx = Some ch /\ ch !! p = Some 0%Z.
Proof.
  intros Hsc Hnan Hp.
  destruct (spot_lookup powQ sqrtQ px spotColors idx sc p Hsc Hp)
    as (ch & Hch & Hv).
  exists ch. split; [done|]. rewrite Hv. f_equal.
  unfold spot_value. destruct (seq _ _); [done|].
  rewrite (similarity_unparsed _ _ _ _ Hnan). now rewrite !mul_NaN_l.
Qed.

Lemma parseInt16_cases (s : string) :
  parseInt16 s = NaN \/ exists v, parseInt16 s = ofZ v.
Proof.
  unfold parseInt16. destruct (hex_prefix _ _); eauto.
Qed.

Lemma Math_pow_square (q : Q) :
  exists q', Math_pow powQ (Fin q) 2 = Fin q' /\ (0 <= q')%Q.
Proof.
  unfold Math_pow. change (Qeq_bool 2 0) with false. cbn iota.
  destruct (Qeq_bool q 0).
  - exists 0%Q. split; [reflexivity|]. lra.
  - exists (q * q)%Q. split; [reflexivity|]. nra.
Qed.

Lemma Math_pow_cube (s : Q) :
  (0 <= s <= 1)%Q ->
  exists q, Math_pow powQ (Fin s) 3 = Fin q /\ (0 <= q <= 1)%Q.
Proof.
  intros Hs. unfold Math_pow. change (Qeq_bool 3 0) with false. cbn iota.
  destruct (Qeq_bool s 0).
  - exists 0%Q. split; [reflexivity|]. lra.
  - change (is_int 3) with true. cbn iota. change (Qfloor 3) with 3%Z.
    eexists. split; [reflexivity|].
    change (s ^ 3)%Q with (s * (s * s))%Q.
    assert (0 <= s * s <= 1)%Q by nra. nra.
Qed.

Section Bounded.

(** What is used of [Math.sqrt]: a root is not negative. *)
Hypothesis sqrtQ_nonneg : forall x : Q, (0 < x)%Q -> (0 <= sqrtQ x)%Q.

Lemma Math_sqrt_nonneg (q : Q) :
  (0 <= q)%Q -> exists d, Math_sqrt sqrtQ (Fin q) = Fin d /\ (0 <= d)%Q.
Proof using sqrtQ_nonneg.
  intros Hq. unfold Math_sqrt.
  assert (H0 : Qltb q 0 = false) by now apply Qltb_ge.
  rewrite H0. destruct (Qeq_bool q 0) eqn:E.
  - exists 0%Q. split; [reflexivity|]. lra.
  - apply Qeq_bool_false in E. exists (sqrtQ q). split; [reflexivity|].
    apply sqrtQ_nonneg. destruct (Qle_lteq 0 q) as [Hx _].
    destruct (Hx Hq) as [Hpos|Hz]; [exact Hpos|].
    exfalso. apply E. now symmetry.
Qed.

(** The similarity is a number between 0 and 1. *)
Lemma similarity_unit (target : Target) (x y z r g b t : Q) :
  t_r target = Fin x -> t_g target = Fin y -> t_b target = Fin z ->
  threshold (t_spot target) = Fin t -> (0 <= t)%Q ->
  exists s, similarity powQ sqrtQ target (Fin r) (Fin g) (Fin b) = Fin s
            /\ (0 <= s <= 1)%Q.
Proof using sqrtQ_nonneg.
  intros Hx Hy Hz Ht Ht0. unfold similarity. rewrite Hx, Hy, Hz, Ht.
  fin_arith.
  destruct (Math_pow_square (x + - r)) as (q1 & -> & P1).
  destruct (Math_pow_square (y + - g)) as (q2 & -> & P2).
  destruct (Math_pow_square (z + - b)) as (q3 & -> & P3).
  fin_arith.
  destruct (Math_sqrt_nonneg (q1 + q2 + q3)) as (d & -> & Hd); [lra|].
  rewrite (div_Fin t) by discriminate. fin_arith.
  assert (Hs : (1 <= 1 + t / 20)%Q).
  { assert (0 <= t / 20)%Q by (apply Qle_shift_div_l; [reflexivity|lra]).
    lra. }
  rewrite (div_Fin 442) by lra.
  assert (Hm : (0 < 442 / (1 + t / 20))%Q).
  { apply Qlt_shift_div_l; lra. }
  rewrite (div_Fin d) by lra. fin_arith.
  assert (Hq : (0 <= d / (442 / (1 + t / 20)))%Q).
  { apply Qle_shift_div_l; [exact Hm|]. lra. }
  cbn [lt].
  destruct (Qltb (1 + - (d / (442 / (1 + t / 20)))) 0) eqn:E;
    [|apply Qltb_ge in E]; apply Math_pow_cube; lra.
Qed.

(** X12. No spot channel gets more ink than the pixel has alpha, for every
    threshold that is not negative. *)
Theorem spot_ink_at_most_alpha (px : list Z) (spotColors : list SpotColor)
    (idx : nat) (sc : SpotColor) (p : nat) (a : Z) (t : Q) :
  is_bytes px ->
  spotColors !! idx = Some sc ->
  threshold sc = Fin t -> (0 <= t)%Q ->
  px !! (4 * p + 3) = Some a ->
  exists ch v,
    spot powQ sqrtQ px spotColors !! idx = Some ch
    /\ ch !! p = Some v /\ (v <= a)%Z.
Proof using sqrtQ_nonneg.
  intros Hd Hsc Ht Ht0 Ha.
  assert (Hlen := lookup_lt_Some _ _ _ Ha).
  assert (Hp : p < length px / 4) by now apply pixel_slot.
  destruct (spot_lookup powQ sqrtQ px spotColors idx sc p Hsc Hp)
    as (ch & Hch & Hv).
  exists ch. eexists. split; [done|]. split; [exact Hv|].
  unfold is_bytes in Hd. rewrite Forall_lookup in Hd.
  pose proof (Hd _ _ Ha) as Ra.
  destruct (lookup_lt_is_Some_2 px (4 * p)) as [r Hr]; [lia|].
  destruct (lookup_lt_is_Some_2 px (4 * p + 1)) as [g Hg]; [lia|].
  destruct (lookup_lt_is_Some_2 px (4 * p + 2)) as [b Hb]; [lia|].
  unfold spot_value.
  rewrite (get_Some _ _ _ Hr), (get_Some _ _ _ Hg), (get_Some _ _ _ Hb),
    (get_Some _ _ _ Ha).
  destruct (seq _ _); [lia|].
  unfold ofZ. rewrite div_Fin by discriminate.
  destruct (parseInt16_cases (slice 1 3 (color sc))) as [Er | [x Er]];
    [rewrite similarity_unparsed by (left; exact Er);
     rewrite !mul_NaN_l; cbn; lia|].
  destruct (parseInt16_cases (slice 3 5 (color sc))) as [Eg | [y Eg]];
    [rewrite similarity_unparsed by (right; left; exact Eg);
     rewrite !mul_NaN_l; cbn; lia|].
  destruct (parseInt16_cases (slice 5 7 (color sc))) as [Eb | [z Eb]];
    [rewrite similarity_unparsed by (right; right; exact Eb);
     rewrite !mul_NaN_l; cbn; lia|].
  destruct (similarity_unit (mkTarget sc) (inject_Z x) (inject_Z y)
              (inject_Z z) (inject_Z r) (inject_Z g) (inject_Z b) t
              Er Eg Eb Ht Ht0) as (s & -> & Rs).
  fin_arith. now apply scaled_le_alpha.
Qed.

End Bounded.

End SpotMore.

(** ** The order of stored bytes *)

(** The conversion to a byte keeps the order. *)
Lemma ToUint8Clamp_mono (q1 q2 : Q) :
  (q1 <= q2)%Q -> (ToUint8Clamp (Fin q1) <= ToUint8Clamp (Fin q2))%Z.
Proof.
  intros H.
  pose proof (ToUint8Clamp_range (Fin q1)) as R1.
  pose proof (ToUint8Clamp_range (Fin q2)) as R2.
  destruct (Qle_bool q1 0) eqn:A1.
  { unfold ToUint8Clamp at 1. rewrite A1. lia. }
  apply Qle_bool_false in A1.
  assert (A2 : Qle_bool q2 0 = false) by (apply Qle_bool_false; lra).
  destruct (Qle_bool 255 q2) eqn:B2.
  { unfold ToUint8Clamp at 2. rewrite A2, B2. lia. }
  apply Qle_bool_false in B2.
  assert (B1 : Qle_bool 255 q1 = false) by (apply Qle_bool_false; lra).
  apply Qle_bool_false in A1, B2.
  clear R1 R2. unfold ToUint8Clamp. rewrite A1, A2, B1, B2. cbv zeta.
  assert (Hf : (Qfloor q1 <= Qfloor q2)%Z) by now apply Qfloor_resp_le.
  destruct (Z.eq_dec (Qfloor q1) (Qfloor q2)) as [E|NE].
  - rewrite <- E. qcases; try lia; try lra; destruct (Z.even _); lia.
  - repeat match goal with
           | |- context [if ?c then _ else _] => destruct c
           end; lia.
Qed.

(** ** The threshold of a spot colour *)

Section SpotThreshold.

Variable powQ : Q -> Q -> Q.
Variable sqrtQ : Q -> Q.

(** What is used of [Math.sqrt]: a root is not negative. *)
Hypothesis sqrtQ_nonneg : forall x : Q, (0 < x)%Q -> (0 <= sqrtQ x)%Q.

Local Open Scope nat_scope.

Lemma Math_pow_cube_eq (s : Q) :
  exists q, Math_pow powQ (Fin s) 3 = Fin q /\ (q == s * (s * s))%Q.
Proof using Type.
  unfold Math_pow. change (Qeq_bool 3 0) with false. cbn iota.
  destruct (Qeq_bool s 0) eqn:E.
  - apply Qeq_bool_iff in E. exists 0%Q. split; [reflexivity|].
    rewrite E. reflexivity.
  - change (is_int 3) with true. cbn iota. change (Qfloor 3) with 3%Z.
    eexists. split; [reflexivity|].
    change (s ^ 3)%Q with (s * (s * s))%Q. reflexivity.
Qed.

(** The clamped and sharpened similarity, as a function of the distance
    and the threshold. *)
Lemma sharpen_mono (d t1 t2 : Q) :
  (0 <= d)%Q -> (0 <= t1 <= t2)%Q ->
  exists s1 s2,
    Math_pow powQ
      (let s := (1 - Fin d / (442 / (1 + Fin t1 / 20)))%js in
       if lt s 0 then 0%js else s) 3 = Fin s1
    /\ Math_pow powQ
         (let s := (1 - Fin d / (442 / (1 + Fin t2 / 20)))%js in
          if lt s 0 then 0%js else s) 3 = Fin s2
    /\ (0 <= s2 <= s1)%Q.
Proof using Type.
  intros Hd [Ht1 Ht2]. cbv zeta.
  rewrite (div_Fin t1), (div_Fin t2) by discriminate. fin_arith.
  assert (K1 : (1 <= 1 + t1 / 20)%Q).
  { assert (0 <= t1 / 20)%Q by (apply Qle_shift_div_l; [reflexivity|lra]).
    lra. }
  assert (K2 : (1 <= 1 + t2 / 20)%Q).
  { assert (0 <= t2 / 20)%Q by (apply Qle_shift_div_l; [reflexivity|lra]).
    lra. }
  rewrite !(div_Fin 442) by lra.
  assert (M1 : (0 < 442 / (1 + t1 / 20))%Q) by (apply Qlt_shift_div_l; lra).
  assert (M2 : (0 < 442 / (1 + t2 / 20))%Q) by (apply Qlt_shift_div_l; lra).
  rewrite !(div_Fin d) by lra. fin_arith.
  assert (E1 : (d / (442 / (1 + t1 / 20)) == d * (20 + t1) * (1 # 8840))%Q)
    by (field; lra).
  assert (E2 : (d / (442 / (1 + t2 / 20)) == d * (20 + t2) * (1 # 8840))%Q)
    by (field; lra).
  set (u1 := (1 + - (d / (442 / (1 + t1 / 20))))%Q).
  set (u2 := (1 + - (d / (442 / (1 + t2 / 20))))%Q).
  assert (Hu : (u2 <= u1)%Q).
  { unfold u1, u2. rewrite E1, E2.
    assert (d * (20 + t1) <= d * (20 + t2))%Q by nra. lra. }
  assert (Hu1 : (u1 <= 1)%Q).
  { unfold u1. rewrite E1. assert (0 <= d * (20 + t1))%Q by nra. lra. }
  cbn [lt].
  assert (cube : forall c1 c2 : Q,
            (0 <= c2 <= c1)%Q ->
            (0 <= c2 * (c2 * c2) <= c1 * (c1 * c1))%Q).
  { intros c1 c2 Hc. assert (0 <= c2 * c2 <= c1 * c1)%Q by nra. nra. }
  destruct (Qltb u1 0) eqn:L1; [apply Qltb_lt in L1|apply Qltb_ge in L1];
    (destruct (Qltb u2 0) eqn:L2; [apply Qltb_lt in L2|apply Qltb_ge in L2]);
    try lra.
  - destruct (Math_pow_cube_eq 0) as (s & -> & Es).
    exists s, s. split; [done|]. split; [done|]. rewrite Es. lra.
  - destruct (Math_pow_cube_eq u1) as (s1 & -> & Es1).
    destruct (Math_pow_cube_eq 0) as (s2 & -> & Es2).
    exists s1, s2. split; [done|]. split; [done|]. rewrite Es1, Es2.
    pose proof (cube u1 0%Q). lra.
  - destruct (Math_pow_cube_eq u1) as (s1 & -> & Es1).
    destruct (Math_pow_cube_eq u2) as (s2 & -> & Es2).
    exists s1, s2. split; [done|]. split; [done|]. rewrite Es1, Es2.
    apply cube. lra.
Qed.

Lemma similarity_threshold_mono (tg1 tg2 : Target) (x y z r g b t1 t2 : Q) :
  t_r tg1 = Fin x -> t_g tg1 = Fin y -> t_b tg1 = Fin z ->
  t_r tg2 = Fin x -> t_g tg2 = Fin y -> t_b tg2 = Fin z ->
  threshold (t_spot tg1) = Fin t1 -> threshold (t_spot tg2) = Fin t2 ->
  (0 <= t1 <= t2)%Q ->
  exists s1 s2,
    similarity powQ sqrtQ tg1 (Fin r) (Fin g) (Fin b) = Fin s1
    /\ similarity powQ sqrtQ tg2 (Fin r) (Fin g) (Fin b) = Fin s2
    /\ (0 <= s2 <= s1)%Q.
Proof using sqrtQ_nonneg.
  intros X1 Y1 Z1 X2 Y2 Z2 T1 T2 Ht. unfold similarity.
  rewrite X1, Y1, Z1, X2, Y2, Z2, T1, T2. fin_arith.
  destruct (Math_pow_square powQ (x + - r)) as (q1 & -> & P1).
  destruct (Math_pow_square powQ (y + - g)) as (q2 & -> & P2).
  destruct (Math_pow_square powQ (z + - b)) as (q3 & -> & P3).
  fin_arith.
  destruct (Math_sqrt_nonneg sqrtQ sqrtQ_nonneg (q1 + q2 + q3))
    as (d & -> & Hd); [lra|].
  exact (sharpen_mono d t1 t2 Hd Ht).
Qed.

(** X13. Raising the threshold of a spot colour never adds ink: of two
    spot colours with the same hex code and thresholds [t1 <= t2] that are
    not negative, the one with the higher threshold gets at most the
    density of the other at every pixel. *)
Theorem spot_threshold_never_adds_ink (px : list Z)
    (colors1 colors2 : list SpotColor) (idx1 idx2 : nat)
    (sc1 sc2 : SpotColor) (t1 t2 : Q) (p : nat) :
  is_bytes px ->
  colors1 !! idx1 = Some sc1 -> colors2 !! idx2 = Some sc2 ->
  color sc1 = color sc2 ->
  threshold sc1 = Fin t1 -> threshold sc2 = Fin t2 -> (0 <= t1 <= t2)%Q ->
  p < length px / 4 ->
  exists ch1 ch2 v1 v2,
    spot powQ sqrtQ px colors1 !! idx1 = Some ch1
    /\ spot powQ sqrtQ px colors2 !! idx2 = Some ch2
    /\ ch1 !! p = Some v1 /\ ch2 !! p = Some v2 /\ (v2 <= v1)%Z.
Proof using sqrtQ_nonneg.
  intros Hd H1 H2 Hcol T1 T2 Ht Hp.
  destruct (spot_lookup powQ sqrtQ px colors1 idx1 sc1 p H1 Hp)
    as (ch1 & Hch1 & Hv1).
  destruct (spot_lookup powQ sqrtQ px colors2 idx2 sc2 p H2 Hp)
    as (ch2 & Hch2 & Hv2).
  exists ch1, ch2. do 2 eexists.
  split; [exact Hch1|]. split; [exact Hch2|].
  split; [exact Hv1|]. split; [exact Hv2|].
  assert (Hlen : 4 * p + 3 < length px).
  { pose proof (Nat.div_mod_eq (length px) 4).
    pose proof (Nat.mod_upper_bound (length px) 4). lia. }
  unfold is_bytes in Hd. rewrite Forall_lookup in Hd.
  destruct (lookup_lt_is_Some_2 px (4 * p)) as [r Hr]; [lia|].
  destruct (lookup_lt_is_Some_2 px (4 * p + 1)) as [g Hg]; [lia|].
  destruct (lookup_lt_is_Some_2 px (4 * p + 2)) as [b Hb]; [lia|].
  destruct (lookup_lt_is_Some_2 px (4 * p + 3)) as [a Ha]; [lia|].
  pose proof (Hd _ _ Ha) as Ra.
  unfold spot_value.
  rewrite (get_Some _ _ _ Hr), (get_Some _ _ _ Hg), (get_Some _ _ _ Hb),
    (get_Some _ _ _ Ha).
  destruct (seq _ _); [lia|].
  unfold ofZ. rewrite div_Fin by discriminate.
  assert (Hnan : forall sc, t_r (mkTarget sc) = NaN \/ t_g (mkTarget sc) = NaN
                            \/ t_b (mkTarget sc) = NaN ->
            forall c1 c2 c3 v w,
              ToUint8Clamp
                (similarity powQ sqrtQ (mkTarget sc) c1 c2 c3 * v * w)%js
              = 0%Z).
  { intros sc Hsc c1 c2 c3 v w.
    rewrite (similarity_unparsed powQ sqrtQ _ _ _ _ Hsc).
    now rewrite !mul_NaN_l. }
  assert (R1 : t_r (mkTarget sc2) = t_r (mkTarget sc1))
    by (cbn; now rewrite Hcol).
  assert (G1 : t_g (mkTarget sc2) = t_g (mkTarget sc1))
    by (cbn; now rewrite Hcol).
  assert (B1 : t_b (mkTarget sc2) = t_b (mkTarget sc1))
    by (cbn; now rewrite Hcol).
  destruct (parseInt16_cases (slice 1 3 (color sc1))) as [Er | [x Er]].
  { rewrite !Hnan; [lia| |]; rewrite ?R1; left; exact Er. }
  destruct (parseInt16_cases (slice 3 5 (color sc1))) as [Eg | [y Eg]].
  { rewrite !Hnan; [lia| |]; rewrite ?G1; right; left; exact Eg. }
  destruct (parseInt16_cases (slice 5 7 (color sc1))) as [Eb | [z Eb]].
  { rewrite !Hnan; [lia| |]; rewrite ?B1; right; right; exact Eb. }
  destruct (similarity_threshold_mono (mkTarget sc1) (mkTarget sc2)
              (inject_Z x) (inject_Z y) (inject_Z z)
              (inject_Z r) (inject_Z g) (inject_Z b) t1 t2)
    as (s1 & s2 & -> & -> & Hs); try done;
    try (rewrite ?R1, ?G1, ?B1; done).
  fin_arith. apply ToUint8Clamp_mono.
  destruct (byte_unit a Ra) as [Hal _].
  assert (s2 * 255 <= s1 * 255)%Q by lra.
  assert (0 <= s2 * 255)%Q by lra. nra.
Qed.

End SpotThreshold.

(** ** The shape of the density arrays and the raster encoder *)

Section Shapes.

Local Open Scope nat_scope.

Lemma writes_length (w : nat -> option num) (i : nat) (c : list Z) :
  length (writes w i c) = length c.
Proof. unfold writes. destruct (w i); [apply length_set|done]. Qed.

Lemma writes_bytes (w : nat -> option num) (i : nat) (c : list Z) :
  is_bytes c -> is_bytes (writes w i c).
Proof.
  unfold writes, is_bytes, set. intros Hc. destruct (w i) as [v|]; [|done].
  apply Forall_insert; [done|]. apply ToUint8Clamp_range.
Qed.

(** A property of the state that every iteration keeps holds after the
    loop. *)
Lemma for4_invariant {St : Type} (P : St -> Prop) (body : nat -> St -> St) :
  (forall i s, P s -> P (body i s)) ->
  forall fuel i len s, P s -> P (for4 fuel i len body s).
Proof.
  intros H. induction fuel as [|f IH]; intros i len s Hs; cbn [for4]; [done|].
  destruct (i <? len); [|done]. apply IH, H, Hs.
Qed.

Lemma new_array_bytes (n : nat) : is_bytes (new_array n).
Proof. unfold is_bytes, new_array. apply Forall_replicate. lia. Qed.

Lemma writes_loop_density (px : list Z) (w : nat -> option num) :
  density_of px
    (for4 (length px) 0 (length px) (writes w) (new_array (length px / 4))).
Proof.
  apply (for4_invariant (density_of px)).
  - intros i s [Hl Hb]. split; [now rewrite writes_length|].
    now apply writes_bytes.
  - split; [apply length_replicate|apply new_array_bytes].
Qed.

Lemma whiteBase_density (px : list Z) : density_of px (whiteBase px).
Proof.
  unfold whiteBase.
  rewrite (for4_ext _ (writes (fun i =>
             Some (if scanTransparency (length px) 0 px
                   then get px (i + 3)
                   else 255 - (Fin 0.299 * get px i
                               + Fin 0.587 * get px (i + 1)
                               + Fin 0.114 * get px (i + 2)))%js)))
    by reflexivity.
  apply writes_loop_density.
Qed.

Lemma cmyk_density (px : list Z) :
  density_of px (cArr (cmyk px)) /\ density_of px (mArr (cmyk px))
  /\ density_of px (yArr (cmyk px)) /\ density_of px (kArr (cmyk px)).
Proof.
  unfold cmyk. cbv zeta.
  assert (H : forall (proj : CMYK -> list Z) sel,
             (forall i s, proj (cmyk_body px i s) =
                          writes (fun i => sel <$> cmyk_values px i) i (proj s)) ->
             proj {| cArr := new_array (length px / 4);
                     mArr := new_array (length px / 4);
                     yArr := new_array (length px / 4);
                     kArr := new_array (length px / 4) |}
             = new_array (length px / 4) ->
             density_of px
               (proj (for4 (length px) 0 (length px) (cmyk_body px)
                        {| cArr := new_array (length px / 4);
                           mArr := new_array (length px / 4);
                           yArr := new_array (length px / 4);
                           kArr := new_array (length px / 4) |}))).
  { intros proj sel Hproj Hinit.
    rewrite (for4_proj proj _ _ Hproj), Hinit. apply writes_loop_density. }
  split; [apply (H cArr sel_c)|split; [apply (H mArr sel_m)|split;
    [apply (H yArr sel_y)|apply (H kArr sel_k)]]]; try reflexivity;
    intros i s; unfold cmyk_body, writes;
    destruct (cmyk_values px i) as [[[[c m] y] k]|]; reflexivity.
Qed.

End Shapes.

Section SpotShape.

Variable powQ : Q -> Q -> Q.
Variable sqrtQ : Q -> Q.

Local Open Scope nat_scope.

Lemma forEach_from_length {A : Type} (g : A -> list Z -> list Z) (l : list A)
    (k : nat) (chs : list (list Z)) :
  length (forEach_from k l
            (fun t idx chs =>
               match chs !! idx with
               | Some ch => <[ idx := g t ch ]> chs
               | None => chs
               end) chs) = length chs.
Proof.
  revert k chs. induction l as [|t l IH]; intros k chs; cbn [forEach_from].
  - done.
  - rewrite IH. destruct (chs !! k); [apply length_insert|done].
Qed.

Lemma spot_body_length (px : list Z) (targets : list Target) (i : nat)
    (channels : list (list Z)) :
  length (spot_body powQ sqrtQ px targets i channels) = length channels.
Proof.
  unfold spot_body. destruct (seq _ _); [done|].
  unfold forEach.
  apply (forEach_from_length
           (fun t ch =>
              set ch (i / 4)
                (similarity powQ sqrtQ t (get px i) (get px (i + 1))
                   (get px (i + 2)) * 255 * (get px (i + 3) / 255))%js)).
Qed.

Lemma spot_length (px : list Z) (spotColors : list SpotColor) :
  length (spot powQ sqrtQ px spotColors) = length spotColors.
Proof.
  unfold spot. cbv zeta.
  rewrite (for4_invariant
             (fun chs => length chs = length spotColors)
             (spot_body powQ sqrtQ px (map mkTarget spotColors))).
  - done.
  - intros i s Hs. now rewrite spot_body_length.
  - now rewrite !length_map.
Qed.

Lemma spot_channel (px : list Z) (spotColors : list SpotColor) (idx : nat)
    (sc : SpotColor) :
  spotColors !! idx = Some sc ->
  spot powQ sqrtQ px spotColors !! idx =
  Some (for4 (length px) 0 (length px)
          (writes (spot_value powQ sqrtQ (mkTarget sc) px))
          (new_array (length px / 4))).
Proof.
  intros Hsc. unfold spot. cbv zeta.
  assert (Ht : map mkTarget spotColors !! idx = Some (mkTarget sc)).
  { change (map mkTarget spotColors) with (mkTarget <$> spotColors).
    now rewrite list_lookup_fmap, Hsc. }
  rewrite (for4_proj (fun chs => chs !! idx) _
             (fun i o => writes (spot_value powQ sqrtQ (mkTarget sc) px) i <$> o))
    by (intros i s; now apply spot_body_lookup).
  rewrite for4_fmap.
  change (map ?f (map mkTarget spotColors))
    with (f <$> (mkTarget <$> spotColors)).
  now rewrite !list_lookup_fmap, Hsc.
Qed.

Lemma spot_density (px : list Z) (spotColors : list SpotColor) :
  Forall (density_of px) (spot powQ sqrtQ px spotColors).
Proof.
  apply Forall_lookup. intros idx ch Hch.
  assert (Hidx : idx < length spotColors).
  { rewrite <- (spot_length px). now apply lookup_lt_Some in Hch. }
  destruct (lookup_lt_is_Some_2 spotColors idx Hidx) as [sc Hsc].
  rewrite (spot_channel px spotColors idx sc Hsc) in Hch.
  injection Hch as <-. apply writes_loop_density.
Qed.

(** X14. Every separator returns density arrays with one byte for each
    whole pixel of the buffer: the white underbase one, the CMYK separator
    four, the spot separator one for each configured colour. *)
Theorem separators_one_byte_per_pixel (px : list Z)
    (spotColors : list SpotColor) :
  density_of px (whiteBase px)
  /\ (density_of px (cArr (cmyk px)) /\ density_of px (mArr (cmyk px))
      /\ density_of px (yArr (cmyk px)) /\ density_of px (kArr (cmyk px)))
  /\ length (spot powQ sqrtQ px spotColors) = length spotColors
  /\ Forall (density_of px) (spot powQ sqrtQ px spotColors).
Proof.
  split; [apply whiteBase_density|]. split; [apply cmyk_density|].
  split; [apply spot_length|apply spot_density].
Qed.

End SpotShape.

(** ** The raster encoder *)

Section Encoder.

Local Open Scope nat_scope.

Lemma set_app_r (l1 l2 : list Z) (i j : nat) (x : num) :
  i = length l1 + j -> set (l1 ++ l2) i x = l1 ++ set l2 j x.
Proof. intros ->. apply insert_app_r. Qed.

Lemma length_flat_map_ink (l : list Z) :
  length (flat_map ink l) = 4 * length l.
Proof.
  induction l as [|x l IH]; cbn [flat_map]; [done|].
  rewrite length_app. cbn [ink length]. lia.
Qed.

Lemma createChannelImage_loop (done todo : list Z) (fuel : nat) :
  is_bytes (done ++ todo) -> length todo <= fuel ->
  for1 fuel (length done) (length (done ++ todo))
       (createChannelImage_body (done ++ todo))
       (flat_map ink done ++ replicate (4 * length todo) 0%Z)
  = flat_map ink (done ++ todo).
Proof.
  revert done fuel. induction todo as [|x todo IH]; intros done fuel Hb Hf.
  - rewrite app_nil_r. cbn [length replicate]. rewrite app_nil_r.
    destruct fuel as [|f]; cbn [for1]; [done|].
    destruct (Nat.ltb_spec (length done) (length done)); [lia|done].
  - destruct fuel as [|f]; [cbn in Hf; lia|]. cbn [for1].
    destruct (Nat.ltb_spec (length done) (length (done ++ x :: todo)))
      as [_|Hge]; [|rewrite length_app in Hge; cbn in Hge; lia].
    assert (Hx : (done ++ x :: todo) !! length done = Some x).
    { rewrite lookup_app_r by lia. now rewrite Nat.sub_diag. }
    assert (Rx : (0 <= x <= 255)%Z).
    { unfold is_bytes in Hb. rewrite Forall_lookup in Hb. exact (Hb _ _ Hx). }
    assert (Hbody :
      createChannelImage_body (done ++ x :: todo) (length done)
        (flat_map ink done ++ replicate (4 * length (x :: todo)) 0%Z)
      = flat_map ink (done ++ [x]) ++ replicate (4 * length todo) 0%Z).
    { unfold createChannelImage_body. cbv zeta.
      rewrite (get_Some _ _ _ Hx).
      replace (4 * length (x :: todo)) with (4 + 4 * length todo)
        by (cbn [length]; lia).
      cbn [replicate Nat.add].
      rewrite (set_app_r _ _ _ 0) by (rewrite length_flat_map_ink; lia).
      rewrite (set_app_r _ _ _ 1) by (rewrite length_flat_map_ink; lia).
      rewrite (set_app_r _ _ _ 2) by (rewrite length_flat_map_ink; lia).
      rewrite (set_app_r _ _ _ 3) by (rewrite length_flat_map_ink; lia).
      unfold set. cbn [insert list_insert].
      change (ToUint8Clamp 0) with 0%Z. rewrite ToUint8Clamp_byte by done.
      rewrite flat_map_app. cbn [flat_map ink app].
      now rewrite <- app_assoc. }
    rewrite Hbody.
    replace (length done + 1) with (length (done ++ [x]))
      by (rewrite length_app; cbn; lia).
    replace (done ++ x :: todo) with ((done ++ [x]) ++ todo)
      by (now rewrite <- app_assoc).
    apply IH.
    + now rewrite <- app_assoc.
    + cbn in Hf. lia.
Qed.

Lemma createChannelImage_flat (width height : Z) (densityData : list Z)
    (colorHex : string) :
  is_bytes densityData ->
  Z.of_nat (length densityData) = (width * height)%Z ->
  createChannelImage width height densityData colorHex
  = flat_map ink densityData.
Proof.
  intros Hb Hlen. unfold createChannelImage, createImageData, new_array.
  replace (Z.to_nat (width * height * 4)) with (4 * length densityData)
    by lia.
  apply (createChannelImage_loop [] densityData); [done|lia].
Qed.

Lemma flat_map_ink_alpha (l : list Z) (i : nat) :
  flat_map ink l !! (4 * i + 3) = l !! i.
Proof.
  revert i. induction l as [|y l IH]; intros i; [done|].
  destruct i as [|i]; cbn [flat_map ink app]; [done|].
  replace (4 * S i + 3) with (S (S (S (S (4 * i + 3))))) by lia.
  cbn. apply IH.
Qed.

(** X15. For a density array with one byte for each pixel of the raster,
    [createChannelImage] gives the raster whose pixels are black with the
    densities as alpha, whatever colour is passed: the raster has four
    bytes for each density, its colour bytes are 0 and its alpha bytes are
    the densities. *)
Theorem createChannelImage_encodes (width height : Z) (densityData : list Z)
    (colorHex : string) :
  is_bytes densityData ->
  Z.of_nat (length densityData) = (width * height)%Z ->
  let raster := createChannelImage width height densityData colorHex in
  length raster = 4 * length densityData
  /\ forall i, i < length densityData ->
       raster !! (4 * i) = Some 0%Z /\ raster !! (4 * i + 1) = Some 0%Z
       /\ raster !! (4 * i + 2) = Some 0%Z
       /\ raster !! (4 * i + 3) = densityData !! i.
Proof.
  intros Hb Hlen raster. unfold raster.
  rewrite (createChannelImage_flat _ _ _ _ Hb Hlen). clear.
  split; [apply length_flat_map_ink|].
  induction densityData as [|y l IH]; intros i Hi; [cbn in Hi; lia|].
  destruct i as [|i]; cbn [flat_map ink app]; [done|].
  replace (4 * S i) with (S (S (S (S (4 * i))))) by lia.
  cbn in Hi |- *. apply IH. lia.
Qed.

End Encoder.

(** ** More on the dominant colours *)

Section DominantMore.

Variable powQ : Q -> Q -> Q.
Variable sqrtQ : Q -> Q.

Local Open Scope nat_scope.

Lemma sort_insert_Permutation {A : Type} (cmp : A -> A -> Z) (x : A)
    (l : list A) :
  sort_insert cmp x l ≡ₚ x :: l.
Proof.
  induction l as [|y l IH]; cbn [sort_insert]; [done|].
  destruct (cmp x y <=? 0)%Z; [done|].
  rewrite IH. apply perm_swap.
Qed.

Lemma Array_sort_Permutation {A : Type} (cmp : A -> A -> Z) (l : list A) :
  Array_sort cmp l ≡ₚ l.
Proof.
  unfold Array_sort. induction l as [|x l IH]; cbn [foldr]; [done|].
  rewrite sort_insert_Permutation. now constructor.
Qed.

Lemma sortedColors_Permutation (cc : list (string * Z)) :
  sortedColors cc ≡ₚ cc.*1.
Proof.
  unfold sortedColors.
  change (map fst (Array_sort by_count cc))
    with ((Array_sort by_count cc).*1).
  now rewrite Array_sort_Permutation.
Qed.

Lemma count_of_keys (cc : list (string * Z)) (k : string) :
  count_of cc k <> 0%Z -> k ∈ cc.*1.
Proof.
  induction cc as [|[k0 n0] cc IH]; cbn [count_of]; [done|].
  destruct (String.eqb_spec k0 k) as [->|Hne]; intros H; cbn.
  - left.
  - right. now apply IH.
Qed.

Lemma histogram_count_of (d : list Z) (n : nat) (k : string) :
  length d = 4 * n -> count_of (histogram d) k = frequency d k.
Proof.
  intros Hlen. unfold histogram. rewrite Hlen.
  pose proof (for4_seq (histogram_body d) n (4 * n) 0 []) as Hfold.
  change (4 * 0) with 0 in Hfold. rewrite Hfold by lia. clear Hfold.
  rewrite Nat.sub_0_r.
  destruct (histogram_fold d (List.seq 0 n) [] (NoDup_nil_2)) as (_ & H2 & _).
  rewrite H2. unfold frequency. rewrite Hlen.
  replace (4 * n / 4) with n
    by (symmetry; rewrite Nat.mul_comm; apply Nat.div_mul; lia).
  cbn [count_of]. lia.
Qed.

Lemma frequency_counted (d : list Z) (n p : nat) (k : string) :
  length d = 4 * n -> p < n -> pixel_key d (4 * p) = Some k ->
  (1 <= frequency d k)%Z.
Proof.
  intros Hlen Hp Hk. unfold frequency. rewrite Hlen.
  replace (4 * n / 4) with n
    by (symmetry; rewrite Nat.mul_comm; apply Nat.div_mul; lia).
  assert (Hin : In p (List.filter (counts_as d k) (List.seq 0 n))).
  { apply filter_In. split; [apply in_seq; lia|].
    unfold counts_as. rewrite Hk. apply String.eqb_refl. }
  destruct (List.filter _ _); [destruct Hin|]. cbn [length]. lia.
Qed.

Lemma histogram_keys (d : list Z) (n : nat) (k : string) :
  length d = 4 * n ->
  k ∈ (histogram d).*1 <-> exists p, p < n /\ pixel_key d (4 * p) = Some k.
Proof.
  intros Hlen. split.
  - intros Hk. destruct (histogram_spec d n Hlen) as (_ & _ & H). now apply H.
  - intros (p & Hp & Hk). apply count_of_keys.
    rewrite (histogram_count_of d n k Hlen).
    pose proof (frequency_counted d n p k Hlen Hp Hk). lia.
Qed.

Lemma selectDistinct_head (c : Z) (c0 : string) (rest : list string) :
  (1 <= c)%Z ->
  exists rest', rest' `sublist_of` rest
    /\ selectDistinct powQ sqrtQ (ofZ c) (c0 :: rest) [] = c0 :: rest'.
Proof.
  intros Hc. cbn [selectDistinct length]. unfold ge, le, ofZ.
  rewrite Qle_bool_inject.
  destruct (Z.leb_spec c (Z.of_nat 0)); [lia|].
  cbn [isDistinct forallb app].
  destruct (selectDistinct_sublist powQ sqrtQ (Fin (inject_Z c)) rest [c0])
    as (r & Hr & ->).
  now exists r.
Qed.

Lemma selectDistinct_none (c : Z) (sorted : list string) :
  (c <= 0)%Z -> selectDistinct powQ sqrtQ (ofZ c) sorted [] = [].
Proof.
  intros Hc. destruct sorted as [|c0 rest]; cbn [selectDistinct length];
    [done|].
  unfold ge, le, ofZ. rewrite Qle_bool_inject.
  destruct (Z.leb_spec c (Z.of_nat 0)); [done|lia].
Qed.

(** X16. For the whole pixels of the sampled canvas and an integer
    [count], the extractor returns no colour exactly when [count] is not
    positive or no pixel has alpha 128 or more. *)
Theorem dominant_colors_empty_iff (d : list Z) (n : nat) (c : Z) :
  length d = 4 * n ->
  extractDominantColors powQ sqrtQ d (ofZ c) = []
  <-> (c <= 0)%Z \/ forall p, p < n -> pixel_key d (4 * p) = None.
Proof.
  intros Hlen. unfold extractDominantColors. split.
  - intros Hres. destruct (Z.le_gt_cases c 0) as [Hc|Hc]; [now left|right].
    destruct (sortedColors (histogram d)) as [|c0 rest] eqn:Es.
    + intros p Hp. destruct (pixel_key d (4 * p)) as [k|] eqn:Ek; [|done].
      assert (Hk : k ∈ (histogram d).*1)
        by (apply (histogram_keys d n k Hlen); eauto).
      rewrite <- sortedColors_Permutation, Es in Hk.
      now apply elem_of_nil in Hk.
    + destruct (selectDistinct_head c c0 rest) as (r & _ & E); [lia|].
      rewrite E in Hres. discriminate.
  - intros [Hc|Hnone]; [now apply selectDistinct_none|].
    destruct (sortedColors (histogram d)) as [|c0 rest] eqn:Es; [done|].
    assert (Hk : c0 ∈ (histogram d).*1).
    { rewrite <- sortedColors_Permutation, Es. left. }
    apply (histogram_keys d n c0 Hlen) in Hk as (p & Hp & Hk).
    rewrite (Hnone p Hp) in Hk. discriminate.
Qed.

(** X17. When a colour is asked for and some pixel has alpha 128 or more,
    the first colour returned is a most frequent quantised colour of the
    sampled canvas. *)
Theorem dominant_first_is_most_frequent (d : list Z) (n p : nat) (c : Z) :
  length d = 4 * n -> (1 <= c)%Z -> p < n -> pixel_key d (4 * p) <> None ->
  exists c0,
    extractDominantColors powQ sqrtQ d (ofZ c) !! 0 = Some c0
    /\ forall k, (frequency d k <= frequency d c0)%Z.
Proof.
  intros Hlen Hc Hp Hkey. unfold extractDominantColors.
  destruct (pixel_key d (4 * p)) as [kp|] eqn:Ek; [clear Hkey|done].
  assert (Hkp : kp ∈ sortedColors (histogram d)).
  { rewrite sortedColors_Permutation. apply (histogram_keys d n kp Hlen).
    eauto. }
  pose proof (sortedColors_sorted d n Hlen) as Hs.
  destruct (sortedColors (histogram d)) as [|c0 rest] eqn:Es;
    [now apply elem_of_nil in Hkp|].
  destruct (selectDistinct_head c c0 rest Hc) as (r & _ & ->).
  exists c0. split; [done|]. intros k.
  apply StronglySorted_cons in Hs as [Hrest _].
  destruct (Z.eq_dec (frequency d k) 0%Z) as [E0|Hne].
  - rewrite E0. unfold frequency. lia.
  - assert (Hk : k ∈ c0 :: rest).
    { rewrite <- Es, sortedColors_Permutation. apply count_of_keys.
      now rewrite (histogram_count_of d n k Hlen). }
    apply elem_of_cons in Hk as [->|Hk]; [lia|].
    rewrite Forall_forall in Hrest. now apply Hrest.
Qed.

(** X18. The extractor returns no colour twice, and every colour it
    returns is the key of a pixel of the sampled canvas with alpha 128 or
    more, so that its frequency is at least 1. *)
Theorem dominant_colors_are_counted_keys (d : list Z) (n : nat)
    (count : num) :
  length d = 4 * n ->
  let result := extractDominantColors powQ sqrtQ d count in
  NoDup result
  /\ forall k, k ∈ result ->
       (exists p, p < n /\ pixel_key d (4 * p) = Some k)
       /\ (1 <= frequency d k)%Z.
Proof.
  intros Hlen result. unfold extractDominantColors in result.
  destruct (selectDistinct_sublist powQ sqrtQ count
              (sortedColors (histogram d)) []) as (rest & Hsub & Hres).
  cbn [app] in Hres. fold result in Hres. rewrite Hres. split.
  - apply (sublist_NoDup rest (sortedColors (histogram d))); [|exact Hsub].
    rewrite sortedColors_Permutation.
    now destruct (histogram_spec d n Hlen) as (H & _).
  - intros k Hk.
    assert (Hp : exists p, p < n /\ pixel_key d (4 * p) = Some k).
    { apply (histogram_keys d n k Hlen).
      rewrite <- sortedColors_Permutation.
      eapply elem_of_sublist; [exact Hk|exact Hsub]. }
    split; [exact Hp|]. destruct Hp as (p & Hp & Hpk).
    now apply (frequency_counted d n p k Hlen Hp).
Qed.

End DominantMore.

Section KeysMore.

Lemma quantize_near :
  forallb near_check (map Z.of_nat (List.seq 0 256)) = true.
Proof. vm_compute. reflexivity. Qed.

Lemma quantize_byte_near (b : Z) :
  0 <= b <= 255 ->
  exists l, In l levels /\ quantize (ofZ b) = ofZ l /\ Z.abs (l - b) <= 12.
Proof.
  intros Hb. destruct (quantize_byte b Hb) as (l & Hl & E).
  exists l. split; [done|]. split; [done|].
  pose proof quantize_near as H. rewrite forallb_forall in H.
  assert (Hn : near_check b = true).
  { apply H. apply in_map_iff. exists (Z.to_nat b).
    split; [lia|]. apply in_seq. lia. }
  unfold near_check in Hn. rewrite E in Hn. cbn [toZ ofZ] in Hn.
  revert Hn. unfold ofZ, toZ, inject_Z. cbn. intros Hn.
  now apply Z.leb_le in Hn.
Qed.

(** The key of a pixel with alpha 128 or more stands for channels within
    12 of the pixel's. *)
Lemma pixel_key_near (d : list Z) (p : nat) (k : string) (n : nat) :
  is_bytes d -> length d = (4 * n)%nat -> (p < n)%nat ->
  pixel_key d (4 * p) = Some k ->
  exists r g b a r' g' b',
    d !! (4 * p)%nat = Some r /\ d !! (4 * p + 1)%nat = Some g
    /\ d !! (4 * p + 2)%nat = Some b /\ d !! (4 * p + 3)%nat = Some a
    /\ 128 <= a
    /\ channels_of k r' g' b'
    /\ Z.abs (r' - r) <= 12 /\ Z.abs (g' - g) <= 12 /\ Z.abs (b' - b) <= 12.
Proof.
  intros Hd Hlen Hp. unfold pixel_key.
  unfold is_bytes in Hd. rewrite Forall_lookup in Hd.
  destruct (lookup_lt_is_Some_2 d (4 * p)) as [r Hr]; [lia|].
  destruct (lookup_lt_is_Some_2 d (4 * p + 1)) as [g Hg]; [lia|].
  destruct (lookup_lt_is_Some_2 d (4 * p + 2)) as [b Hb]; [lia|].
  destruct (lookup_lt_is_Some_2 d (4 * p + 3)) as [a Ha]; [lia|].
  rewrite (get_Some _ _ _ Hr), (get_Some _ _ _ Hg), (get_Some _ _ _ Hb),
    (get_Some _ _ _ Ha).
  change 128%js with (ofZ 128). rewrite lt_ofZ.
  destruct (Z.ltb_spec a 128) as [|Ha128]; [discriminate|]. intros [= <-].
  destruct (quantize_byte_near r (Hd _ _ Hr)) as (r' & Lr & -> & Nr).
  destruct (quantize_byte_near g (Hd _ _ Hg)) as (g' & Lg & -> & Ng).
  destruct (quantize_byte_near b (Hd _ _ Hb)) as (b' & Lb & -> & Nb).
  exists r, g, b, a, r', g', b'.
  repeat (split; [done|]). split; [now apply hexOf_channels|done].
Qed.

End KeysMore.

Section DominantNear.

Variable powQ : Q -> Q -> Q.
Variable sqrtQ : Q -> Q.

(** X19. Every colour the extractor returns is, in each channel, within 12
    of a pixel of the sampled canvas that has alpha 128 or more. *)
Theorem dominant_colors_near_a_pixel (d : list Z) (n : nat) (count : num)
    (k : string) :
  is_bytes d -> length d = (4 * n)%nat ->
  k ∈ extractDominantColors powQ sqrtQ d count ->
  exists p r g b a r' g' b',
    (p < n)%nat
    /\ d !! (4 * p)%nat = Some r /\ d !! (4 * p + 1)%nat = Some g
    /\ d !! (4 * p + 2)%nat = Some b /\ d !! (4 * p + 3)%nat = Some a
    /\ 128 <= a
    /\ channels_of k r' g' b'
    /\ Z.abs (r' - r) <= 12 /\ Z.abs (g' - g) <= 12 /\ Z.abs (b' - b) <= 12.
Proof.
  intros Hd Hlen Hk. unfold extractDominantColors in Hk.
  destruct (selectDistinct_sublist powQ sqrtQ count
              (sortedColors (histogram d)) []) as (rest & Hsub & Hres).
  cbn [app] in Hres. rewrite Hres in Hk.
  assert (Hp : exists p, (p < n)%nat /\ pixel_key d (4 * p) = Some k).
  { apply (histogram_keys d n k Hlen).
    rewrite <- sortedColors_Permutation.
    eapply elem_of_sublist; [exact Hk|exact Hsub]. }
  destruct Hp as (p & Hp & Hpk).
  destruct (pixel_key_near d p k n Hd Hlen Hp Hpk)
    as (r & g & b & a & r' & g' & b' & H).
  exists p, r, g, b, a, r', g', b'. split; [exact Hp|exact H].
Qed.

End DominantNear.

(** ** The application handlers *)

Section Handlers.

Variable powQ : Q -> Q -> Q.
Variable sqrtQ : Q -> Q.

Local Open Scope nat_scope.

Lemma density_raster (img : Image) (adj : ImageAdjustments)
    (mask : option Image) (dens : list Z) (hex : string) :
  whole_pixels img ->
  density_of (applyAttributes powQ img adj mask) dens ->
  is_bytes dens
  /\ Z.of_nat (length dens) = (width img * height img)%Z
  /\ createChannelImage (width img) (height img) dens hex
     = flat_map ink dens.
Proof.
  unfold whole_pixels. intros Hw [Hlen Hb].
  rewrite applyAttributes_length in Hlen.
  assert (Hl : Z.of_nat (length dens) = (width img * height img)%Z).
  { rewrite Hlen, Nat2Z.inj_div, Hw. apply Z.div_mul. lia. }
  split; [exact Hb|]. split; [exact Hl|].
  now apply createChannelImage_flat.
Qed.

(** X21. For a source image of whole pixels, every raster that
    [handleProcess] returns has the size of the source and encodes a
    density array of bytes, one for each pixel, as black pixels with the
    density as alpha. *)
Theorem handleProcess_rasters (img : Image) (mode : SeparationMode.t)
    (spotColors : list SpotColor) (includeWhiteBase : bool)
    (adjustments : ImageAdjustments) (mask : option Image) :
  whole_pixels img ->
  Forall (fun r =>
            exists dens,
              is_bytes dens
              /\ Z.of_nat (length dens) = (width img * height img)%Z
              /\ cr_dataUrl r = flat_map ink dens)
         (handleProcess powQ sqrtQ img mode spotColors includeWhiteBase
            adjustments mask).
Proof.
  intros Hw. unfold handleProcess.
  set (px := applyAttributes powQ img adjustments mask).
  assert (Hwhite :
    exists dens,
      is_bytes dens /\ Z.of_nat (length dens) = (width img * height img)%Z
      /\ cr_dataUrl (whiteBaseResult powQ img adjustments mask)
         = flat_map ink dens).
  { exists (whiteBase px).
    apply (density_raster img adjustments mask _ _ Hw).
    apply whiteBase_density. }
  assert (Hres :
    Forall (fun r =>
              exists dens,
                is_bytes dens
                /\ Z.of_nat (length dens) = (width img * height img)%Z
                /\ cr_dataUrl r = flat_map ink dens)
      match mode with
      | SeparationMode.CMYK => cmykResults powQ img adjustments mask
      | SeparationMode.SPOT =>
          spotResults powQ sqrtQ img spotColors adjustments mask
      end).
  { destruct mode.
    - destruct (cmyk_density px) as (Hc & Hm & Hy & Hk).
      unfold cmykResults. cbv zeta.
      apply Forall_cons_2; [exists (cArr (cmyk px))|
        apply Forall_cons_2; [exists (mArr (cmyk px))|
          apply Forall_cons_2; [exists (yArr (cmyk px))|
            apply Forall_cons_2; [exists (kArr (cmyk px))|apply Forall_nil_2]]]];
        now apply (density_raster img adjustments mask _ _ Hw).
    - unfold spotResults. cbv zeta. apply Forall_lookup. intros idx r Hr.
      rewrite list_lookup_imap in Hr.
      change (map mkTarget spotColors) with (mkTarget <$> spotColors) in Hr.
      rewrite list_lookup_fmap in Hr.
      destruct (spotColors !! idx) as [sc|] eqn:Hsc; [|discriminate].
      cbn in Hr. injection Hr as <-. cbn [cr_dataUrl].
      unfold processSpotColors. fold px.
      rewrite (spot_channel powQ sqrtQ px spotColors idx sc Hsc).
      cbn [default]. eexists.
      apply (density_raster img adjustments mask _ _ Hw).
      apply writes_loop_density. }
  destruct includeWhiteBase; [|exact Hres].
  apply Forall_cons_2; [exact Hwhite|exact Hres].
Qed.

End Handlers.

Section Zoom.

Lemma zoom_step_range (zoom : num) (a : ZoomAction) :
  between (1 # 2) 4 zoom -> between (1 # 2) 4 (zoom_step zoom a).
Proof.
  destruct zoom as [| | |q]; cbn [between]; try tauto. intros [Hlo Hhi].
  destruct a; unfold zoom_step, handleZoomIn, handleZoomOut, handleResetView.
  - rewrite add_Fin. unfold Math_min, lt. change 4%js with (Fin 4).
    cbn iota. qcases; cbn [between]; lra.
  - rewrite sub_Fin. unfold Math_max, lt. cbn iota.
    qcases; cbn [between]; lra.
  - cbn. lra.
Qed.

(** X22. Whatever sequence of zoom-in, zoom-out and reset actions is
    applied to a zoom between 0.5 and 4, as the initial zoom 1 is, the
    zoom stays between 0.5 and 4. *)
Theorem zoom_stays_in_range (actions : list ZoomAction) (zoom : num) :
  between (1 # 2) 4 zoom ->
  between (1 # 2) 4 (fold_left zoom_step actions zoom).
Proof.
  revert zoom. induction actions as [|a actions IH]; intros zoom Hz;
    cbn [fold_left]; [exact Hz|].
  apply IH. now apply zoom_step_range.
Qed.

End Zoom.

Section Palette.

Lemma handleRemoveColor_absent (spotColors : list SpotColor) (id0 : string) :
  Forall (fun c => id c <> id0) spotColors ->
  handleRemoveColor spotColors id0 = spotColors.
Proof.
  unfold handleRemoveColor.
  induction 1 as [|c l Hc Hl IH]; cbn [List.filter]; [done|].
  destruct (String.eqb_spec (id c) id0) as [E|_]; [done|].
  cbn [negb]. now rewrite IH.
Qed.

Lemma handleRemoveColor_added (now hex : string)
    (spotColors : list SpotColor) :
  handleRemoveColor (handleAddColor now spotColors hex) now
  = handleRemoveColor spotColors now.
Proof.
  unfold handleRemoveColor, handleAddColor. cbv zeta.
  rewrite List.filter_app. cbn [List.filter id].
  rewrite String.eqb_refl. cbn [negb]. apply app_nil_r.
Qed.

(** X23. Removing by its id a colour that was just added gives the
    palette back, when no colour of the palette had that id. *)
Theorem remove_added_color (now hex : string) (spotColors : list SpotColor) :
  Forall (fun c => id c <> now) spotColors ->
  handleRemoveColor (handleAddColor now spotColors hex) now = spotColors.
Proof.
  intros H. rewrite handleRemoveColor_added.
  now apply handleRemoveColor_absent.
Qed.

End Palette.

(** ** A mask that was not painted *)

Section UnpaintedMask.

Variable powQ : Q -> Q -> Q.

Local Open Scope nat_scope.

Lemma for4_ext_pixels {St : Type} (body body' : nat -> St -> St) :
  (forall q s, body (4 * q) s = body' (4 * q) s) ->
  forall fuel q len s,
    for4 fuel (4 * q) len body s = for4 fuel (4 * q) len body' s.
Proof.
  intros H. induction fuel as [|f IH]; intros q len s; cbn [for4]; [done|].
  destruct (4 * q <? len); [|done].
  replace (4 * q + 4) with (4 * S q) by lia. now rewrite IH, H.
Qed.

Lemma gt_10_low (m : list Z) (i : nat) :
  (forall v, m !! i = Some v -> (v <= 10)%Z) -> gt (get m i) 10 = false.
Proof.
  intros H. unfold get. destruct (m !! i) as [v|]; [|done].
  change 10%js with (ofZ 10). unfold gt. rewrite lt_ofZ.
  specialize (H v eq_refl). destruct (Z.ltb_spec 10 v); [lia|done].
Qed.

(** X24. A mask on which nothing was painted changes nothing: when the
    red and the green byte of every mask pixel are 10 or less, as on a
    blank canvas, the result is that of running without a mask. *)
Theorem unpainted_mask_is_no_mask (img mask : Image)
    (adj : ImageAdjustments) :
  (forall p v, data mask !! (4 * p) = Some v -> (v <= 10)%Z) ->
  (forall p v, data mask !! (4 * p + 1) = Some v -> (v <= 10)%Z) ->
  applyAttributes powQ img adj (Some mask) = applyAttributes powQ img adj None.
Proof.
  intros Hred Hgreen. unfold applyAttributes. cbv zeta.
  cbn [maskDataOf].
  destruct (_ && _); [|done].
  assert (Hb : forall q s,
            applyAttributes_body powQ adj (Some (data mask))
              (bgTarget adj (data img)) (toleranceSq adj) (4 * q) s
            = applyAttributes_body powQ adj None
                (bgTarget adj (data img)) (toleranceSq adj) (4 * q) s).
  { intros q s. unfold applyAttributes_body, alpha_rule. cbv zeta.
    destruct (bgTarget adj (data img)) as [[tr tg] tb].
    cbn [forceRemove forceKeep].
    rewrite (gt_10_low _ _ (Hred q)), (gt_10_low _ _ (Hgreen q)).
    reflexivity. }
  pose proof (for4_ext_pixels _ _ Hb (length (data img)) 0
                (length (data img)) (data img)) as E.
  change (4 * 0) with 0 in E. exact E.
Qed.

End UnpaintedMask.

(** ** Order properties of the adjustment stage *)

Section AttributesOrder.

Variable powQ : Q -> Q -> Q.

Local Open Scope nat_scope.

Lemma clamp255_value (q : Q) :
  exists q', clamp255 (Fin q) = Fin q'
    /\ ((q <= 0 /\ q' == 0) \/ (0 <= q <= 255 /\ q' == q)
        \/ (255 <= q /\ q' == 255))%Q.
Proof.
  unfold clamp255, Math_min, Math_max, lt. simpl.
  change (inject_Z 255) with 255%Q. change (inject_Z 0) with 0%Q.
  destruct (Qltb q 255) eqn:E1; [apply Qltb_lt in E1|apply Qltb_ge in E1].
  - destruct (Qltb 0 q) eqn:E2; [apply Qltb_lt in E2|apply Qltb_ge in E2].
    + exists q. split; [reflexivity|]. right. left. split; [lra|reflexivity].
    + exists 0%Q. split; [reflexivity|]. left. split; [lra|reflexivity].
  - exists 255%Q. split; [reflexivity|]. right. right.
    split; [lra|reflexivity].
Qed.

Lemma clamp255_mono (x y : Q) :
  (x <= y)%Q ->
  exists p q, clamp255 (Fin x) = Fin p /\ clamp255 (Fin y) = Fin q
              /\ (p <= q)%Q.
Proof.
  intros H.
  destruct (clamp255_value x) as (p & -> & Hp).
  destruct (clamp255_value y) as (q & -> & Hq).
  exists p, q. split; [done|]. split; [done|].
  destruct Hp as [[? Ep] | [[? Ep] | [? Ep]]],
           Hq as [[? Eq] | [[? Eq] | [? Eq]]]; rewrite Ep, Eq; lra.
Qed.

(** With gamma 1 the tone curve keeps the order of its inputs. *)
Lemma tone_mono (adj1 adj2 : ImageAdjustments) (x y b1 b2 k : Q) :
  brightness adj1 = Fin b1 -> brightness adj2 = Fin b2 ->
  contrast adj1 = Fin k -> contrast adj2 = Fin k ->
  (-100 <= k <= 100)%Q ->
  gamma adj1 = 1%js -> gamma adj2 = 1%js ->
  (x + b1 <= y + b2)%Q ->
  exists p q, tone powQ adj1 (Fin x) = Fin p /\ tone powQ adj2 (Fin y) = Fin q
              /\ (p <= q)%Q.
Proof.
  intros B1 B2 K1 K2 Hk G1 G2 H.
  unfold tone, gamma_step, contrast_step, contrastFactor, brightness_step.
  rewrite B1, B2, K1, K2, G1, G2.
  change (sneq 1 1)%js with false. cbv iota. fin_arith.
  rewrite !div_Fin by lra. fin_arith.
  apply clamp255_mono.
  set (F := (259 * (k + 255) / (255 * (259 + - k)))%Q).
  assert (HF : (0 <= F)%Q).
  { unfold F. apply Qle_shift_div_l; lra. }
  nra.
Qed.

(** X25. With gamma 1 and a contrast within -100..100 the tone curve keeps
    the order of brightness: a colour byte [x] under brightness [b1] never
    comes out above a colour byte [y] under brightness [b2] when
    [x + b1 <= y + b2].  In particular raising the brightness never
    darkens a pixel, and a brighter source pixel never comes out darker. *)
Theorem tone_keeps_order (img1 img2 : Image) (adj1 adj2 : ImageAdjustments)
    (mask1 mask2 : option Image) (p1 c1 p2 c2 : nat) (x y : Z)
    (b1 b2 k : Q) :
  c1 < 3 -> c2 < 3 ->
  data img1 !! (4 * p1 + c1) = Some x ->
  data img2 !! (4 * p2 + c2) = Some y ->
  brightness adj1 = Fin b1 -> brightness adj2 = Fin b2 ->
  contrast adj1 = Fin k -> contrast adj2 = Fin k ->
  (-100 <= k <= 100)%Q ->
  gamma adj1 = 1%js -> gamma adj2 = 1%js ->
  (inject_Z x + b1 <= inject_Z y + b2)%Q ->
  exists v1 v2,
    applyAttributes powQ img1 adj1 mask1 !! (4 * p1 + c1) = Some v1
    /\ applyAttributes powQ img2 adj2 mask2 !! (4 * p2 + c2) = Some v2
    /\ (v1 <= v2)%Z.
Proof.
  intros Hc1 Hc2 Hx Hy B1 B2 K1 K2 Hk G1 G2 H.
  rewrite !applyAttributes_lookup by lia. rewrite Hx, Hy.
  cbn [fmap option_fmap option_map]. do 2 eexists.
  split; [reflexivity|]. split; [reflexivity|].
  assert (S1 : stored powQ adj1 (maskDataOf img1 mask1)
                 (bgTarget adj1 (data img1)) (toleranceSq adj1) (data img1)
                 (4 * p1) c1
               = tone powQ adj1 (ofZ x)).
  { unfold stored.
    destruct c1 as [|[|[|c1]]]; [rewrite Nat.add_0_r in Hx| | |lia];
      now rewrite (get_Some _ _ _ Hx). }
  assert (S2 : stored powQ adj2 (maskDataOf img2 mask2)
                 (bgTarget adj2 (data img2)) (toleranceSq adj2) (data img2)
                 (4 * p2) c2
               = tone powQ adj2 (ofZ y)).
  { unfold stored.
    destruct c2 as [|[|[|c2]]]; [rewrite Nat.add_0_r in Hy| | |lia];
      now rewrite (get_Some _ _ _ Hy). }
  rewrite S1, S2. unfold ofZ.
  destruct (tone_mono adj1 adj2 (inject_Z x) (inject_Z y) b1 b2 k
              B1 B2 K1 K2 Hk G1 G2 H) as (p & q & -> & -> & Hpq).
  now apply ToUint8Clamp_mono.
Qed.

Lemma lt_mono_l (a b : Q) (x : num) :
  (b <= a)%Q -> lt (Fin a) x = true -> lt (Fin b) x = true.
Proof.
  intros H. destruct x as [| | |q]; cbn [lt]; try done.
  rewrite !Qltb_lt. lra.
Qed.

Lemma le_mono_r (a b : Q) (x : num) :
  (a <= b)%Q -> le x (Fin a) = true -> le x (Fin b) = true.
Proof.
  intros H. destruct x as [| | |q]; cbn [le]; try done.
  rewrite !Qle_bool_iff. lra.
Qed.

Lemma toleranceSq_mono (adj1 adj2 : ImageAdjustments) (t1 t2 : Q) :
  bgThreshold adj1 = Fin t1 -> bgThreshold adj2 = Fin t2 ->
  (0 <= t1 <= t2)%Q ->
  exists s1 s2, toleranceSq adj1 = Fin s1 /\ toleranceSq adj2 = Fin s2
                /\ (s1 <= s2)%Q.
Proof.
  intros T1 T2 Ht. unfold toleranceSq. rewrite T1, T2. cbv zeta.
  rewrite !div_Fin by discriminate. fin_arith.
  do 2 eexists. split; [reflexivity|]. split; [reflexivity|].
  assert (E1 : (t1 / 100 == t1 * (1 # 100))%Q) by field.
  assert (E2 : (t2 / 100 == t2 * (1 # 100))%Q) by field.
  rewrite E1, E2. nra.
Qed.

Lemma white_rule_mono (l : num) (c1 c2 : Q) (a : Z) :
  (c2 <= c1)%Q -> (0 <= a <= 255)%Z ->
  (ToUint8Clamp (if gt l (Fin c2) then 0 else ofZ a)
   <= ToUint8Clamp (if gt l (Fin c1) then 0 else ofZ a))%Z.
Proof.
  intros Hc Ha.
  assert (Z0 : ToUint8Clamp 0 = 0%Z) by reflexivity.
  assert (Za : ToUint8Clamp (ofZ a) = a) by now apply ToUint8Clamp_byte.
  unfold gt. destruct (lt (Fin c1) l) eqn:E1.
  - rewrite (lt_mono_l c1 c2 l Hc E1). lia.
  - destruct (lt (Fin c2) l); lia.
Qed.

Lemma dist_rule_mono (x : num) (s1 s2 : Q) (a : Z) :
  (s1 <= s2)%Q -> (0 <= a <= 255)%Z ->
  (ToUint8Clamp (if le x (Fin s2) then 0 else ofZ a)
   <= ToUint8Clamp (if le x (Fin s1) then 0 else ofZ a))%Z.
Proof.
  intros Hs Ha.
  assert (Z0 : ToUint8Clamp 0 = 0%Z) by reflexivity.
  assert (Za : ToUint8Clamp (ofZ a) = a) by now apply ToUint8Clamp_byte.
  destruct (le x (Fin s1)) eqn:E1.
  - rewrite (le_mono_r s1 s2 x Hs E1). lia.
  - destruct (le x (Fin s2)); lia.
Qed.

(** X26. Raising the background threshold never restores a pixel: of two
    settings that differ in the threshold only, with thresholds
    [0 <= t1 <= t2], the one with the higher threshold leaves every pixel
    at most the alpha that the other leaves it. *)
Theorem higher_threshold_never_restores (img : Image)
    (adj1 adj2 : ImageAdjustments) (userMask : option Image) (p : nat)
    (a : Z) (t1 t2 : Q) :
  brightness adj1 = brightness adj2 -> contrast adj1 = contrast adj2 ->
  gamma adj1 = gamma adj2 -> removeBg adj1 = removeBg adj2 ->
  bgRemoveMode adj1 = bgRemoveMode adj2 ->
  customBgColor adj1 = customBgColor adj2 ->
  bgThreshold adj1 = Fin t1 -> bgThreshold adj2 = Fin t2 ->
  (0 <= t1 <= t2)%Q ->
  is_bytes (data img) ->
  data img !! (4 * p + 3) = Some a ->
  exists v1 v2,
    applyAttributes powQ img adj1 userMask !! (4 * p + 3) = Some v1
    /\ applyAttributes powQ img adj2 userMask !! (4 * p + 3) = Some v2
    /\ (v2 <= v1)%Z.
Proof.
  intros Hb Hc Hg Hr Hm Hcol T1 T2 Ht Hd Ha.
  rewrite !(applyAttributes_alpha _ _ _ _ _ _ Ha). do 2 eexists.
  split; [reflexivity|]. split; [reflexivity|].
  assert (Ra : (0 <= a <= 255)%Z).
  { unfold is_bytes in Hd. rewrite Forall_lookup in Hd. exact (Hd _ _ Ha). }
  assert (Etone : forall c, tone powQ adj1 c = tone powQ adj2 c)
    by (intros c; now apply tone_ext).
  assert (Etarget : bgTarget adj1 (data img) = bgTarget adj2 (data img)).
  { unfold bgTarget. now rewrite Hr, Hm, Hcol. }
  rewrite !Etone, Etarget.
  destruct (toleranceSq_mono adj1 adj2 t1 t2 T1 T2 Ht)
    as (s1 & s2 & -> & -> & Hs).
  unfold alpha_rule. destruct (bgTarget adj2 (data img)) as [[tr tg] tb].
  rewrite Hr, Hm, T1, T2.
  assert (Z0 : ToUint8Clamp 0 = 0%Z) by reflexivity.
  assert (Za : ToUint8Clamp (ofZ a) = a) by now apply ToUint8Clamp_byte.
  destruct (forceRemove _ _); [lia|].
  destruct (forceKeep _ _); [lia|].
  destruct (removeBg adj2); [|lia].
  destruct (bgRemoveMode adj2).
  - fin_arith. apply white_rule_mono; [lra|exact Ra].
  - now apply dist_rule_mono.
  - now apply dist_rule_mono.
  - now apply dist_rule_mono.
Qed.

End AttributesOrder.

(** ** Instances on sample inputs *)

Lemma erase_precedes_keep_witness :
  applyAttributes Samples.pow0 Samples.grey1 Samples.neutral
    (Some Samples.mask_both) !! 3%nat = Some 0.
Proof.
  apply (erase_precedes_keep Samples.pow0 Samples.grey1 Samples.neutral
           Samples.mask_both 0 200 200 255); reflexivity.
Defined.

Lemma alpha_never_increases_witness :
  exists a' : Z,
    applyAttributes Samples.pow0 Samples.grey1 Samples.neutral None !! 3%nat
    = Some a' /\ a' <= 255.
Proof.
  apply (alpha_never_increases Samples.pow0 Samples.grey1 Samples.neutral
           None 0 255).
  - unfold is_bytes. simpl. repeat constructor; lia.
  - reflexivity.
Defined.





Lemma threshold_100_erases_witness :
  applyAttributes Samples.pow0 Samples.white1 Samples.black100 None !! 3%nat
  = Some 0.
Proof.
  apply (threshold_100_erases Samples.pow0 Samples.white1 Samples.black100
           None 0).
  - constructor; simpl; lra.
  - reflexivity.
  - discriminate.
  - simpl. reflexivity.
  - discriminate.
  - unfold is_bytes. simpl. repeat constructor; lia.
  - simpl. lia.
  - reflexivity.
Defined.


Lemma sqrt0_below_60 (x : Q) :
  (0 < x)%Q -> (x < 3600)%Q -> (Samples.sqrt0 x < 60)%Q.
Proof.
  intros H0 H1. unfold Samples.sqrt0.
  change 60%Q with (inject_Z 60). rewrite <- Zlt_Qlt.
  assert (Hf0 : 0 <= Qfloor x).
  { rewrite <- (Qfloor_Z 0). apply Qfloor_resp_le. now apply Qlt_le_weak. }
  assert (Hf1 : Qfloor x < 3600).
  { rewrite Zlt_Qlt. eapply Qle_lt_trans; [apply Qfloor_le|exact H1]. }
  apply Z.sqrt_lt_square; lia.
Qed.

Lemma dominant_colors_distinct_sorted_witness :
  let result :=
    extractDominantColors Samples.pow0 Samples.sqrt0 Samples.two_tone (ofZ 4) in
  Z.of_nat (length result) <= 4
  /\ forall (i j : nat) (c1 c2 : string),
       (i < j)%nat -> result !! i = Some c1 -> result !! j = Some c2 ->
       (exists r1 g1 b1 r2 g2 b2,
          channels_of c1 r1 g1 b1 /\ channels_of c2 r2 g2 b2
          /\ 3600 <= (r1 - r2) * (r1 - r2) + (g1 - g2) * (g1 - g2)
                     + (b1 - b2) * (b1 - b2))
       /\ frequency Samples.two_tone c2 <= frequency Samples.two_tone c1.
Proof.
  refine (dominant_colors_distinct_sorted Samples.pow0 Samples.sqrt0
            sqrt0_below_60 Samples.two_tone 3 4 _ _ _).
  - unfold is_bytes, Samples.two_tone. repeat constructor; lia.
  - reflexivity.
  - lia.
Defined.

Lemma mismatched_mask_is_no_mask_witness :
  applyAttributes Samples.pow0 Samples.grey1 Samples.neutral
    (Some Samples.mask_wide)
  = applyAttributes Samples.pow0 Samples.grey1 Samples.neutral None.
Proof.
  apply (mismatched_mask_is_no_mask Samples.pow0 Samples.sqrt0 Samples.grey1
           Samples.mask_wide Samples.neutral []).
  left. discriminate.
Defined.

Lemma cmyk_opaque_black_witness :
  kArr (cmyk Samples.three_px) !! 0%nat = Some 255.
Proof.
  apply (cmyk_opaque_black Samples.three_px 0); reflexivity.
Defined.

Lemma whiteBase_global_decision_witness :
  whiteBase Samples.three_px !! 1%nat = Some 255
  /\ exists v : Z,
       whiteBase Samples.half1 !! 0%nat = Some v
       /\ nearest v (255 - (0.299 * inject_Z 0 + 0.587 * inject_Z 228
                            + 0.114 * inject_Z 76))%Q.
Proof.
  split.
  - apply (whiteBase_global_decision Samples.three_px 1 255 0 0 255).
    + unfold is_bytes, Samples.three_px. repeat constructor; lia.
    + reflexivity.
    + reflexivity.
    + reflexivity.
    + reflexivity.
    + exists 2%nat, 128. split; [reflexivity|lia].
  - apply (whiteBase_global_decision Samples.half1 0 0 228 76 255).
    + unfold is_bytes, Samples.half1. repeat constructor; lia.
    + reflexivity.
    + reflexivity.
    + reflexivity.
    + reflexivity.
    + intros q a' H.
      assert (q = 0%nat) as ->
        by (apply lookup_lt_Some in H; simpl in H; lia).
      simpl in H. injection H as <-. lia.
Defined.

Lemma spot_exact_match_witness :
  exists ch,
    spot Samples.pow0 Samples.sqrt0 Samples.three_px [Samples.green_spot]
      !! 0%nat = Some ch
    /\ ch !! 2%nat = Some 128.
Proof.
  apply (spot_exact_match Samples.pow0 Samples.sqrt0 Samples.three_px
           [Samples.green_spot] 0 Samples.green_spot 2 0 255 0 128 50);
    reflexivity || lia.
Defined.

Lemma neutral_settings_identity_witness :
  applyAttributes Samples.pow0 Samples.grey1 Samples.neutral None
  = data Samples.grey1.
Proof.
  apply (neutral_settings_identity Samples.pow0 Samples.grey1
           Samples.neutral); try reflexivity.
  unfold is_bytes. simpl. repeat constructor; lia.
Defined.

Lemma kept_pixels_keep_alpha_witness :
  applyAttributes Samples.pow0 Samples.grey1 Samples.black100
    (Some Samples.mask_keep) !! 3%nat = Some 255.
Proof.
  apply (kept_pixels_keep_alpha Samples.pow0 Samples.grey1 Samples.black100
           (Some Samples.mask_keep) 0 255).
  - unfold is_bytes. simpl. repeat constructor; lia.
  - reflexivity.
  - reflexivity.
  - left. reflexivity.
Defined.

Lemma white_threshold_0_keeps_alpha_witness :
  applyAttributes Samples.pow0 Samples.white1 Samples.white0 None !! 3%nat
  = Some 255.
Proof.
  apply (white_threshold_0_keeps_alpha Samples.pow0 Samples.white1
           Samples.white0 None 0 255).
  - reflexivity.
  - simpl. reflexivity.
  - unfold is_bytes. simpl. repeat constructor; lia.
  - reflexivity.
  - reflexivity.
Defined.

Lemma colour_independent_of_removal_witness :
  applyAttributes Samples.pow0 Samples.grey1 Samples.neutral None !! 0%nat
  = applyAttributes Samples.pow0 Samples.grey1 Samples.black100
      (Some Samples.mask_both) !! 0%nat.
Proof.
  apply (colour_independent_of_removal Samples.pow0 Samples.grey1
           Samples.neutral Samples.black100 None (Some Samples.mask_both)
           0 0); reflexivity || lia.
Defined.

Lemma cmyk_transparent_pixel_witness :
  cArr (cmyk Samples.clear1) !! 0%nat = Some 0
  /\ mArr (cmyk Samples.clear1) !! 0%nat = Some 0
  /\ yArr (cmyk Samples.clear1) !! 0%nat = Some 0
  /\ kArr (cmyk Samples.clear1) !! 0%nat = Some 0.
Proof.
  apply (cmyk_transparent_pixel Samples.clear1 0). reflexivity.
Defined.

Lemma cmyk_largest_component_no_ink_witness :
  (0 <= 255 -> 0 <= 255 -> cArr (cmyk Samples.three_px) !! 1%nat = Some 0)
  /\ (255 <= 0 -> 0 <= 0 -> mArr (cmyk Samples.three_px) !! 1%nat = Some 0)
  /\ (255 <= 0 -> 0 <= 0 -> yArr (cmyk Samples.three_px) !! 1%nat = Some 0).
Proof.
  apply (cmyk_largest_component_no_ink Samples.three_px 1 255 0 0 255);
    try reflexivity.
  unfold is_bytes, Samples.three_px. repeat constructor; lia.
Defined.

Lemma cmyk_ink_at_most_alpha_witness :
  exists c m y k,
    cArr (cmyk Samples.three_px) !! 2%nat = Some c
    /\ mArr (cmyk Samples.three_px) !! 2%nat = Some m
    /\ yArr (cmyk Samples.three_px) !! 2%nat = Some y
    /\ kArr (cmyk Samples.three_px) !! 2%nat = Some k
    /\ c <= 128 /\ m <= 128 /\ y <= 128 /\ k <= 128.
Proof.
  apply (cmyk_ink_at_most_alpha Samples.three_px 2 0 255 0 128);
    try reflexivity.
  unfold is_bytes, Samples.three_px. repeat constructor; lia.
Defined.

Lemma cmyk_key_of_opaque_pixel_witness :
  kArr (cmyk Samples.three_px) !! 1%nat = Some 0.
Proof.
  apply (cmyk_key_of_opaque_pixel Samples.three_px 1 255 0 0);
    try reflexivity.
  unfold is_bytes, Samples.three_px. repeat constructor; lia.
Defined.

Lemma spot_transparent_pixel_witness :
  exists ch,
    spot Samples.pow0 Samples.sqrt0 Samples.clear1 [Samples.green_spot]
      !! 0%nat = Some ch
    /\ ch !! 0%nat = Some 0.
Proof.
  apply (spot_transparent_pixel Samples.pow0 Samples.sqrt0 Samples.clear1
           [Samples.green_spot] 0 Samples.green_spot 0); reflexivity.
Defined.

Lemma spot_unparsed_colour_is_empty_witness :
  exists ch,
    spot Samples.pow0 Samples.sqrt0 Samples.three_px [Samples.bad_spot]
      !! 0%nat = Some ch
    /\ ch !! 1%nat = Some 0.
Proof.
  apply (spot_unparsed_colour_is_empty Samples.pow0 Samples.sqrt0
           Samples.three_px [Samples.bad_spot] 0 Samples.bad_spot 1).
  - reflexivity.
  - left. reflexivity.
  - simpl. lia.
Defined.

Lemma sqrt0_nonneg (x : Q) : (0 < x)%Q -> (0 <= Samples.sqrt0 x)%Q.
Proof.
  intros _. unfold Samples.sqrt0. change 0%Q with (inject_Z 0).
  rewrite <- Zle_Qle. apply Z.sqrt_nonneg.
Qed.

Lemma spot_ink_at_most_alpha_witness :
  exists ch v,
    spot Samples.pow0 Samples.sqrt0 Samples.three_px [Samples.green_spot]
      !! 0%nat = Some ch
    /\ ch !! 2%nat = Some v /\ v <= 128.
Proof.
  apply (spot_ink_at_most_alpha Samples.pow0 Samples.sqrt0 sqrt0_nonneg
           Samples.three_px [Samples.green_spot] 0 Samples.green_spot 2 128
           50).
  - unfold is_bytes, Samples.three_px. repeat constructor; lia.
  - reflexivity.
  - reflexivity.
  - lra.
  - reflexivity.
Defined.

Lemma spot_threshold_never_adds_ink_witness :
  exists ch1 ch2 v1 v2,
    spot Samples.pow0 Samples.sqrt0 Samples.three_px
      [Samples.green_spot; Samples.green_tight] !! 0%nat = Some ch1
    /\ spot Samples.pow0 Samples.sqrt0 Samples.three_px
         [Samples.green_spot; Samples.green_tight] !! 1%nat = Some ch2
    /\ ch1 !! 1%nat = Some v1 /\ ch2 !! 1%nat = Some v2 /\ v2 <= v1.
Proof.
  apply (spot_threshold_never_adds_ink Samples.pow0 Samples.sqrt0
           sqrt0_nonneg Samples.three_px
           [Samples.green_spot; Samples.green_tight]
           [Samples.green_spot; Samples.green_tight] 0 1
           Samples.green_spot Samples.green_tight 50 100 1).
  - unfold is_bytes, Samples.three_px. repeat constructor; lia.
  - reflexivity.
  - reflexivity.
  - reflexivity.
  - reflexivity.
  - reflexivity.
  - lra.
  - simpl. lia.
Defined.

Lemma createChannelImage_encodes_witness :
  let raster := createChannelImage 2 1 [7; 200] "#00FFFF" in
  length raster = (4 * 2)%nat
  /\ forall i : nat, (i < 2)%nat ->
       raster !! (4 * i)%nat = Some 0 /\ raster !! (4 * i + 1)%nat = Some 0
       /\ raster !! (4 * i + 2)%nat = Some 0
       /\ raster !! (4 * i + 3)%nat = [7; 200] !! i.
Proof.
  refine (createChannelImage_encodes 2 1 [7; 200] "#00FFFF" _ _).
  - unfold is_bytes. repeat constructor; lia.
  - reflexivity.
Defined.

Lemma dominant_colors_empty_iff_witness :
  extractDominantColors Samples.pow0 Samples.sqrt0 Samples.two_tone (ofZ 0)
  = []
  <-> 0 <= 0
      \/ forall p : nat, (p < 3)%nat ->
           pixel_key Samples.two_tone (4 * p) = None.
Proof.
  refine (dominant_colors_empty_iff Samples.pow0 Samples.sqrt0
            Samples.two_tone 3 0 _).
  reflexivity.
Defined.

Lemma dominant_first_is_most_frequent_witness :
  exists c0,
    extractDominantColors Samples.pow0 Samples.sqrt0 Samples.two_tone (ofZ 4)
      !! 0%nat = Some c0
    /\ forall k, frequency Samples.two_tone k <= frequency Samples.two_tone c0.
Proof.
  refine (dominant_first_is_most_frequent Samples.pow0 Samples.sqrt0
            Samples.two_tone 3 0 4 _ _ _ _).
  - reflexivity.
  - lia.
  - lia.
  - vm_compute. discriminate.
Defined.

Lemma dominant_colors_are_counted_keys_witness :
  let result :=
    extractDominantColors Samples.pow0 Samples.sqrt0 Samples.two_tone (ofZ 4) in
  NoDup result
  /\ forall k, k ∈ result ->
       (exists p : nat,
          (p < 3)%nat /\ pixel_key Samples.two_tone (4 * p) = Some k)
       /\ 1 <= frequency Samples.two_tone k.
Proof.
  refine (dominant_colors_are_counted_keys Samples.pow0 Samples.sqrt0
            Samples.two_tone 3 (ofZ 4) _).
  reflexivity.
Defined.

Lemma dominant_colors_near_a_pixel_witness :
  exists (p : nat) r g b a r' g' b',
    (p < 3)%nat
    /\ Samples.two_tone !! (4 * p)%nat = Some r
    /\ Samples.two_tone !! (4 * p + 1)%nat = Some g
    /\ Samples.two_tone !! (4 * p + 2)%nat = Some b
    /\ Samples.two_tone !! (4 * p + 3)%nat = Some a
    /\ 128 <= a
    /\ channels_of "#000000" r' g' b'
    /\ Z.abs (r' - r) <= 12 /\ Z.abs (g' - g) <= 12 /\ Z.abs (b' - b) <= 12.
Proof.
  refine (dominant_colors_near_a_pixel Samples.pow0 Samples.sqrt0
            Samples.two_tone 3 (ofZ 4) "#000000" _ _ _).
  - unfold is_bytes, Samples.two_tone. repeat constructor; lia.
  - reflexivity.
  - vm_compute. left.
Defined.

Lemma handleProcess_rasters_witness :
  Forall (fun r =>
            exists dens,
              is_bytes dens
              /\ Z.of_nat (length dens) = 1 * 1
              /\ cr_dataUrl r = flat_map ink dens)
         (handleProcess Samples.pow0 Samples.sqrt0 Samples.grey1
            SeparationMode.SPOT [Samples.green_spot] true Samples.neutral
            (Some Samples.mask_blank)).
Proof.
  refine (handleProcess_rasters Samples.pow0 Samples.sqrt0 Samples.grey1
            SeparationMode.SPOT [Samples.green_spot] true Samples.neutral
            (Some Samples.mask_blank) _).
  reflexivity.
Defined.

Lemma zoom_stays_in_range_witness :
  between (1 # 2) 4 (fold_left zoom_step [ZoomIn; ZoomIn; ZoomOut] 1%js).
Proof.
  apply (zoom_stays_in_range [ZoomIn; ZoomIn; ZoomOut] 1%js).
  simpl. lra.
Defined.

Lemma remove_added_color_witness :
  handleRemoveColor
    (handleAddColor "1700000000000" [Samples.green_spot] "#ff0000")
    "1700000000000"
  = [Samples.green_spot].
Proof.
  apply (remove_added_color "1700000000000" "#ff0000" [Samples.green_spot]).
  repeat constructor. simpl. discriminate.
Defined.

Lemma unpainted_mask_is_no_mask_witness :
  applyAttributes Samples.pow0 Samples.grey1 Samples.black100
    (Some Samples.mask_blank)
  = applyAttributes Samples.pow0 Samples.grey1 Samples.black100 None.
Proof.
  apply (unpainted_mask_is_no_mask Samples.pow0 Samples.grey1
           Samples.mask_blank Samples.black100);
    intros p v H; apply list_elem_of_lookup_2 in H; simpl in H;
    repeat (apply elem_of_cons in H as [-> | H]); try lia;
    now apply elem_of_nil in H.
Defined.

Lemma tone_keeps_order_witness :
  exists v1 v2,
    applyAttributes Samples.pow0 Samples.grey1 Samples.neutral None !! 0%nat
    = Some v1
    /\ applyAttributes Samples.pow0 Samples.grey1 Samples.auto50 None !! 0%nat
       = Some v2
    /\ v1 <= v2.
Proof.
  apply (tone_keeps_order Samples.pow0 Samples.grey1 Samples.grey1
           Samples.neutral Samples.auto50 None None 0 0 0 0 100 100 0 50 0);
    try reflexivity; try lia; lra.
Defined.

Lemma higher_threshold_never_restores_witness :
  exists v1 v2,
    applyAttributes Samples.pow0 Samples.white1 Samples.white0 None !! 3%nat
    = Some v1
    /\ applyAttributes Samples.pow0 Samples.white1 Samples.white20 None
         !! 3%nat = Some v2
    /\ v2 <= v1.
Proof.
  apply (higher_threshold_never_restores Samples.pow0 Samples.white1
           Samples.white0 Samples.white20 None 0 255 0 20);
    try reflexivity; try lra.
  unfold is_bytes. simpl. repeat constructor; lia.
Defined.
